(** * ECS Timeline Builder: the event parser of [js/parser.js]

    A shallow embedding of the parser module (field accessors, timestamp and
    host resolution, classification, connection extraction, summaries,
    identifier assignment, the ingestion loop, the host registry and the
    connection identifier) together with the properties that the design
    document states about it, and of what the application and the relay do
    with its events: the merge of a batch into the timeline, the record sent
    to the relay for an event, the message handler of the relay and the
    section test of the detail panel.

    Modelling conventions.
    - A raw record is a tree of JavaScript values as [JSON.parse] builds
      them: [undefined], [null], booleans, numbers, strings, arrays and plain
      objects.  Numbers are the integral ones, carried as [Z]; strings are
      ASCII text, so case mapping and white space are the ASCII ones.
    - An object is an association list read at the first binding of a key.
    - Arrays and objects have no address in a tree; [===] and the key
      comparison of [Map] and [Set] take two array or object values for two
      different references, as they are after [JSON.parse].
    - A JavaScript exception is a [Throw] in the [result] monad.
    - [Date.parse] and [JSON.parse] are host functions: parameters of the
      section that embeds the code which calls them.  [Date.now()] is the
      explicit argument [now].
    - [console.warn] only writes to the console and is left out. *)

From Stdlib Require Import List String Ascii ZArith Bool Lia.
From Stdlib Require Import DecimalString DecimalNat.
Import ListNotations.
Local Open Scope list_scope.
Local Open Scope string_scope.
Set Warnings "-register-all".

(** ** Values and exceptions *)

Inductive value : Type :=
| VUndefined
| VNull
| VBool (b : bool)
| VNum (n : Z)
| VStr (s : string)
| VArr (items : list value)
| VObj (fields : list (string * value)).

Inductive error : Type :=
| TypeError
| JsonArrayError
| MultipleObjectsError
| JsonError
| NotJsonError
| InvalidInputType.

Inductive result (A : Type) : Type :=
| Ok (a : A)
| Throw (e : error).

Arguments Ok {A} a.
Arguments Throw {A} e.

Definition bind {A B : Type} (c : result A) (k : A -> result B) : result B :=
  match c with
  | Ok a => k a
  | Throw e => Throw e
  end.

Notation "x <- c ;; k" := (bind c (fun x => k))
  (at level 61, c at next level, right associativity).

(** ** Primitive operations of the language *)

(** ToBoolean. *)
Definition truthy (v : value) : bool :=
  match v with
  | VUndefined | VNull => false
  | VBool b => b
  | VNum n => negb (n =? 0)%Z
  | VStr s => negb (s =? "")
  | VArr _ | VObj _ => true
  end.

(** [a || b]. *)
Definition orv (a b : value) : value := if truthy a then a else b.

(** [a === b]. *)
Definition strictEq (a b : value) : bool :=
  match a, b with
  | VUndefined, VUndefined => true
  | VNull, VNull => true
  | VBool x, VBool y => Bool.eqb x y
  | VNum x, VNum y => (x =? y)%Z
  | VStr x, VStr y => (x =? y)
  | _, _ => false
  end.

Fixpoint lookup {A : Type} (k : string) (l : list (string * A)) : option A :=
  match l with
  | [] => None
  | (k', v) :: rest => if k' =? k then Some v else lookup k rest
  end.

Definition hasOwn {A : Type} (k : string) (l : list (string * A)) : bool :=
  match lookup k l with Some _ => true | None => false end.

(** [v[key]] for a [v] that is neither [null] nor [undefined], at the keys
    this module reads: an own property of an object; nothing on a primitive
    or an array (no segment of a path below is an index, [length] or a
    method name). *)
Definition getProp (v : value) (key : string) : value :=
  match v with
  | VObj fields =>
      match lookup key fields with
      | Some x => x
      | None => VUndefined
      end
  | _ => VUndefined
  end.

(** [s.split(c)]. *)
Fixpoint split (c : ascii) (s : string) : list string :=
  match s with
  | EmptyString => [EmptyString]
  | String a rest =>
      if Ascii.eqb a c then EmptyString :: split c rest
      else match split c rest with
           | [] => [String a EmptyString]
           | h :: t => String a h :: t
           end
  end.

Definition is_upper (a : ascii) : bool :=
  let n := nat_of_ascii a in (65 <=? n)%nat && (n <=? 90)%nat.

Definition is_lower (a : ascii) : bool :=
  let n := nat_of_ascii a in (97 <=? n)%nat && (n <=? 122)%nat.

Definition lower_char (a : ascii) : ascii :=
  if is_upper a then ascii_of_nat (nat_of_ascii a + 32) else a.

Definition upper_char (a : ascii) : ascii :=
  if is_lower a then ascii_of_nat (nat_of_ascii a - 32) else a.

Fixpoint map_string (f : ascii -> ascii) (s : string) : string :=
  match s with
  | EmptyString => EmptyString
  | String a rest => String (f a) (map_string f rest)
  end.

Definition lowerString (s : string) : string := map_string lower_char s.
Definition upperString (s : string) : string := map_string upper_char s.

(** [s.includes(p)]. *)
Fixpoint includes (p s : string) : bool :=
  prefix p s ||
  match s with
  | EmptyString => false
  | String _ rest => includes p rest
  end.

(** [v.toLowerCase()], [v.toUpperCase()] and [v.startsWith(p)]: methods of
    strings only; on any other value the call is a [TypeError]. *)
Definition toLowerCase (v : value) : result string :=
  match v with
  | VStr s => Ok (lowerString s)
  | _ => Throw TypeError
  end.

Definition toUpperCase (v : value) : result string :=
  match v with
  | VStr s => Ok (upperString s)
  | _ => Throw TypeError
  end.

Definition startsWith (v : value) (p : string) : result bool :=
  match v with
  | VStr s => Ok (prefix p s)
  | _ => Throw TypeError
  end.

(** Number to string, on integers. *)
Definition natToString (n : nat) : string :=
  NilZero.string_of_uint (Nat.to_uint n).

Definition numToString (n : Z) : string :=
  NilZero.string_of_int (Z.to_int n).

(** ToString: the conversion of template literals, of [+] with a string and
    of property keys.  An array joins its elements with a comma, [null] and
    [undefined] elements giving the empty string; a plain object prints as
    ["[object Object]"], unless it has an own [toString] property, which
    after [JSON.parse] is never callable: the conversion then throws. *)
Fixpoint toStr (v : value) : result string :=
  match v with
  | VUndefined => Ok "undefined"
  | VNull => Ok "null"
  | VBool true => Ok "true"
  | VBool false => Ok "false"
  | VNum n => Ok (numToString n)
  | VStr s => Ok s
  | VArr items =>
      (fix join (l : list value) : result string :=
         match l with
         | [] => Ok ""
         | x :: rest =>
             s <- match x with
                  | VUndefined | VNull => Ok ""
                  | _ => toStr x
                  end ;;
             match rest with
             | [] => Ok s
             | _ :: _ => r <- join rest ;; Ok (s ++ "," ++ r)
             end
         end) items
  | VObj fields =>
      if hasOwn "toString" fields then Throw TypeError
      else Ok "[object Object]"
  end.

(** [summary += text]. *)
Definition appendStr (summary : value) (text : string) : result value :=
  l <- toStr summary ;; Ok (VStr (l ++ text)).

(** [Array.isArray(v) ? v[0] : v]. *)
Definition firstIfArray (v : value) : value :=
  match v with
  | VArr [] => VUndefined
  | VArr (x :: _) => x
  | _ => v
  end.

(** TimeClip: a time value is at most 8.64e15 ms away from the epoch. *)
Definition timeClip (n : Z) : option Z :=
  if (Z.abs n <=? 8640000000000000)%Z then Some n else None.

(** ** Field accessors *)

Fixpoint walk (keys : list string) (current : value) : option value :=
  match keys with
  | [] => Some current
  | key :: rest =>
      match current with
      | VNull | VUndefined => None
      | _ => walk rest (getProp current key)
      end
  end.

(** Safely get a nested property from an object. *)
Definition getNestedValue (obj : value) (path : string) (defaultValue : value)
  : value :=
  if negb (truthy obj) || (path =? "") then defaultValue
  else match walk (split "." path) obj with
       | None => defaultValue
       | Some VUndefined => defaultValue
       | Some current => current
       end.

(** The first element if the value is an array, otherwise the value. *)
Definition normalizeValue (v : value) : value :=
  match v with
  | VArr [] => VNull
  | VArr (x :: _) => x
  | _ => v
  end.

Definition getNestedString (obj : value) (path : string) : value :=
  normalizeValue (getNestedValue obj path VNull).

(** [value !== null && value !== undefined && value !== ''] *)
Definition present (v : value) : bool :=
  match v with
  | VNull | VUndefined => false
  | VStr s => negb (s =? "")
  | _ => true
  end.

(** Try multiple paths and return the first non-null value. *)
Fixpoint getFirstValue (obj : value) (paths : list string)
  (defaultValue : value) : value :=
  match paths with
  | [] => defaultValue
  | path :: rest =>
      let v := getNestedValue obj path VNull in
      if present v then v else getFirstValue obj rest defaultValue
  end.

Definition getFirstString (obj : value) (paths : list string) : value :=
  normalizeValue (getFirstValue obj paths VNull).

(** ** Host identity *)

Record HostIdentity : Type := mkHost {
  hostname : value;
  ip : value;
  displayName : value
}.

Definition hostnamePaths : list string :=
  ["host.hostname"; "host.name"; "agent.name";
   "observer.hostname"; "observer.name"].

Definition ipPaths : list string := ["host.ip"; "observer.ip"].

Definition extractHostIdentifier (event : value) : HostIdentity :=
  let hostname := getFirstString event hostnamePaths in
  let ip := getFirstString event ipPaths in
  if truthy hostname || truthy ip then
    mkHost (orv hostname (orv ip (VStr "Unknown")))
           (orv ip VNull)
           (orv hostname (orv ip (VStr "Unknown")))
  else
    let sourceIp := getNestedString event "source.ip" in
    if truthy sourceIp then mkHost sourceIp sourceIp sourceIp
    else
      let destIp := getNestedString event "destination.ip" in
      if truthy destIp then mkHost destIp destIp destIp
      else mkHost (VStr "Unknown") VNull (VStr "Unknown").

(** ** Category *)

Definition categoryMap : list (string * string) :=
  [("network", "network");
   ("file", "file");
   ("process", "process");
   ("authentication", "authentication");
   ("session", "authentication");
   ("registry", "registry");
   ("iam", "authentication");
   ("intrusion_detection", "network");
   ("malware", "process");
   ("package", "file");
   ("web", "network");
   ("database", "network")].

(** [categoryMap] is an object literal, so [categoryMap[key]] also finds what
    it inherits from [Object.prototype]: functions, and for [__proto__] the
    prototype itself; every one of them is truthy. *)
Definition objectPrototypeMembers : list string :=
  ["constructor"; "__defineGetter__"; "__defineSetter__"; "hasOwnProperty";
   "__lookupGetter__"; "__lookupSetter__"; "isPrototypeOf";
   "propertyIsEnumerable"; "toString"; "valueOf"; "__proto__";
   "toLocaleString"].

(** What [extractCategory] returns: a string, or the built-in that
    [Object.prototype] holds under [member]. *)
Inductive categoryValue : Type :=
| Category (name : string)
| Builtin (member : string).

Definition extractCategory (event : value) : result categoryValue :=
  let category := getFirstValue event ["event.category"; "event.type"] VNull in
  let categoryValue := firstIfArray category in
  key <- toStr categoryValue ;;
  Ok (match lookup key categoryMap with
      | Some name => Category name
      | None =>
          if existsb (String.eqb key) objectPrototypeMembers
          then Builtin key
          else Category "other"
      end).

(** ** Connection extraction *)

Record ConnectionInfo : Type := mkConnection {
  sourceIp : value;
  sourcePort : value;
  sourceHostname : value;
  sourceBytes : value;
  sourcePackets : value;
  destIp : value;
  destPort : value;
  destHostname : value;
  destBytes : value;
  destPackets : value;
  protocol : value;
  direction : value;
  communityId : value;
  networkType : value;
  networkBytes : value
}.

Definition orb_lazy (a : bool) (k : result bool) : result bool :=
  if a then Ok true else k.

Definition extractConnectionInfo (event : value)
  : result (option ConnectionInfo) :=
  let sourceIp := getNestedString event "source.ip" in
  let destIp := getNestedString event "destination.ip" in
  if negb (truthy sourceIp) || negb (truthy destIp) then Ok None
  else
    skip <- orb_lazy (strictEq sourceIp destIp)
           (orb_lazy (strictEq sourceIp (VStr "127.0.0.1"))
           (orb_lazy (strictEq destIp (VStr "127.0.0.1"))
           (s <- startsWith sourceIp "::1" ;;
            orb_lazy s (startsWith destIp "::1")))) ;;
    if skip then Ok None
    else Ok (Some
      {| sourceIp := sourceIp;
         sourcePort := getNestedString event "source.port";
         sourceHostname := getNestedString event "source.domain";
         sourceBytes := getNestedValue event "source.bytes" VNull;
         sourcePackets := getNestedValue event "source.packets" VNull;
         destIp := destIp;
         destPort := getNestedString event "destination.port";
         destHostname := getNestedString event "destination.domain";
         destBytes := getNestedValue event "destination.bytes" VNull;
         destPackets := getNestedValue event "destination.packets" VNull;
         protocol :=
           getFirstValue event ["network.transport"; "network.protocol"] VNull;
         direction := getNestedValue event "network.direction" VNull;
         communityId := getNestedValue event "network.community_id" VNull;
         networkType := getNestedValue event "network.type" VNull;
         networkBytes := getNestedValue event "network.bytes" VNull |}).

(** ** Summary *)

Definition extractSummary (event : value) : result value :=
  let action := getFirstValue event ["event.action"; "event.type"] VNull in
  let actionStr := firstIfArray action in
  let processName := getNestedString event "process.name" in
  let fileName := getNestedString event "file.name" in
  let userName := getNestedString event "user.name" in
  let destIp := getNestedString event "destination.ip" in
  let destPort := getNestedString event "destination.port" in
  let dnsQuery := getNestedString event "dns.question.name" in
  let urlDomain := getNestedString event "url.domain" in
  let summary := orv actionStr (VStr "Event") in
  summary <-
    (if truthy processName then
       p <- toStr processName ;; appendStr summary (" [" ++ p ++ "]")
     else Ok summary) ;;
  summary <-
    (if truthy fileName then
       f <- toStr fileName ;; appendStr summary (" " ++ f)
     else Ok summary) ;;
  summary <-
    (if truthy destIp && truthy destPort then
       d <- toStr destIp ;; p <- toStr destPort ;;
       appendStr summary (" -> " ++ d ++ ":" ++ p)
     else if truthy destIp then
       d <- toStr destIp ;; appendStr summary (" -> " ++ d)
     else Ok summary) ;;
  summary <-
    (if truthy dnsQuery then
       q <- toStr dnsQuery ;; appendStr summary (" (" ++ q ++ ")")
     else Ok summary) ;;
  summary <-
    (if truthy urlDomain && negb (truthy dnsQuery) then
       u <- toStr urlDomain ;; appendStr summary (" (" ++ u ++ ")")
     else Ok summary) ;;
  byUser <-
    (if truthy userName then
       upper <- toUpperCase userName ;; Ok (negb (includes "SYSTEM" upper))
     else Ok false) ;;
  if byUser then
    u <- toStr userName ;; appendStr summary (" by " ++ u)
  else Ok summary.

(** ** Details

    [extractDetails] fills one section after the other, each a fixed list of
    fields read with [getNestedValue]; the sections [event] and [host] are
    always there, any other only when one of its presence fields is truthy.
    The table lists, per section, the presence fields ([None] for a section
    without a test) and the fields with their paths, in source order. *)

Definition detailSections
  : list (string * option (list string) * list (string * string)) :=
  [("event", None,
     [("action", "event.action");
      ("category", "event.category");
      ("type", "event.type");
      ("outcome", "event.outcome");
      ("reason", "event.reason");
      ("code", "event.code");
      ("provider", "event.provider");
      ("dataset", "event.dataset");
      ("module", "event.module");
      ("kind", "event.kind");
      ("severity", "event.severity");
      ("riskScore", "event.risk_score")]);
   ("host", None,
     [("hostname", "host.hostname");
      ("name", "host.name");
      ("id", "host.id");
      ("ip", "host.ip");
      ("mac", "host.mac");
      ("os", "host.os.name");
      ("osVersion", "host.os.version");
      ("osFamily", "host.os.family");
      ("osPlatform", "host.os.platform");
      ("architecture", "host.architecture")]);
   ("network", Some ["source.ip"; "destination.ip"],
     [("sourceIp", "source.ip");
      ("sourcePort", "source.port");
      ("sourceDomain", "source.domain");
      ("sourceBytes", "source.bytes");
      ("sourcePackets", "source.packets");
      ("sourceGeoCountry", "source.geo.country_name");
      ("sourceGeoCity", "source.geo.city_name");
      ("destIp", "destination.ip");
      ("destPort", "destination.port");
      ("destDomain", "destination.domain");
      ("destBytes", "destination.bytes");
      ("destPackets", "destination.packets");
      ("destGeoCountry", "destination.geo.country_name");
      ("destGeoCity", "destination.geo.city_name");
      ("protocol", "network.protocol");
      ("transport", "network.transport");
      ("type", "network.type");
      ("direction", "network.direction");
      ("communityId", "network.community_id");
      ("bytes", "network.bytes");
      ("packets", "network.packets");
      ("application", "network.application")]);
   ("process", Some ["process.name"; "process.pid"],
     [("name", "process.name");
      ("pid", "process.pid");
      ("executable", "process.executable");
      ("commandLine", "process.command_line");
      ("args", "process.args");
      ("workingDirectory", "process.working_directory");
      ("entityId", "process.entity_id");
      ("exitCode", "process.exit_code");
      ("parentName", "process.parent.name");
      ("parentPid", "process.parent.pid");
      ("parentExecutable", "process.parent.executable");
      ("parentCommandLine", "process.parent.command_line");
      ("hashMd5", "process.hash.md5");
      ("hashSha1", "process.hash.sha1");
      ("hashSha256", "process.hash.sha256")]);
   ("file", Some ["file.path"; "file.name"],
     [("path", "file.path");
      ("name", "file.name");
      ("directory", "file.directory");
      ("extension", "file.extension");
      ("mimeType", "file.mime_type");
      ("size", "file.size");
      ("targetPath", "file.target_path");
      ("type", "file.type");
      ("hashMd5", "file.hash.md5");
      ("hashSha1", "file.hash.sha1");
      ("hashSha256", "file.hash.sha256")]);
   ("user", Some ["user.name"; "user.id"],
     [("name", "user.name");
      ("fullName", "user.full_name");
      ("domain", "user.domain");
      ("id", "user.id");
      ("email", "user.email");
      ("roles", "user.roles");
      ("targetName", "user.target.name");
      ("targetDomain", "user.target.domain");
      ("effectiveName", "user.effective.name")]);
   ("dns", Some ["dns.question.name"],
     [("questionName", "dns.question.name");
      ("questionType", "dns.question.type");
      ("questionClass", "dns.question.class");
      ("responseCode", "dns.response_code");
      ("resolvedIp", "dns.resolved_ip");
      ("answers", "dns.answers")]);
   ("url", Some ["url.full"; "url.domain"],
     [("full", "url.full");
      ("domain", "url.domain");
      ("path", "url.path");
      ("query", "url.query");
      ("scheme", "url.scheme");
      ("port", "url.port")]);
   ("http", Some ["http.request.method"; "http.response.status_code"],
     [("method", "http.request.method");
      ("statusCode", "http.response.status_code");
      ("requestBodyContent", "http.request.body.content");
      ("responseBodyContent", "http.response.body.content");
      ("userAgent", "user_agent.original")]);
   ("registry", Some ["registry.path"; "registry.key"],
     [("path", "registry.path");
      ("key", "registry.key");
      ("value", "registry.value");
      ("dataStrings", "registry.data.strings");
      ("dataType", "registry.data.type");
      ("hive", "registry.hive")]);
   ("threat", Some ["threat.indicator"; "threat.technique.name"],
     [("framework", "threat.framework");
      ("tacticName", "threat.tactic.name");
      ("tacticId", "threat.tactic.id");
      ("techniqueName", "threat.technique.name");
      ("techniqueId", "threat.technique.id");
      ("indicator", "threat.indicator")]);
   ("observer", Some ["observer.name"; "observer.type"],
     [("name", "observer.name");
      ("hostname", "observer.hostname");
      ("ip", "observer.ip");
      ("type", "observer.type");
      ("vendor", "observer.vendor");
      ("product", "observer.product");
      ("version", "observer.version")]);
   ("rule", Some ["rule.name"; "rule.id"],
     [("name", "rule.name");
      ("id", "rule.id");
      ("category", "rule.category");
      ("description", "rule.description");
      ("ruleset", "rule.ruleset");
      ("reference", "rule.reference")])
].

Definition sectionPresent (event : value) (presence : option (list string))
  : bool :=
  match presence with
  | None => true
  | Some paths =>
      existsb (fun path => truthy (getNestedValue event path VNull)) paths
  end.

Definition extractDetails (event : value) : value :=
  VObj
    (map (fun section =>
            (fst (fst section),
             VObj (map (fun field =>
                          (fst field, getNestedValue event (snd field) VNull))
                       (snd section))))
         (filter (fun section => sectionPresent event (snd (fst section)))
                 detailSections)).

(** ** A reader of UTC date-times

    [isoDate] reads the text form [YYYY-MM-DDTHH:mm:ss.sssZ] and nothing
    else.  It stands for [Date.parse] where an example has to be run. *)

Definition digitAt (s : string) (i : nat) : option Z :=
  match String.get i s with
  | Some a =>
      let n := nat_of_ascii a in
      if (48 <=? n)%nat && (n <=? 57)%nat then Some (Z.of_nat (n - 48))
      else None
  | None => None
  end.

Fixpoint numberAt (s : string) (i len : nat) (acc : Z) : option Z :=
  match len with
  | O => Some acc
  | S len' =>
      match digitAt s i with
      | Some d => numberAt s (S i) len' (10 * acc + d)%Z
      | None => None
      end
  end.

Definition charAt (s : string) (i : nat) (c : ascii) : bool :=
  match String.get i s with
  | Some a => Ascii.eqb a c
  | None => false
  end.

Definition leapYear (y : Z) : bool :=
  ((y mod 4 =? 0) && negb (y mod 100 =? 0) || (y mod 400 =? 0))%Z.

Definition daysInMonth (y m : Z) : Z :=
  if (m =? 2)%Z then (if leapYear y then 29 else 28)%Z
  else if ((m =? 4) || (m =? 6) || (m =? 9) || (m =? 11))%Z then 30%Z
  else 31%Z.

(** Days between 1970-01-01 and the civil date [y-m-d]. *)
Definition daysFromCivil (y m d : Z) : Z :=
  let y' := if (m <=? 2)%Z then (y - 1)%Z else y in
  let era := (y' / 400)%Z in
  let yoe := (y' - era * 400)%Z in
  let mp := ((m + 9) mod 12)%Z in
  let doy := ((153 * mp + 2) / 5 + d - 1)%Z in
  let doe := (yoe * 365 + yoe / 4 - yoe / 100 + doy)%Z in
  (era * 146097 + doe - 719468)%Z.

Definition isoDate (s : string) : option Z :=
  if (String.length s =? 24)%nat
     && charAt s 4 "-" && charAt s 7 "-" && charAt s 10 "T"
     && charAt s 13 ":" && charAt s 16 ":" && charAt s 19 "."
     && charAt s 23 "Z"
  then
    match numberAt s 0 4 0, numberAt s 5 2 0, numberAt s 8 2 0,
          numberAt s 11 2 0, numberAt s 14 2 0, numberAt s 17 2 0,
          numberAt s 20 3 0 with
    | Some y, Some m, Some d, Some h, Some mi, Some sec, Some ms =>
        if ((1 <=? m) && (m <=? 12) && (1 <=? d) && (d <=? daysInMonth y m)
            && (h <=? 23) && (mi <=? 59) && (sec <=? 59))%Z
        then Some (((daysFromCivil y m d * 24 + h) * 60 + mi) * 60000
                   + sec * 1000 + ms)%Z
        else None
    | _, _, _, _, _, _, _ => None
    end
  else None.

(** ** Canonical events

    The fields of the object that [parseEvent] returns, under the prefix
    [ev_]. *)

Record CanonicalEvent : Type := mkEvent {
  ev_id : value;
  ev_timestamp : Z;
  ev_host : HostIdentity;
  ev_category : categoryValue;
  ev_connection : option ConnectionInfo;
  ev_summary : value;
  ev_details : value;
  ev_raw : value
}.

(** [array.map((x, index) => f(x, index))], stopping at the first throw. *)
Fixpoint mapIndexed {A B : Type} (f : A -> nat -> result B) (l : list A)
  (index : nat) : result (list B) :=
  match l with
  | [] => Ok []
  | x :: rest =>
      y <- f x index ;;
      ys <- mapIndexed f rest (S index) ;;
      Ok (y :: ys)
  end.

(** [.filter(Boolean)] on an array of objects and [null]s. *)
Fixpoint filterBoolean {A : Type} (l : list (option A)) : list A :=
  match l with
  | [] => []
  | Some x :: rest => x :: filterBoolean rest
  | None :: rest => filterBoolean rest
  end.

(** ASCII white space, as [trim] and the pattern [\s] see it. *)
Definition is_space (a : ascii) : bool :=
  let n := nat_of_ascii a in
  ((9 <=? n) && (n <=? 13) || (n =? 32))%nat.

Fixpoint trimStart (s : string) : string :=
  match s with
  | EmptyString => EmptyString
  | String a rest => if is_space a then trimStart rest else s
  end.

Fixpoint trimEnd (s : string) : string :=
  match s with
  | EmptyString => EmptyString
  | String a rest =>
      match trimEnd rest with
      | EmptyString => if is_space a then EmptyString else String a EmptyString
      | rest' => String a rest'
      end
  end.

Definition trim (s : string) : string := trimEnd (trimStart s).

(** [/}\s*\n\s*\{/.test(s)]: after some [}], a run of white space that holds
    a line feed, then [{]. *)
Fixpoint afterSpaces (sawNewline : bool) (s : string) : bool * string :=
  match s with
  | EmptyString => (sawNewline, EmptyString)
  | String a rest =>
      if is_space a
      then afterSpaces (sawNewline || Ascii.eqb a "010") rest
      else (sawNewline, s)
  end.

Fixpoint bracesAcrossLines (s : string) : bool :=
  match s with
  | EmptyString => false
  | String a rest =>
      (Ascii.eqb a "}"
       && fst (afterSpaces false rest)
       && prefix "{" (snd (afterSpaces false rest)))
      || bracesAcrossLines rest
  end.

(** [/}\s*\{/.test(s)]. *)
Fixpoint bracesBackToBack (s : string) : bool :=
  match s with
  | EmptyString => false
  | String a rest =>
      (Ascii.eqb a "}" && prefix "{" (snd (afterSpaces false rest)))
      || bracesBackToBack rest
  end.

(** ** Host registry and connection edges: data

    A registry entry, the registry with its two maps in insertion order, and
    the object that [identifyConnections] pushes.  Where two records have a
    field of one name, the later one carries a prefix. *)

Record HostEntry : Type := mkEntry {
  entryHostname : value;
  ips : list value;
  entryDisplayName : value
}.

Record HostRegistry : Type := mkRegistry {
  hosts : list (string * HostEntry);
  ipToHost : list (value * string)
}.

Record ConnectionEdge : Type := mkEdge {
  eventId : value;
  edgeTimestamp : Z;
  sourceHost : value;
  edgeSourceIp : value;
  edgeSourcePort : value;
  destHost : value;
  edgeDestIp : value;
  edgeDestPort : value;
  edgeProtocol : value;
  edgeDirection : value;
  edgeCommunityId : value
}.

(** [Set.prototype.add]: insertion order, no second copy. *)
Definition setAdd (x : value) (s : list value) : list value :=
  if existsb (strictEq x) s then s else (s ++ [x])%list.

(** [Map.prototype.get] and [set] on a map keyed by values: a key that is
    already there keeps its place. *)
Fixpoint mapGet {A : Type} (k : value) (m : list (value * A)) : option A :=
  match m with
  | [] => None
  | (k', v) :: rest => if strictEq k' k then Some v else mapGet k rest
  end.

Fixpoint mapSet {A : Type} (k : value) (v : A) (m : list (value * A))
  : list (value * A) :=
  match m with
  | [] => [(k, v)]
  | (k', v') :: rest =>
      if strictEq k' k then (k', v) :: rest else (k', v') :: mapSet k v rest
  end.

(** [if (!registry.has(key)) registry.set(key, {hostname, ips: new Set(),
    displayName})] *)
Definition ensureHost (key : string) (name display : value)
  (registry : list (string * HostEntry)) : list (string * HostEntry) :=
  if hasOwn key registry then registry
  else (registry ++ [(key, mkEntry name [] display)])%list.

(** [registry.get(key).ips.add(address)] *)
Fixpoint addIp (key : string) (address : value)
  (registry : list (string * HostEntry)) : list (string * HostEntry) :=
  match registry with
  | [] => []
  | (k, e) :: rest =>
      if k =? key
      then (k, mkEntry (entryHostname e) (setAdd address (ips e))
                       (entryDisplayName e)) :: rest
      else (k, e) :: addIp key address rest
  end.

(** [array.forEach] with the state it updates, stopping at the first throw. *)
Fixpoint forEach {A S : Type} (f : A -> S -> result S) (l : list A) (s : S)
  : result S :=
  match l with
  | [] => Ok s
  | x :: rest => s' <- f x s ;; forEach f rest s'
  end.

(** The body of the first pass of [buildHostRegistry]. *)
Definition collectHost (event : CanonicalEvent)
  (registry : list (string * HostEntry)) : result (list (string * HostEntry)) :=
  registry <-
    (if negb (strictEq (hostname (ev_host event)) (VStr "Unknown")) then
       key <- toLowerCase (hostname (ev_host event)) ;;
       let registry :=
         ensureHost key (hostname (ev_host event))
                    (displayName (ev_host event)) registry in
       Ok (if truthy (ip (ev_host event))
           then addIp key (ip (ev_host event)) registry
           else registry)
     else Ok registry) ;;
  match ev_connection event with
  | None => Ok registry
  | Some connection =>
      registry <-
        (if truthy (sourceHostname connection) then
           sourceKey <- toLowerCase (sourceHostname connection) ;;
           Ok (addIp sourceKey (sourceIp connection)
                 (ensureHost sourceKey (sourceHostname connection)
                    (sourceHostname connection) registry))
         else Ok registry) ;;
      if truthy (destHostname connection) then
        destKey <- toLowerCase (destHostname connection) ;;
        Ok (addIp destKey (destIp connection)
              (ensureHost destKey (destHostname connection)
                 (destHostname connection) registry))
      else Ok registry
  end.

(** The second pass: every address of every host, in insertion order. *)
Definition indexIps (registry : list (string * HostEntry))
  : list (value * string) :=
  fold_left
    (fun ipToHost entry =>
       fold_left (fun ipToHost address => mapSet address (fst entry) ipToHost)
                 (ips (snd entry)) ipToHost)
    registry [].

Definition buildHostRegistry (events : list CanonicalEvent)
  : result HostRegistry :=
  registry <- forEach collectHost events [] ;;
  Ok (mkRegistry registry (indexIps registry)).

(** Resolve an IP to a hostname. *)
Definition resolveIp (registry : HostRegistry) (address : value) : value :=
  match mapGet address (ipToHost registry) with
  | Some hostKey =>
      if negb (hostKey =? "") && hasOwn hostKey (hosts registry) then
        match lookup hostKey (hosts registry) with
        | Some entry => entryHostname entry
        | None => address
        end
      else address
  | None => address
  end.

Definition getHostList (registry : HostRegistry) : list HostEntry :=
  map snd (hosts registry).

(** The body of the loop of [identifyConnections]: the edge an event
    contributes, if any. *)
Definition edgeOf (hostRegistry : HostRegistry) (event : CanonicalEvent)
  : result (option ConnectionEdge) :=
  match ev_connection event with
  | None => Ok None
  | Some conn =>
      let sourceHost := resolveIp hostRegistry (sourceIp conn) in
      let destHost := resolveIp hostRegistry (destIp conn) in
      s <- toLowerCase sourceHost ;;
      d <- toLowerCase destHost ;;
      if s =? d then Ok None
      else Ok (Some
        {| eventId := ev_id event;
           edgeTimestamp := ev_timestamp event;
           sourceHost := sourceHost;
           edgeSourceIp := sourceIp conn;
           edgeSourcePort := sourcePort conn;
           destHost := destHost;
           edgeDestIp := destIp conn;
           edgeDestPort := destPort conn;
           edgeProtocol := protocol conn;
           edgeDirection := direction conn;
           edgeCommunityId := communityId conn |})
  end.

Definition identifyConnections (events : list CanonicalEvent)
  (hostRegistry : HostRegistry) : result (list ConnectionEdge) :=
  forEach
    (fun event connections =>
       edge <- edgeOf hostRegistry event ;;
       Ok (match edge with
           | Some e => (connections ++ [e])%list
           | None => connections
           end))
    events [].

(** ** Timestamps, identifiers and the ingestion loop *)

Section Parser.

(** [Date.parse]: the time value of a text, [None] for an invalid date. *)
Variable parseDate : string -> option Z.

(** [JSON.parse]: [None] when it throws a [SyntaxError]. *)
Variable JSON_parse : string -> option value.

Definition timestampPaths : list string :=
  ["@timestamp"; "event.created"; "event.ingested"; "event.start";
   "event.end"].

(** [new Date(v)], then [isNaN(date.getTime()) ? null : date]. *)
Definition toDate (v : value) : result (option Z) :=
  match v with
  | VUndefined => Ok None
  | VNull => Ok (Some 0%Z)
  | VBool b => Ok (Some (if b then 1%Z else 0%Z))
  | VNum n => Ok (timeClip n)
  | VStr s => Ok (parseDate s)
  | VArr _ | VObj _ => s <- toStr v ;; Ok (parseDate s)
  end.

Definition parseTimestamp (event : value) : result (option Z) :=
  let tsValue := getFirstValue event timestampPaths VNull in
  if truthy tsValue then toDate tsValue else Ok None.

Definition generateEventId (now : Z) (event : value) (timestamp : option Z)
  (index : nat) : result value :=
  let eventId := getNestedValue event "event.id" VNull in
  if truthy eventId then Ok eventId
  else
    let host :=
      orv (getFirstString event ["host.hostname"; "host.name"; "host.ip"])
          (VStr "unknown") in
    let ts := match timestamp with Some t => t | None => now end in
    h <- toStr host ;;
    Ok (VStr (numToString ts ++ "-" ++ h ++ "-" ++ natToString index)).

Definition parseEvent (now : Z) (rawEvent : value) (index : nat)
  : result (option CanonicalEvent) :=
  match rawEvent with
  | VNull | VUndefined => Throw TypeError
  | _ =>
      let esId := orv (getProp rawEvent "_id") VNull in
      let event := orv (getProp rawEvent "_source") rawEvent in
      timestamp <- parseTimestamp event ;;
      match timestamp with
      | None => Ok None
      | Some t =>
          let hostInfo := extractHostIdentifier event in
          category <- extractCategory event ;;
          connection <- extractConnectionInfo event ;;
          summary <- extractSummary event ;;
          let details := extractDetails event in
          eventId <-
            (if truthy esId then Ok esId
             else generateEventId now event (Some t) index) ;;
          Ok (Some
            {| ev_id := eventId;
               ev_timestamp := t;
               ev_host := hostInfo;
               ev_category := category;
               ev_connection := connection;
               ev_summary := summary;
               ev_details := details;
               ev_raw := event |})
      end
  end.

(** The records that [parseEvents] reads out of its input. *)
Definition rawEventsOf (input : value) : result (list value) :=
  match input with
  | VStr text =>
      let trimmed := trim text in
      if prefix "[" trimmed then
        match JSON_parse trimmed with
        | Some (VArr items) => Ok items
        | Some _ => Throw TypeError
        | None => Throw JsonArrayError
        end
      else if prefix "{" trimmed then
        match JSON_parse trimmed with
        | Some v => Ok [v]
        | None =>
            let lines :=
              filter (fun line => negb (trim line =? ""))
                     (split "010" trimmed) in
            let rawEvents :=
              filter truthy
                (map (fun line =>
                        match JSON_parse line with
                        | Some v => v
                        | None => VNull
                        end) lines) in
            match rawEvents with
            | [] =>
                if bracesAcrossLines trimmed || bracesBackToBack trimmed
                then Throw MultipleObjectsError
                else Throw JsonError
            | _ :: _ => Ok rawEvents
            end
        end
      else Throw NotJsonError
  | VArr items => Ok items
  | VObj _ | VNull => Ok [input]
  | VUndefined | VBool _ | VNum _ => Throw InvalidInputType
  end.

Definition parseEvents (now : Z) (input : value)
  : result (list CanonicalEvent) :=
  rawEvents <- rawEventsOf input ;;
  parsed <- mapIndexed (parseEvent now) rawEvents 0 ;;
  Ok (filterBoolean parsed).

End Parser.

(** ** The vocabulary of the design document *)

(** The payload of a raw record: what is under [_source] in a source-store
    envelope, the record itself otherwise. *)
Definition payloadOf (rawEvent : value) : value :=
  orv (getProp rawEvent "_source") rawEvent.

(** The outer envelope identifier and the explicit event identifier. *)
Definition envelopeId (rawEvent : value) : value := getProp rawEvent "_id".

Definition explicitId (rawEvent : value) : value :=
  getNestedValue (payloadOf rawEvent) "event.id" VNull.

(** The values found under a list of paths, and the first of them that is
    neither absent nor the empty string. *)
Definition candidates (event : value) (paths : list string) : list value :=
  map (fun path => getNestedValue event path VNull) paths.

Definition firstNonEmpty (event : value) (paths : list string) : option value :=
  find present (candidates event paths).

(** The timestamp fields as the design document lists them: the primary one
    and three fallbacks. *)
Definition documentedTimestampPaths : list string :=
  ["@timestamp"; "event.created"; "event.ingested"; "event.start"].

(** The closed set of categories. *)
Definition closedCategories : list string :=
  ["network"; "file"; "process"; "authentication"; "registry"; "other"].

Definition inClosedSet (c : categoryValue) : Prop :=
  match c with
  | Category name => In name closedCategories
  | Builtin _ => False
  end.

(** An address as a flow record carries it: a string. *)
Definition isString (v : value) : Prop :=
  match v with
  | VStr _ => True
  | _ => False
  end.

(** Absent, for a field read through [getNestedString]. *)
Definition absent (v : value) : Prop :=
  v = VNull \/ v = VUndefined \/ v = VStr "".

(** Two resolved hostnames that are the same name up to case. *)
Definition sameHost (a b : value) : Prop :=
  exists s d, a = VStr s /\ b = VStr d /\ lowerString s = lowerString d.

(** The edge that the design document describes for an event: none without
    a ConnectionInfo, none when both ends resolve to one hostname up to
    case, otherwise one edge with the resolved names. *)
Definition describedEdges (registry : HostRegistry) (event : CanonicalEvent)
  : list ConnectionEdge :=
  match ev_connection event with
  | None => []
  | Some conn =>
      match resolveIp registry (sourceIp conn),
            resolveIp registry (destIp conn) with
      | VStr s, VStr d =>
          if lowerString s =? lowerString d then []
          else [mkEdge (ev_id event) (ev_timestamp event)
                  (VStr s) (sourceIp conn) (sourcePort conn)
                  (VStr d) (destIp conn) (destPort conn)
                  (protocol conn) (direction conn) (communityId conn)]
      | _, _ => []
      end
  end.

(** Events whose flow addresses are strings, as [extractConnectionInfo]
    leaves them. *)
Definition flowAddressesAreStrings (event : CanonicalEvent) : Prop :=
  match ev_connection event with
  | None => True
  | Some conn => isString (sourceIp conn) /\ isString (destIp conn)
  end.

(** A raw record gets a synthesized identifier when it has neither an
    envelope identifier nor an explicit one. *)
Definition synthesized (rawEvent : value) : Prop :=
  truthy (envelopeId rawEvent) = false /\ truthy (explicitId rawEvent) = false.

(** The hostnames of a registry are strings. *)
Definition namesAreStrings (registry : list (string * HostEntry)) : Prop :=
  Forall (fun entry => isString (entryHostname (snd entry))) registry.

(** A text that holds a dash. *)
Fixpoint hasDash (s : string) : bool :=
  match s with
  | EmptyString => false
  | String a rest => Ascii.eqb a "-" || hasDash rest
  end.

(** ** Sample records *)

(** A [JSON.parse] for the examples, which pass decoded arrays and never
    reach it. *)
Definition noJson (text : string) : option value := None.

Definition sampleTime : string := "2024-01-15T10:30:00.000Z".

Definition categoryConstructor : value :=
  VObj [("@timestamp", VStr sampleTime);
        ("event", VObj [("category", VStr "constructor")])].

Definition envelopeWithEventId : value :=
  VObj [("_id", VStr "abc123");
        ("_source",
         VObj [("@timestamp", VStr sampleTime);
               ("event", VObj [("id", VStr "evt-1")])])].

Definition onlyEventEnd : value :=
  VObj [("event", VObj [("end", VStr sampleTime)])].

Definition laterCandidateValid : value :=
  VObj [("@timestamp", VStr "invalid-date");
        ("event", VObj [("created", VStr sampleTime)])].

Definition firewallFlow : value :=
  VObj [("@timestamp", VStr sampleTime);
        ("host", VObj [("hostname", VStr "firewall")]);
        ("source", VObj [("ip", VStr "192.168.1.100"); ("port", VNum 54321)]);
        ("destination", VObj [("ip", VStr "10.0.0.50"); ("port", VNum 443)]);
        ("network",
         VObj [("transport", VStr "tcp"); ("direction", VStr "outbound")])].

Definition clientRecord : value :=
  VObj [("@timestamp", VStr sampleTime);
        ("host",
         VObj [("hostname", VStr "client"); ("ip", VStr "192.168.1.100")]);
        ("source", VObj [("ip", VStr "192.168.1.100"); ("port", VNum 54321)]);
        ("destination",
         VObj [("ip", VStr "192.168.1.200"); ("port", VNum 443)])].

Definition serverRecord : value :=
  VObj [("@timestamp", VStr "2024-01-15T10:31:00.000Z");
        ("host",
         VObj [("hostname", VStr "server"); ("ip", VStr "192.168.1.200")])].

Definition sameEnvelopeTwice : list value :=
  [VObj [("_id", VStr "abc123");
         ("_source", VObj [("@timestamp", VStr sampleTime)])];
   VObj [("_id", VStr "abc123");
         ("_source", VObj [("@timestamp", VStr "2024-01-15T10:31:00.000Z")])]].

Definition emptyHostIp : value :=
  VObj [("@timestamp", VStr sampleTime);
        ("host", VObj [("hostname", VStr "sensor"); ("ip", VArr [])]);
        ("observer", VObj [("ip", VStr "10.0.0.1")])].

Definition epochRecord : value :=
  VObj [("@timestamp", VNum 0);
        ("event", VObj [("created", VStr sampleTime)])].

(** The two events of the cross-host scenario: a client at 192.168.1.100
    with a flow to 192.168.1.200 that names no domain, and a server at
    192.168.1.200 without a flow.  Every other field is taken from [other]
    and [flow]. *)
Definition clientFlow (flow : ConnectionInfo) : ConnectionInfo :=
  {| sourceIp := VStr "192.168.1.100";
     sourcePort := sourcePort flow;
     sourceHostname := VNull;
     sourceBytes := sourceBytes flow;
     sourcePackets := sourcePackets flow;
     destIp := VStr "192.168.1.200";
     destPort := destPort flow;
     destHostname := VNull;
     destBytes := destBytes flow;
     destPackets := destPackets flow;
     protocol := protocol flow;
     direction := direction flow;
     communityId := communityId flow;
     networkType := networkType flow;
     networkBytes := networkBytes flow |}.

Definition clientEvent (other : CanonicalEvent) (flow : ConnectionInfo)
  : CanonicalEvent :=
  {| ev_id := ev_id other;
     ev_timestamp := ev_timestamp other;
     ev_host := mkHost (VStr "client") (VStr "192.168.1.100")
                       (displayName (ev_host other));
     ev_category := ev_category other;
     ev_connection := Some (clientFlow flow);
     ev_summary := ev_summary other;
     ev_details := ev_details other;
     ev_raw := ev_raw other |}.

Definition serverEvent (other : CanonicalEvent) : CanonicalEvent :=
  {| ev_id := ev_id other;
     ev_timestamp := ev_timestamp other;
     ev_host := mkHost (VStr "server") (VStr "192.168.1.200")
                       (displayName (ev_host other));
     ev_category := ev_category other;
     ev_connection := None;
     ev_summary := ev_summary other;
     ev_details := ev_details other;
     ev_raw := ev_raw other |}.

(** What [parseEvents] returns for the two raw records of that scenario. *)
Definition sampleEvents : list CanonicalEvent :=
  match parseEvents isoDate noJson 0 (VArr [clientRecord; serverRecord]) with
  | Ok events => events
  | Throw _ => []
  end.

(** The records of the repository's unit tests. *)
Definition hostOnly (time name : string) : value :=
  VObj [("@timestamp", VStr time); ("host", VObj [("hostname", VStr name)])].

Definition withCategory (name category : string) : value :=
  VObj [("@timestamp", VStr sampleTime);
        ("host", VObj [("hostname", VStr name)]);
        ("event", VObj [("category", VArr [VStr category])])].

Definition flowBetween (source dest : string) : value :=
  VObj [("@timestamp", VStr sampleTime);
        ("host", VObj [("hostname", VStr "server")]);
        ("source", VObj [("ip", VStr source); ("port", VNum 54321)]);
        ("destination", VObj [("ip", VStr dest); ("port", VNum 8080)])].

Definition hostWithIp (time name address : string) : value :=
  VObj [("@timestamp", VStr time);
        ("host", VObj [("hostname", VStr name); ("ip", VStr address)])].

(** A flow between two addresses of one host: the destination is named, in
    another case, like the host that reports the flow. *)
Definition intraHostFlow : value :=
  VObj [("@timestamp", VStr sampleTime);
        ("host", VObj [("hostname", VStr "Gateway"); ("ip", VStr "10.0.0.1")]);
        ("source", VObj [("ip", VStr "10.0.0.1")]);
        ("destination",
         VObj [("ip", VStr "10.0.0.2"); ("domain", VStr "gateway")])].

Definition parsed (records : list value) : list CanonicalEvent :=
  match parseEvents isoDate noJson 0 (VArr records) with
  | Ok events => events
  | Throw _ => []
  end.

(** Every path that the module reads. *)
Definition pathsRead : list string :=
  (hostnamePaths ++ ipPaths ++ timestampPaths
   ++ ["source.ip"; "destination.ip"; "event.category"; "event.type";
       "source.port"; "source.domain"; "source.bytes"; "source.packets";
       "destination.port"; "destination.domain"; "destination.bytes";
       "destination.packets"; "network.transport"; "network.protocol";
       "network.direction"; "network.community_id"; "network.type";
       "network.bytes"; "event.action"; "process.name"; "file.name";
       "user.name"; "dns.question.name"; "url.domain"; "event.id";
       "host.hostname"; "host.name"; "host.ip"]
   ++ flat_map (fun section =>
                  (match snd (fst section) with
                   | Some paths => paths
                   | None => []
                   end ++ map snd (snd section))%list)
               detailSections)%list.

(** ** Beyond the parser: its callers and the relay

    The application merges what [parseEvents] returns into its timeline
    ([handleEventsAdded], [parseAndRender]), sends raw records to the
    relay, exports them, and shows the details of an event; the relay keeps
    the shared list of raw records.  DOM updates and socket state are left
    out: a handler is a function from its state and its argument to its
    new state and the messages it sends. *)

(** A value that [===] and the keys of a [Set] compare by content. *)
Definition isPrimitive (v : value) : Prop :=
  match v with
  | VArr _ | VObj _ => False
  | _ => True
  end.

(** [s] is [l] with some elements left out. *)
Inductive subsequence {A : Type} : list A -> list A -> Prop :=
| subsequence_nil : subsequence [] []
| subsequence_skip (x : A) (s l : list A) :
    subsequence s l -> subsequence s (x :: l)
| subsequence_keep (x : A) (s l : list A) :
    subsequence s l -> subsequence (x :: s) (x :: l).

(** [Set.prototype.has] and [new Set(array)]. *)
Definition setHas (x : value) (s : list value) : bool :=
  existsb (strictEq x) s.

Definition setOf (l : list value) : list value :=
  fold_left (fun s x => setAdd x s) l [].

(** *** The application *)

(** [const existingIds = new Set(currentEvents.map(e => e.id));
     newParsed.filter(e => !existingIds.has(e.id))] *)
Definition uniqueAgainst (currentEvents newParsed : list CanonicalEvent)
  : list CanonicalEvent :=
  let existingIds := setOf (map ev_id currentEvents) in
  filter (fun e => negb (setHas (ev_id e) existingIds)) newParsed.

Record AppState : Type := mkApp {
  currentEvents : list CanonicalEvent;
  currentHostRegistry : option HostRegistry;
  currentConnections : list ConnectionEdge
}.

(** [handleEventsAdded(rawEvents)]: the assignments happen one after the
    other, so an exception leaves the ones already made. *)
Definition handleEventsAdded (parseDate : string -> option Z)
  (JSON_parse : string -> option value) (now : Z)
  (state : AppState) (rawEvents : list value) : AppState * result unit :=
  match rawEvents with
  | [] => (state, Ok tt)
  | _ :: _ =>
      match parseEvents parseDate JSON_parse now (VArr rawEvents) with
      | Throw e => (state, Throw e)
      | Ok newParsed =>
          match uniqueAgainst (currentEvents state) newParsed with
          | [] => (state, Ok tt)
          | uniqueNew =>
              let events := (currentEvents state ++ uniqueNew)%list in
              match buildHostRegistry events with
              | Throw e =>
                  (mkApp events (currentHostRegistry state)
                         (currentConnections state), Throw e)
              | Ok registry =>
                  match identifyConnections events registry with
                  | Throw e =>
                      (mkApp events (Some registry)
                             (currentConnections state), Throw e)
                  | Ok connections =>
                      (mkApp events (Some registry) connections, Ok tt)
                  end
              end
          end
      end
  end.

(** The own enumerable properties of a value, as [{...v}] copies them:
    the fields of an object, the elements of an array and the characters
    of a string under their indices, nothing for another value. *)
Fixpoint indexedFrom {A : Type} (f : A -> value) (l : list A) (index : nat)
  : list (string * value) :=
  match l with
  | [] => []
  | x :: rest => (natToString index, f x) :: indexedFrom f rest (S index)
  end.

Definition ownProperties (v : value) : list (string * value) :=
  match v with
  | VObj fields => fields
  | VArr items => indexedFrom (fun x => x) items 0
  | VStr s =>
      indexedFrom (fun c => VStr (String c EmptyString)) (list_ascii_of_string s) 0
  | _ => []
  end.

(** Defining a property on an object under construction: a key that is
    there keeps its place and takes the new value. *)
Fixpoint objectSet (key : string) (v : value) (fields : list (string * value))
  : list (string * value) :=
  match fields with
  | [] => [(key, v)]
  | (k, v') :: rest =>
      if k =? key then (k, v) :: rest else (k, v') :: objectSet key v rest
  end.

(** [{...target, ...source}] on the fields of [target]. *)
Definition assignProperties (target : list (string * value)) (source : value)
  : list (string * value) :=
  fold_left (fun fields property =>
               objectSet (fst property) (snd property) fields)
            (ownProperties source) target.

(** [({ _id: e.id, ...e.raw })]: the record that [parseAndRender] sends to
    the relay for an event. *)
Definition wireRecord (e : CanonicalEvent) : value :=
  VObj (assignProperties [("_id", ev_id e)] (ev_raw e)).

(** [hasValues(obj)] of the detail renderer:
    [Object.values(obj).some(v => v !== null && v !== undefined && v !== '')]. *)
Definition hasValues (obj : value) : result bool :=
  match obj with
  | VNull | VUndefined => Throw TypeError
  | _ => Ok (existsb present (map snd (ownProperties obj)))
  end.

(** [details[section.key] && hasValues(details[section.key])], the test
    under which [render] shows a section. *)
Definition sectionShown (details : value) (key : string) : result bool :=
  if truthy (getProp details key) then hasValues (getProp details key)
  else Ok false.

(** *** The relay *)

Record ServerState : Type := mkServer {
  timelineEvents : value;
  isDirty : bool
}.

(** Who a message goes to: the sender ([ws.send]), every other open client
    ([broadcast(message, ws)]) or every open client ([broadcastAll]). *)
Inductive recipient : Type :=
| ToSender
| ToOthers
| ToAll.

(** [e._id || e.id] *)
Definition eventKey (e : value) : result value :=
  match e with
  | VNull | VUndefined => Throw TypeError
  | _ => Ok (orv (getProp e "_id") (getProp e "id"))
  end.

(** [array.map(f)] and [array.filter(f)], stopping at the first throw. *)
Fixpoint mapM {A B : Type} (f : A -> result B) (l : list A) : result (list B) :=
  match l with
  | [] => Ok []
  | x :: rest => y <- f x ;; ys <- mapM f rest ;; Ok (y :: ys)
  end.

Fixpoint filterM {A : Type} (f : A -> result bool) (l : list A)
  : result (list A) :=
  match l with
  | [] => Ok []
  | x :: rest =>
      keep <- f x ;;
      kept <- filterM f rest ;;
      Ok (if keep then x :: kept else kept)
  end.

Definition confirmation (count duplicates : nat) : value :=
  VObj [("type", VStr "ADD_CONFIRMED");
        ("count", VNum (Z.of_nat count));
        ("duplicates", VNum (Z.of_nat duplicates))].

(** The case [ADD_EVENTS] of the message handler. *)
Definition addEvents (state : ServerState) (message : value)
  : result (ServerState * list (recipient * value)) :=
  match timelineEvents state with
  | VArr stored =>
      keys <- mapM eventKey stored ;;
      let existingIds := setOf keys in
      match getProp message "events" with
      | VArr events =>
          newEvents <-
            filterM (fun e =>
                       id <- eventKey e ;; Ok (negb (setHas id existingIds)))
                    events ;;
          match newEvents with
          | _ :: _ =>
              Ok (mkServer (VArr (stored ++ newEvents)%list) true,
                  [(ToOthers,
                    VObj [("type", VStr "EVENTS_ADDED");
                          ("events", VArr newEvents)]);
                   (ToSender,
                    confirmation (List.length newEvents)
                      (List.length events - List.length newEvents))])
          | [] =>
              Ok (state, [(ToSender, confirmation 0 (List.length events))])
          end
      | _ => Throw TypeError
      end
  | _ => Throw TypeError
  end.

(** The handler of a decoded message: an exception inside is caught and
    logged, so the state stays and nothing is sent. *)
Definition handleMessage (state : ServerState) (message : value)
  : ServerState * list (recipient * value) :=
  let handled :=
    match message with
    | VNull | VUndefined => Throw TypeError
    | _ =>
        let type := getProp message "type" in
        if strictEq type (VStr "ADD_EVENTS") then addEvents state message
        else if strictEq type (VStr "CLEAR") then
          Ok (mkServer (VArr []) true,
              [(ToAll, VObj [("type", VStr "CLEARED")])])
        else if strictEq type (VStr "REQUEST_SYNC") then
          Ok (state,
              [(ToSender,
                VObj [("type", VStr "SYNC");
                      ("events", timelineEvents state)])])
        else Ok (state, [])
    end in
  match handled with
  | Ok next => next
  | Throw _ => (state, [])
  end.

(** Records with a field of another type than the parser expects. *)
Definition numericUserName : value :=
  VObj [("@timestamp", VStr sampleTime); ("user", VObj [("name", VNum 42)])].

Definition numericSourceAddress : value :=
  VObj [("@timestamp", VStr sampleTime);
        ("source", VObj [("ip", VNum 5)]);
        ("destination", VObj [("ip", VStr "10.0.0.50")])].

Definition zeroSourceAddress : value :=
  VObj [("@timestamp", VStr sampleTime);
        ("source", VObj [("ip", VNum 0)]);
        ("destination", VObj [("ip", VStr "10.0.0.50")])].

Definition numericHostname : value :=
  VObj [("@timestamp", VStr sampleTime);
        ("host", VObj [("hostname", VNum 123)])].

(** *** Vocabulary for the registry *)

(** The entry lists the address. *)
Definition lists (entry : HostEntry) (address : value) : bool :=
  existsb (fun known => strictEq known address) (ips entry).

(** The addresses that [buildHostRegistry] reads from an event. *)
Definition eventAddress (event : CanonicalEvent) (address : value) : Prop :=
  address = ip (ev_host event)
  \/ exists conn,
       ev_connection event = Some conn
       /\ (address = sourceIp conn \/ address = destIp conn).

(** Every entry is filed under its hostname in lower case. *)
Definition keysMatchNames (registry : list (string * HostEntry)) : Prop :=
  Forall (fun entry => toLowerCase (entryHostname (snd entry)) = Ok (fst entry))
         registry.

(** The key of the last entry, in insertion order, that lists the
    address. *)
Definition lastLister (address : value) (registry : list (string * HostEntry))
  (found : option string) : option string :=
  fold_left (fun found entry =>
               if lists (snd entry) address then Some (fst entry) else found)
            registry found.

(** The names that [buildHostRegistry] puts in lower case are strings: the
    hostname of the event, and the source and destination domain of its
    flow where they are truthy. *)
Definition hostNamesAreStrings (event : CanonicalEvent) : Prop :=
  isString (hostname (ev_host event))
  /\ match ev_connection event with
     | None => True
     | Some conn =>
         (truthy (sourceHostname conn) = true -> isString (sourceHostname conn))
         /\ (truthy (destHostname conn) = true -> isString (destHostname conn))
     end.

(** Three hosts records: two hosts that report one address, the first of
    them seen again under another case of its name with a second
    address. *)
Definition sharedAddress : list CanonicalEvent :=
  parsed [hostWithIp sampleTime "alpha" "10.0.0.5";
          hostWithIp "2024-01-15T10:31:00.000Z" "Beta" "10.0.0.5";
          hostWithIp "2024-01-15T10:32:00.000Z" "ALPHA" "10.0.0.6"].

(** Two records hold the same value under each of the paths. *)
Definition agreeOn (paths : list string) (a b : value) : Prop :=
  forall path defaultValue,
    In path paths ->
    getNestedValue a path defaultValue = getNestedValue b path defaultValue.

(** The first segment of a path. *)
Definition firstSegment (path : string) : string :=
  match split "." path with
  | key :: _ => key
  | [] => ""
  end.

(** An enveloped record and a bare record with an explicit [event.id]. *)
Definition envelopedLogin : value :=
  VObj [("_id", VStr "es-7");
        ("_source",
         VObj [("@timestamp", VStr sampleTime);
               ("host", VObj [("hostname", VStr "dc01")]);
               ("event", VObj [("category", VArr [VStr "authentication"]);
                               ("action", VStr "logon")]);
               ("user", VObj [("name", VStr "alice")])])].

(** A host record, and the same with a field that the parser does not
    read. *)
Definition plainRecord : value := hostWithIp sampleTime "web01" "10.0.0.7".

Definition labelledRecord : value :=
  VObj [("@timestamp", VStr sampleTime);
        ("host", VObj [("hostname", VStr "web01"); ("ip", VStr "10.0.0.7")]);
        ("labels", VObj [("env", VStr "lab")])].

(** The application before any event. *)
Definition emptyApp : AppState := mkApp [] None [].

(** *** Vocabulary for the relay *)

(** A record on which [e._id] can be read. *)
Definition definedRecord (e : value) : Prop := e <> VNull /\ e <> VUndefined.

(** [e._id || e.id] of such a record. *)
Definition keyOf (e : value) : value := orv (getProp e "_id") (getProp e "id").

(** The records of a batch whose key is the key of no stored record. *)
Definition freshRecords (stored events : list value) : list value :=
  filter (fun e => negb (setHas (keyOf e) (setOf (map keyOf stored)))) events.

(** What the relay tells the other clients about the records it added. *)
Definition announcement (added : list value) : list (recipient * value) :=
  match added with
  | [] => []
  | _ :: _ =>
      [(ToOthers, VObj [("type", VStr "EVENTS_ADDED"); ("events", VArr added)])]
  end.

(** Two relayed records and a message that adds them. *)
Definition relayedRecord (id : string) : value :=
  VObj [("_id", VStr id); ("@timestamp", VStr sampleTime)].

Definition addBatch (events : list value) : value :=
  VObj [("type", VStr "ADD_EVENTS"); ("events", VArr events)].

Definition relayWith (stored : list value) : ServerState :=
  mkServer (VArr stored) false.

(** *** Vocabulary for the exchange between clients *)

(** An event that a client can relay: parsed from some record, its payload
    an object with distinct keys that holds no truthy [_source], and no
    [_id] or the identifier of the event. *)
Definition relayable (parseDate : string -> option Z) (e : CanonicalEvent)
  : Prop :=
  (exists now rawEvent index,
      parseEvent parseDate now rawEvent index = Ok (Some e))
  /\ exists fields,
       ev_raw e = VObj fields
       /\ NoDup (map fst fields)
       /\ truthy (getProp (ev_raw e) "_source") = false
       /\ (lookup "_id" fields = None \/ lookup "_id" fields = Some (ev_id e)).

(** The event as another client holds it: the raw record is the relayed
    one. *)
Definition received (e : CanonicalEvent) : CanonicalEvent :=
  mkEvent (ev_id e) (ev_timestamp e) (ev_host e) (ev_category e)
          (ev_connection e) (ev_summary e) (ev_details e) (wireRecord e).

(** A [JSON.parse] that reads the text of the empty array and nothing
    else. *)
Definition emptyArrayJson (text : string) : option value :=
  if text =? "[]" then Some (VArr []) else None.

(** ** Basic facts *)

Lemma bind_ok {A B : Type} (c : result A) (k : A -> result B) (b : B) :
  bind c k = Ok b -> exists a, c = Ok a /\ k a = Ok b.
Proof.
  destruct c as [a|e]; simpl; intros H.
  - exists a. split; [reflexivity | exact H].
  - discriminate H.
Qed.

Ltac bind_inv H :=
  let a := fresh "a" in
  let Ha := fresh "Ha" in
  apply bind_ok in H; destruct H as (a & Ha & H).

Lemma getFirstValue_firstNonEmpty (obj : value) (paths : list string)
  (defaultValue : value) :
  getFirstValue obj paths defaultValue =
  match firstNonEmpty obj paths with
  | Some v => v
  | None => defaultValue
  end.
Proof.
  unfold firstNonEmpty, candidates.
  induction paths as [|path rest IH]; simpl.
  - reflexivity.
  - destruct (present (getNestedValue obj path VNull)); [reflexivity | exact IH].
Qed.

Lemma firstNonEmpty_present (obj : value) (paths : list string) (v : value) :
  firstNonEmpty obj paths = Some v -> present v = true.
Proof.
  unfold firstNonEmpty. intros H. apply find_some in H. apply H.
Qed.

Lemma lookup_categoryMap (key name : string) :
  lookup key categoryMap = Some name -> In name closedCategories.
Proof.
  unfold categoryMap, closedCategories. cbn [lookup].
  repeat (destruct (_ =? key);
          [intros H; injection H as <-; simpl; tauto|]).
  discriminate.
Qed.

(** Away from the names that [Object.prototype] defines, the category is one
    of the six. *)
Lemma extractCategory_closed (event : value) (key : string) (c : categoryValue) :
  toStr (firstIfArray
           (getFirstValue event ["event.category"; "event.type"] VNull))
    = Ok key ->
  existsb (String.eqb key) objectPrototypeMembers = false ->
  extractCategory event = Ok c ->
  inClosedSet c.
Proof.
  unfold extractCategory. intros Hkey Hproto. rewrite Hkey. cbn [bind].
  rewrite Hproto.
  destruct (lookup key categoryMap) as [name|] eqn:Hl; intros [= <-]; simpl.
  - eapply lookup_categoryMap; eassumption.
  - unfold closedCategories. simpl. tauto.
Qed.

(** ** C1: the category taxonomy *)

(** C1 (defect in the code).  The design document has every category in the
    closed set, an unmapped value giving ["other"].  A record whose category
    is the text ["constructor"] is classified by [extractCategory] as the
    built-in that [Object.prototype] holds under that name, and the event
    that [parseEvents] returns for it carries that built-in as category. *)
Theorem category_of_prototype_member :
  extractCategory categoryConstructor = Ok (Builtin "constructor")
  /\ ~ inClosedSet (Builtin "constructor")
  /\ exists e,
       parseEvents isoDate noJson 0 (VArr [categoryConstructor]) = Ok [e]
       /\ ev_category e = Builtin "constructor".
Proof.
  split; [reflexivity|]. split; [simpl; tauto|].
  eexists. split; [vm_compute; reflexivity | reflexivity].
Qed.

(** ** Facts about the loops *)

Lemma mapIndexed_length {A B : Type} (f : A -> nat -> result B) (l : list A) :
  forall k ys, mapIndexed f l k = Ok ys -> List.length ys = List.length l.
Proof.
  induction l as [|x rest IH]; simpl; intros k ys H.
  - injection H as <-. reflexivity.
  - bind_inv H. bind_inv H. injection H as <-. simpl.
    f_equal. eapply IH. eassumption.
Qed.

Lemma mapIndexed_nth {A B : Type} (f : A -> nat -> result B) (l : list A) :
  forall k ys, mapIndexed f l k = Ok ys ->
  forall i x, nth_error l i = Some x ->
  exists y, nth_error ys i = Some y /\ f x (k + i) = Ok y.
Proof.
  induction l as [|x0 rest IH]; simpl; intros k ys H i x Hi.
  - destruct i; discriminate Hi.
  - bind_inv H. bind_inv H. injection H as <-.
    destruct i as [|i]; simpl in *.
    + injection Hi as <-. exists a. rewrite Nat.add_0_r. auto.
    + destruct (IH _ _ Ha0 _ _ Hi) as (y & Hy & Hf).
      exists y. split; [exact Hy|]. rewrite <- Nat.add_succ_comm. exact Hf.
Qed.

Lemma mapIndexed_source {A B : Type} (f : A -> nat -> result B) (l : list A) :
  forall k ys, mapIndexed f l k = Ok ys ->
  forall i y, nth_error ys i = Some y ->
  exists x, nth_error l i = Some x /\ f x (k + i) = Ok y.
Proof.
  intros k ys H i y Hy.
  assert (Hlen := mapIndexed_length _ _ _ _ H).
  destruct (nth_error l i) as [x|] eqn:Hx.
  - destruct (mapIndexed_nth _ _ _ _ H _ _ Hx) as (y' & Hy' & Hf).
    exists x. split; [reflexivity|]. congruence.
  - apply nth_error_None in Hx.
    assert (i < List.length ys)%nat by (apply nth_error_Some; congruence).
    lia.
Qed.

Lemma filterBoolean_In {A : Type} (l : list (option A)) (x : A) :
  In x (filterBoolean l) <-> In (Some x) l.
Proof.
  induction l as [|[y|] rest IH]; simpl.
  - tauto.
  - rewrite IH. split; intros [H|H]; auto; left; congruence.
  - rewrite IH. split; [auto | intros [H|H]; [discriminate | exact H]].
Qed.

Lemma forEach_app {A S : Type} (f : A -> S -> result S) (l1 l2 : list A) (s : S) :
  forEach f (l1 ++ l2)%list s = (s' <- forEach f l1 s ;; forEach f l2 s').
Proof.
  revert s. induction l1 as [|x rest IH]; simpl; intros s.
  - reflexivity.
  - destruct (f x s) as [s'|e]; simpl; [apply IH | reflexivity].
Qed.

(** ** Facts about the field accessors *)

Lemma getFirstValue_skip (obj : value) (before after : list string)
  (defaultValue : value) :
  Forall (fun p => present (getNestedValue obj p VNull) = false) before ->
  getFirstValue obj (before ++ after)%list defaultValue =
  getFirstValue obj after defaultValue.
Proof.
  induction 1 as [|p rest Hp _ IH]; simpl.
  - reflexivity.
  - rewrite Hp. exact IH.
Qed.

Lemma truthy_present (v : value) : truthy v = true -> present v = true.
Proof. destruct v; simpl; auto. Qed.

(** ** Facts about [parseEvent] and [parseEvents] *)

Section ParserFacts.

Variable parseDate : string -> option Z.
Variable JSON_parse : string -> option value.

Lemma parseTimestamp_firstNonEmpty (event : value) :
  parseTimestamp parseDate event =
  match firstNonEmpty event timestampPaths with
  | Some v => if truthy v then toDate parseDate v else Ok None
  | None => Ok None
  end.
Proof.
  unfold parseTimestamp. rewrite getFirstValue_firstNonEmpty.
  destruct (firstNonEmpty event timestampPaths); reflexivity.
Qed.

Lemma envelope_or_generated (x : value) (generated : result value) :
  (if truthy (orv x VNull) then Ok (orv x VNull) else generated) =
  (if truthy x then Ok x else generated).
Proof.
  unfold orv. destruct (truthy x) eqn:Hx; [rewrite Hx|]; reflexivity.
Qed.

(** [parseEvent] on a record that is an object or a scalar, in the
    vocabulary of the design document. *)
Lemma parseEvent_unfold (now : Z) (rawEvent : value) (index : nat) :
  rawEvent <> VNull -> rawEvent <> VUndefined ->
  parseEvent parseDate now rawEvent index =
  (timestamp <- parseTimestamp parseDate (payloadOf rawEvent) ;;
   match timestamp with
   | None => Ok None
   | Some t =>
       category <- extractCategory (payloadOf rawEvent) ;;
       connection <- extractConnectionInfo (payloadOf rawEvent) ;;
       summary <- extractSummary (payloadOf rawEvent) ;;
       eventId <-
         (if truthy (envelopeId rawEvent) then Ok (envelopeId rawEvent)
          else generateEventId now (payloadOf rawEvent) (Some t) index) ;;
       Ok (Some (mkEvent eventId t (extractHostIdentifier (payloadOf rawEvent))
                   category connection summary
                   (extractDetails (payloadOf rawEvent))
                   (payloadOf rawEvent)))
   end).
Proof.
  intros Hnull Hundef.
  destruct rawEvent; try congruence;
    cbv beta iota zeta delta [parseEvent payloadOf envelopeId];
    (destruct (parseTimestamp _ _) as [[t|]|e]; cbn [bind]; try reflexivity;
     destruct (extractCategory _); cbn [bind]; try reflexivity;
     destruct (extractConnectionInfo _); cbn [bind]; try reflexivity;
     destruct (extractSummary _); cbn [bind]; try reflexivity;
     rewrite envelope_or_generated; reflexivity).
Qed.

Lemma parseEvent_null (now : Z) (rawEvent : value) (index : nat) :
  rawEvent = VNull \/ rawEvent = VUndefined ->
  parseEvent parseDate now rawEvent index = Throw TypeError.
Proof. intros [-> | ->]; reflexivity. Qed.

Lemma parseEvent_ok_not_null (now : Z) (rawEvent : value) (index : nat)
  (r : option CanonicalEvent) :
  parseEvent parseDate now rawEvent index = Ok r ->
  rawEvent <> VNull /\ rawEvent <> VUndefined.
Proof.
  intros H. split; intros ->; discriminate H.
Qed.

(** What a returned event records of its raw record. *)
Lemma parseEvent_some (now : Z) (rawEvent : value) (index : nat)
  (e : CanonicalEvent) :
  parseEvent parseDate now rawEvent index = Ok (Some e) ->
  parseTimestamp parseDate (payloadOf rawEvent) = Ok (Some (ev_timestamp e))
  /\ extractCategory (payloadOf rawEvent) = Ok (ev_category e)
  /\ extractConnectionInfo (payloadOf rawEvent) = Ok (ev_connection e)
  /\ ev_host e = extractHostIdentifier (payloadOf rawEvent)
  /\ ev_raw e = payloadOf rawEvent
  /\ (if truthy (envelopeId rawEvent) then Ok (envelopeId rawEvent)
      else generateEventId now (payloadOf rawEvent)
             (Some (ev_timestamp e)) index) = Ok (ev_id e).
Proof.
  intros H.
  destruct (parseEvent_ok_not_null _ _ _ _ H) as [Hnull Hundef].
  rewrite (parseEvent_unfold _ _ _ Hnull Hundef) in H.
  bind_inv H. destruct a as [t|]; [|discriminate H].
  bind_inv H. bind_inv H. bind_inv H. bind_inv H.
  injection H as <-. simpl. auto 10.
Qed.

(** The events that [parseEvents] returns are the events that [parseEvent]
    returns for the records of the batch. *)
Lemma parseEvents_In (now : Z) (input : value) (records : list value)
  (out : list CanonicalEvent) (e : CanonicalEvent) :
  rawEventsOf JSON_parse input = Ok records ->
  parseEvents parseDate JSON_parse now input = Ok out ->
  In e out ->
  exists index rawEvent,
    nth_error records index = Some rawEvent
    /\ parseEvent parseDate now rawEvent index = Ok (Some e).
Proof.
  unfold parseEvents. intros Hraw H Hin. rewrite Hraw in H. cbn [bind] in H.
  bind_inv H. injection H as <-.
  apply filterBoolean_In in Hin. apply In_nth_error in Hin.
  destruct Hin as (index & Hindex).
  destruct (mapIndexed_source _ _ _ _ Ha _ _ Hindex) as (rawEvent & Hr & Hp).
  exists index, rawEvent. auto.
Qed.

Lemma parseEvents_record (now : Z) (input : value) (records : list value)
  (out : list CanonicalEvent) (index : nat) (rawEvent : value) :
  rawEventsOf JSON_parse input = Ok records ->
  parseEvents parseDate JSON_parse now input = Ok out ->
  nth_error records index = Some rawEvent ->
  exists r, parseEvent parseDate now rawEvent index = Ok r
            /\ match r with Some e => In e out | None => True end.
Proof.
  unfold parseEvents. intros Hraw H Hindex. rewrite Hraw in H. cbn [bind] in H.
  bind_inv H. injection H as <-.
  destruct (mapIndexed_nth _ _ _ _ Ha _ _ Hindex) as (r & Hr & Hp).
  exists r. split; [exact Hp|].
  destruct r as [e|]; [|exact I].
  apply filterBoolean_In. eapply nth_error_In. eassumption.
Qed.

End ParserFacts.

(** ** Facts about printed numbers *)

Lemma append_assoc (a b c : string) : (a ++ b) ++ c = a ++ (b ++ c).
Proof.
  induction a as [|x a IH]; simpl; [reflexivity | now rewrite IH].
Qed.

Lemma hasDash_append (a b : string) : hasDash (a ++ String "-" b) = true.
Proof.
  induction a as [|x a IH]; simpl.
  - reflexivity.
  - rewrite IH. apply orb_true_r.
Qed.

Lemma digits_no_dash (d : Decimal.uint) :
  hasDash (NilEmpty.string_of_uint d) = false.
Proof.
  induction d; simpl; auto.
Qed.

Lemma natToString_no_dash (n : nat) : hasDash (natToString n) = false.
Proof.
  unfold natToString, NilZero.string_of_uint.
  destruct (Nat.to_uint n); try reflexivity; apply digits_no_dash.
Qed.

Lemma to_uint_not_Nil (n : nat) : Nat.to_uint n <> Decimal.Nil.
Proof.
  rewrite <- (DecimalNat.Unsigned.of_to n) at 1.
  rewrite DecimalNat.Unsigned.to_of.
  unfold Decimal.unorm.
  destruct (Decimal.nzhead (Nat.to_uint n)); discriminate.
Qed.

Lemma natToString_inj (n m : nat) : natToString n = natToString m -> n = m.
Proof.
  unfold natToString. intros H.
  apply DecimalNat.Unsigned.to_uint_inj.
  assert (Hn := NilZero.usu _ (to_uint_not_Nil n)).
  assert (Hm := NilZero.usu _ (to_uint_not_Nil m)).
  rewrite H in Hn. congruence.
Qed.

(** A text ends in one way only with a dash and a run free of dashes. *)
Lemma last_dash (a b da db : string) :
  hasDash da = false -> hasDash db = false ->
  a ++ String "-" da = b ++ String "-" db -> da = db.
Proof.
  intros Hda Hdb. revert b.
  induction a as [|x a IH]; intros [|y b]; simpl; intros H.
  - now injection H.
  - injection H as _ H. rewrite H, hasDash_append in Hda. discriminate.
  - injection H as _ H. rewrite <- H, hasDash_append in Hdb. discriminate.
  - injection H as _ H. eapply IH. eassumption.
Qed.

Lemma synthesized_text_index (ts1 ts2 h1 h2 : string) (i j : nat) :
  ts1 ++ "-" ++ h1 ++ "-" ++ natToString i =
  ts2 ++ "-" ++ h2 ++ "-" ++ natToString j ->
  i = j.
Proof.
  intros H. apply natToString_inj.
  apply (last_dash (ts1 ++ "-" ++ h1) (ts2 ++ "-" ++ h2));
    try apply natToString_no_dash.
  rewrite !append_assoc. exact H.
Qed.

Lemma generateEventId_synthesized (now t : Z) (event id : value) (index : nat) :
  truthy (getNestedValue event "event.id" VNull) = false ->
  generateEventId now event (Some t) index = Ok id ->
  exists host,
    toStr (orv (getFirstString event ["host.hostname"; "host.name"; "host.ip"])
               (VStr "unknown")) = Ok host
    /\ id = VStr (numToString t ++ "-" ++ host ++ "-" ++ natToString index).
Proof.
  unfold generateEventId. intros Hid H. rewrite Hid in H.
  bind_inv H. injection H as <-. exists a. auto.
Qed.

Lemma filterBoolean_positions {A : Type} (l : list (option A)) :
  forall p q x y, (p < q)%nat ->
  nth_error (filterBoolean l) p = Some x ->
  nth_error (filterBoolean l) q = Some y ->
  exists i j, (i < j)%nat
    /\ nth_error l i = Some (Some x) /\ nth_error l j = Some (Some y).
Proof.
  induction l as [|[z|] rest IH]; simpl; intros p q x y Hpq Hp Hq.
  - destruct p; discriminate Hp.
  - destruct q as [|q]; [lia|]. simpl in Hq.
    destruct p as [|p]; simpl in Hp.
    + injection Hp as <-.
      assert (Hin : In (Some y) rest)
        by (apply filterBoolean_In; eapply nth_error_In; eassumption).
      apply In_nth_error in Hin. destruct Hin as (j & Hj).
      exists 0%nat, (S j). simpl. repeat split; auto. lia.
    + destruct (IH p q x y ltac:(lia) Hp Hq) as (i & j & Hij & Hi & Hj).
      exists (S i), (S j). simpl. repeat split; auto. lia.
  - destruct (IH p q x y Hpq Hp Hq) as (i & j & Hij & Hi & Hj).
    exists (S i), (S j). simpl. repeat split; auto. lia.
Qed.

(** ** Claims about ingestion *)

Section IngestionClaims.

Variable parseDate : string -> option Z.
Variable JSON_parse : string -> option value.

(** C2 (amended).  The identifier of a returned event is the outer envelope
    identifier when the record has one; otherwise the explicit event
    identifier of the payload when it has one; otherwise the text made of
    the timestamp, the host and the ordinal position of the record. *)
Theorem event_id_priority (now : Z) (rawEvent : value) (index : nat)
  (e : CanonicalEvent) :
  parseEvent parseDate now rawEvent index = Ok (Some e) ->
  (truthy (envelopeId rawEvent) = true -> ev_id e = envelopeId rawEvent)
  /\ (truthy (envelopeId rawEvent) = false ->
      truthy (explicitId rawEvent) = true ->
      ev_id e = explicitId rawEvent)
  /\ (truthy (envelopeId rawEvent) = false ->
      truthy (explicitId rawEvent) = false ->
      exists host,
        toStr (orv (getFirstString (payloadOf rawEvent)
                      ["host.hostname"; "host.name"; "host.ip"])
                   (VStr "unknown")) = Ok host
        /\ ev_id e = VStr (numToString (ev_timestamp e) ++ "-" ++ host
                           ++ "-" ++ natToString index)).
Proof.
  intros H. apply parseEvent_some in H.
  destruct H as (_ & _ & _ & _ & _ & Hid).
  repeat split.
  - intros Henv. rewrite Henv in Hid. congruence.
  - intros Henv Hexp. rewrite Henv in Hid.
    unfold generateEventId in Hid. unfold explicitId in Hexp.
    rewrite Hexp in Hid. injection Hid as <-. reflexivity.
  - intros Henv Hexp. rewrite Henv in Hid.
    eapply generateEventId_synthesized; eassumption.
Qed.

(** C3 (amended).  The timestamp candidates are the primary field and four
    fallbacks (creation, ingestion, start, end), in that order.  Only the
    first candidate that is neither absent nor empty is read: every event of
    the output carries the date that this candidate of its record parses
    to, and a record with no such candidate, or whose first such candidate
    is not a valid date, yields no event, whatever the later candidates
    hold. *)
Theorem timestamp_first_candidate (now : Z) (input : value)
  (records : list value) (out : list CanonicalEvent) :
  rawEventsOf JSON_parse input = Ok records ->
  parseEvents parseDate JSON_parse now input = Ok out ->
  timestampPaths = (documentedTimestampPaths ++ ["event.end"])%list
  /\ (forall e, In e out ->
      exists index rawEvent v,
        nth_error records index = Some rawEvent
        /\ parseEvent parseDate now rawEvent index = Ok (Some e)
        /\ firstNonEmpty (payloadOf rawEvent) timestampPaths = Some v
        /\ toDate parseDate v = Ok (Some (ev_timestamp e)))
  /\ (forall index rawEvent,
      nth_error records index = Some rawEvent ->
      firstNonEmpty (payloadOf rawEvent) timestampPaths = None
      \/ (exists v, firstNonEmpty (payloadOf rawEvent) timestampPaths = Some v
                    /\ toDate parseDate v = Ok None) ->
      parseEvent parseDate now rawEvent index = Ok None).
Proof.
  intros Hraw Hout. split; [reflexivity|]. split.
  - intros e He.
    destruct (parseEvents_In _ _ _ _ _ _ _ Hraw Hout He)
      as (index & rawEvent & Hindex & Hparse).
    exists index, rawEvent.
    destruct (parseEvent_some _ _ _ _ _ Hparse) as (Hts & _).
    rewrite parseTimestamp_firstNonEmpty in Hts.
    destruct (firstNonEmpty (payloadOf rawEvent) timestampPaths) as [v|];
      [|discriminate Hts].
    exists v. destruct (truthy v); [auto | discriminate Hts].
  - intros index rawEvent Hindex Hcand.
    destruct (parseEvents_record _ _ _ _ _ _ _ _ Hraw Hout Hindex)
      as (r & Hr & _).
    destruct (parseEvent_ok_not_null _ _ _ _ _ Hr) as [Hnull Hundef].
    rewrite (parseEvent_unfold _ _ _ _ Hnull Hundef).
    rewrite parseTimestamp_firstNonEmpty.
    destruct Hcand as [-> | (v & -> & Hv)]; [reflexivity|].
    rewrite Hv. destruct (truthy v); reflexivity.
Qed.

Lemma parseEvent_ignores_clock (now1 now2 : Z) (rawEvent : value)
  (index : nat) :
  parseEvent parseDate now1 rawEvent index =
  parseEvent parseDate now2 rawEvent index.
Proof.
  destruct rawEvent; reflexivity.
Qed.

Lemma mapIndexed_ext {A B : Type} (f g : A -> nat -> result B) (l : list A) :
  (forall x i, f x i = g x i) ->
  forall k, mapIndexed f l k = mapIndexed g l k.
Proof.
  intros Hfg. induction l as [|x rest IH]; simpl; intros k.
  - reflexivity.
  - rewrite Hfg, IH. reflexivity.
Qed.

(** C7.  Ingestion does not read the clock: whatever [Date.now()] returns
    during two runs over the same batch, both runs return the same result,
    so outputs of equal length whose identifiers agree position by
    position, or the same exception. *)
Theorem parseEvents_deterministic (now1 now2 : Z) (input : value) :
  parseEvents parseDate JSON_parse now1 input =
  parseEvents parseDate JSON_parse now2 input
  /\ match parseEvents parseDate JSON_parse now1 input,
           parseEvents parseDate JSON_parse now2 input with
     | Ok out1, Ok out2 =>
         List.length out1 = List.length out2
         /\ map ev_id out1 = map ev_id out2
     | Throw e1, Throw e2 => e1 = e2
     | _, _ => False
     end.
Proof.
  assert (Heq : parseEvents parseDate JSON_parse now1 input =
                parseEvents parseDate JSON_parse now2 input).
  { unfold parseEvents.
    destruct (rawEventsOf JSON_parse input) as [records|e]; cbn [bind];
      [|reflexivity].
    rewrite (mapIndexed_ext _ (parseEvent parseDate now2));
      [reflexivity | intros; apply parseEvent_ignores_clock]. }
  split; [exact Heq|]. rewrite Heq.
  destruct (parseEvents parseDate JSON_parse now2 input); auto.
Qed.

(** C8 (amended).  Two events at different positions of one output come
    from two different positions of the batch, and when both identifiers
    were synthesized from timestamp, host and ordinal position they are
    different.  Identifiers taken from an envelope or from the payload are
    returned as supplied. *)
Theorem synthesized_ids_distinct (now : Z) (input : value)
  (records : list value) (out : list CanonicalEvent) (p q : nat)
  (ep eq : CanonicalEvent) :
  rawEventsOf JSON_parse input = Ok records ->
  parseEvents parseDate JSON_parse now input = Ok out ->
  p <> q ->
  nth_error out p = Some ep ->
  nth_error out q = Some eq ->
  exists i j ri rj,
    i <> j
    /\ nth_error records i = Some ri
    /\ nth_error records j = Some rj
    /\ parseEvent parseDate now ri i = Ok (Some ep)
    /\ parseEvent parseDate now rj j = Ok (Some eq)
    /\ (synthesized ri -> synthesized rj -> ev_id ep <> ev_id eq).
Proof.
  intros Hraw Hout Hpq Hp Hq.
  unfold parseEvents in Hout. rewrite Hraw in Hout. cbn [bind] in Hout.
  bind_inv Hout. injection Hout as <-.
  assert (Hpos : exists i j, i <> j
            /\ nth_error a i = Some (Some ep)
            /\ nth_error a j = Some (Some eq)).
  { destruct (Nat.lt_total p q) as [Hlt | [Heq | Hgt]]; [|contradiction|].
    - destruct (filterBoolean_positions _ _ _ _ _ Hlt Hp Hq)
        as (i & j & Hij & Hi & Hj).
      exists i, j. repeat split; auto. lia.
    - destruct (filterBoolean_positions _ _ _ _ _ Hgt Hq Hp)
        as (j & i & Hij & Hj & Hi).
      exists i, j. repeat split; auto. lia. }
  destruct Hpos as (i & j & Hij & Hi & Hj).
  destruct (mapIndexed_source _ _ _ _ Ha _ _ Hi) as (ri & Hri & Hpi).
  destruct (mapIndexed_source _ _ _ _ Ha _ _ Hj) as (rj & Hrj & Hpj).
  simpl in Hpi, Hpj.
  exists i, j, ri, rj. repeat split; auto.
  intros [Hienv Hiexp] [Hjenv Hjexp] Hid.
  destruct (parseEvent_some _ _ _ _ _ Hpi) as (_ & _ & _ & _ & _ & Hidi).
  destruct (parseEvent_some _ _ _ _ _ Hpj) as (_ & _ & _ & _ & _ & Hidj).
  rewrite Hienv in Hidi. rewrite Hjenv in Hidj.
  destruct (generateEventId_synthesized _ _ _ _ _ Hiexp Hidi) as (hi & _ & Hi').
  destruct (generateEventId_synthesized _ _ _ _ _ Hjexp Hidj) as (hj & _ & Hj').
  rewrite Hi', Hj' in Hid. injection Hid as Hid.
  apply synthesized_text_index in Hid. contradiction.
Qed.

(** C10.  When the first timestamp candidate of a record that is neither
    absent nor empty is the number 0, [parseTimestamp] returns [null] and
    the record yields no event, although 0 converts to a valid date: the
    epoch. *)
Theorem epoch_zero_dropped (now : Z) (rawEvent : value) (index : nat) :
  firstNonEmpty (payloadOf rawEvent) timestampPaths = Some (VNum 0) ->
  toDate parseDate (VNum 0) = Ok (Some 0%Z)
  /\ parseTimestamp parseDate (payloadOf rawEvent) = Ok None
  /\ parseEvent parseDate now rawEvent index = Ok None
  /\ parseEvents parseDate JSON_parse now (VArr [rawEvent]) = Ok [].
Proof.
  intros H.
  assert (Hts : parseTimestamp parseDate (payloadOf rawEvent) = Ok None)
    by (rewrite parseTimestamp_firstNonEmpty, H; reflexivity).
  assert (Hnull : rawEvent <> VNull) by (intros ->; discriminate H).
  assert (Hundef : rawEvent <> VUndefined) by (intros ->; discriminate H).
  assert (Hparse : forall i, parseEvent parseDate now rawEvent i = Ok None)
    by (intros i; rewrite (parseEvent_unfold _ _ _ _ Hnull Hundef), Hts;
        reflexivity).
  repeat split; auto.
  unfold parseEvents. cbn [rawEventsOf bind mapIndexed].
  rewrite Hparse. reflexivity.
Qed.

End IngestionClaims.

(** ** Claims about connection extraction *)

Lemma prefix_append (p s : string) :
  prefix p s = true <-> exists rest, s = p ++ rest.
Proof.
  revert s. induction p as [|a p IH]; intros [|b s]; simpl.
  - split; [intros _; exists ""; reflexivity | reflexivity].
  - split; [intros _; exists (String b s); reflexivity | reflexivity].
  - split; [discriminate | intros (rest & H); discriminate H].
  - destruct (ascii_dec a b) as [->|Hab].
    + rewrite IH. split; intros (rest & H); exists rest; congruence.
    + split; [discriminate | intros (rest & H); congruence].
Qed.

Lemma absent_truthy (v : value) : absent v -> truthy v = false.
Proof. intros [-> | [-> | ->]]; reflexivity. Qed.

Lemma present_absent (v : value) : present v = false <-> absent v.
Proof.
  unfold absent. destruct v; simpl; split; intros H;
    try tauto; try discriminate;
    try (destruct H as [H | [H | H]]; discriminate H).
  - destruct (String.eqb_spec s ""); [subst; auto | discriminate].
  - destruct H as [H | [H | H]]; try discriminate.
    injection H as ->. reflexivity.
Qed.

Lemma string_truthy_or_absent (s : string) :
  truthy (VStr s) = true \/ absent (VStr s).
Proof.
  simpl. destruct (String.eqb_spec s "") as [->|Hs]; [right | left].
  - unfold absent. auto.
  - reflexivity.
Qed.

(** The loopback test on two string addresses. *)
Lemma skip_strings (s d : string) :
  orb_lazy (strictEq (VStr s) (VStr d))
    (orb_lazy (strictEq (VStr s) (VStr "127.0.0.1"))
       (orb_lazy (strictEq (VStr d) (VStr "127.0.0.1"))
          (b <- startsWith (VStr s) "::1" ;;
           orb_lazy b (startsWith (VStr d) "::1")))) =
  Ok ((s =? d) || (s =? "127.0.0.1") || (d =? "127.0.0.1")
      || prefix "::1" s || prefix "::1" d).
Proof.
  unfold orb_lazy, strictEq, startsWith. cbn [bind].
  destruct (s =? d), (s =? "127.0.0.1"), (d =? "127.0.0.1"),
    (prefix "::1" s); reflexivity.
Qed.

Lemma skip_strings_true (s d : string) :
  (s =? d) || (s =? "127.0.0.1") || (d =? "127.0.0.1")
  || prefix "::1" s || prefix "::1" d = true <->
  VStr s = VStr d
  \/ VStr s = VStr "127.0.0.1"
  \/ VStr d = VStr "127.0.0.1"
  \/ (exists rest, VStr s = VStr ("::1" ++ rest))
  \/ (exists rest, VStr d = VStr ("::1" ++ rest)).
Proof.
  rewrite !orb_true_iff, !String.eqb_eq, !prefix_append.
  split.
  - intros [[[[H|H]|H]|(rest & H)]|(rest & H)]; subst; eauto 8.
  - intros [H|[H|[H|[(rest & H)|(rest & H)]]]]; injection H as H.
    + auto.
    + auto.
    + auto.
    + left. right. exists rest. exact H.
    + right. exists rest. exact H.
Qed.

(** C4.  On a record whose source and destination addresses, where it has
    them, are strings, connection extraction yields [null] exactly when an
    address is absent, the two addresses are equal, one of them is
    [127.0.0.1], or one of them begins with [::1]; in every other case it
    yields a ConnectionInfo with both addresses and both ports, whose
    protocol is the transport field, or the protocol field when the
    transport field is absent. *)
Theorem connection_extraction (event : value) :
  absent (getNestedString event "source.ip")
  \/ isString (getNestedString event "source.ip") ->
  absent (getNestedString event "destination.ip")
  \/ isString (getNestedString event "destination.ip") ->
  (extractConnectionInfo event = Ok None <->
   absent (getNestedString event "source.ip")
   \/ absent (getNestedString event "destination.ip")
   \/ getNestedString event "source.ip" = getNestedString event "destination.ip"
   \/ getNestedString event "source.ip" = VStr "127.0.0.1"
   \/ getNestedString event "destination.ip" = VStr "127.0.0.1"
   \/ (exists rest, getNestedString event "source.ip" = VStr ("::1" ++ rest))
   \/ (exists rest,
         getNestedString event "destination.ip" = VStr ("::1" ++ rest)))
  /\ (extractConnectionInfo event <> Ok None ->
      exists conn,
        extractConnectionInfo event = Ok (Some conn)
        /\ sourceIp conn = getNestedString event "source.ip"
        /\ destIp conn = getNestedString event "destination.ip"
        /\ sourcePort conn = getNestedString event "source.port"
        /\ destPort conn = getNestedString event "destination.port"
        /\ (~ absent (getNestedValue event "network.transport" VNull) ->
            protocol conn = getNestedValue event "network.transport" VNull)
        /\ (absent (getNestedValue event "network.transport" VNull) ->
            ~ absent (getNestedValue event "network.protocol" VNull) ->
            protocol conn = getNestedValue event "network.protocol" VNull)
        /\ (absent (getNestedValue event "network.transport" VNull) ->
            absent (getNestedValue event "network.protocol" VNull) ->
            protocol conn = VNull)).
Proof.
  unfold extractConnectionInfo. cbv zeta. cbn [getFirstValue].
  rewrite <- !present_absent.
  generalize (getNestedValue event "network.transport" VNull) as transport.
  generalize (getNestedValue event "network.protocol" VNull) as proto.
  generalize (getNestedString event "source.port") as sport.
  generalize (getNestedString event "destination.port") as dport.
  generalize (getNestedString event "source.ip") as src.
  generalize (getNestedString event "destination.ip") as dst.
  intros dst src dport sport proto transport Hs Hd.
  rewrite !present_absent in *.
  assert (Hs' : absent src \/ exists s, src = VStr s /\ truthy src = true).
  { destruct Hs as [Hs|Hs]; [auto|]. destruct src; try contradiction.
    destruct (string_truthy_or_absent s); eauto. }
  assert (Hd' : absent dst \/ exists d, dst = VStr d /\ truthy dst = true).
  { destruct Hd as [Hd|Hd]; [auto|]. destruct dst; try contradiction.
    destruct (string_truthy_or_absent s); eauto. }
  clear Hs Hd.
  destruct Hs' as [Hs | (s & -> & Hs)].
  { rewrite (absent_truthy _ Hs). cbn [negb orb].
    split; [tauto | congruence]. }
  destruct Hd' as [Hd | (d & -> & Hd)].
  { rewrite (absent_truthy _ Hd), orb_true_r.
    split; [tauto | congruence]. }
  rewrite Hs, Hd. cbn [negb orb]. rewrite skip_strings. cbn [bind].
  assert (Hns : ~ absent (VStr s))
    by (intros H; apply absent_truthy in H; congruence).
  assert (Hnd : ~ absent (VStr d))
    by (intros H; apply absent_truthy in H; congruence).
  pose proof (skip_strings_true s d) as Hskip.
  destruct ((s =? d) || (s =? "127.0.0.1") || (d =? "127.0.0.1")
            || prefix "::1" s || prefix "::1" d).
  - split; [|congruence]. split; [|reflexivity].
    intros _. right. right. apply Hskip. reflexivity.
  - split.
    + split; [discriminate|].
      intros [H|[H|H]]; [contradiction | contradiction |].
      apply Hskip in H. discriminate H.
    + intros _. eexists. split; [reflexivity|]. cbn.
      rewrite <- !present_absent.
      repeat split.
      * intros H. destruct (present transport); congruence.
      * intros Ht Hp. rewrite Ht. destruct (present proto); congruence.
      * intros Ht Hp. rewrite Ht, Hp. reflexivity.
Qed.

(** C9.  In the fallback combinator a present empty array is not skipped:
    when the paths before it are absent and a path holds [[]],
    [getFirstValue] returns the empty array and [getFirstString] returns
    [null], whatever the later paths hold; for the address paths of the
    host identity, the address of a named host is then [null] even when the
    observer address is populated. *)
Theorem empty_array_shadows (obj : value) (before : list string)
  (path : string) (after : list string) (defaultValue : value) :
  Forall (fun p => absent (getNestedValue obj p VNull)) before ->
  getNestedValue obj path VNull = VArr [] ->
  getFirstValue obj (before ++ path :: after)%list defaultValue = VArr []
  /\ getFirstString obj (before ++ path :: after)%list = VNull
  /\ ((before ++ path :: after)%list = ipPaths ->
      truthy (getFirstString obj hostnamePaths) = true ->
      ip (extractHostIdentifier obj) = VNull).
Proof.
  intros Hbefore Hpath.
  assert (Hfirst : forall d,
            getFirstValue obj (before ++ path :: after)%list d = VArr []).
  { intros d. rewrite getFirstValue_skip.
    - simpl. rewrite Hpath. reflexivity.
    - eapply Forall_impl; [|exact Hbefore].
      intros p Hp. apply present_absent. exact Hp. }
  assert (Hstring : getFirstString obj (before ++ path :: after)%list = VNull)
    by (unfold getFirstString; rewrite Hfirst; reflexivity).
  repeat split; auto.
  intros Hpaths Hname. rewrite Hpaths in Hstring.
  unfold extractHostIdentifier. rewrite Hstring, Hname. reflexivity.
Qed.

(** ** Claims about the host registry and the connection identifier *)

Lemma toLowerCase_ok (v : value) (k : string) :
  toLowerCase v = Ok k -> isString v /\ v = VStr match v with VStr s => s | _ => "" end.
Proof.
  destruct v; simpl; try discriminate. auto.
Qed.

Lemma ensureHost_names (key : string) (name display : value)
  (registry : list (string * HostEntry)) :
  isString name -> namesAreStrings registry ->
  namesAreStrings (ensureHost key name display registry).
Proof.
  unfold ensureHost, namesAreStrings. intros Hname Hreg.
  destruct (hasOwn key registry); [exact Hreg|].
  apply Forall_app. split; [exact Hreg|]. constructor; [exact Hname|constructor].
Qed.

Lemma addIp_names (key : string) (address : value)
  (registry : list (string * HostEntry)) :
  namesAreStrings registry -> namesAreStrings (addIp key address registry).
Proof.
  unfold namesAreStrings.
  induction 1 as [|[k e] rest He Hrest IH]; simpl; [constructor|].
  destruct (k =? key); constructor; auto.
Qed.

Lemma collectHost_names (event : CanonicalEvent)
  (registry registry' : list (string * HostEntry)) :
  namesAreStrings registry ->
  collectHost event registry = Ok registry' ->
  namesAreStrings registry'.
Proof.
  unfold collectHost. intros Hreg H.
  bind_inv H.
  assert (Ha' : namesAreStrings a).
  { destruct (negb (strictEq (hostname (ev_host event)) (VStr "Unknown")));
      [|congruence].
    bind_inv Ha. apply toLowerCase_ok in Ha0. destruct Ha0 as [Hs _].
    injection Ha as <-.
    destruct (truthy (ip (ev_host event)));
      [apply addIp_names|]; apply ensureHost_names; assumption. }
  destruct (ev_connection event) as [connection|]; [|congruence].
  bind_inv H.
  assert (Ha1 : namesAreStrings a0).
  { destruct (truthy (sourceHostname connection)); [|congruence].
    bind_inv Ha0. apply toLowerCase_ok in Ha1. destruct Ha1 as [Hs _].
    injection Ha0 as <-. apply addIp_names, ensureHost_names; assumption. }
  destruct (truthy (destHostname connection)); [|congruence].
  bind_inv H. apply toLowerCase_ok in Ha2. destruct Ha2 as [Hs _].
  injection H as <-. apply addIp_names, ensureHost_names; assumption.
Qed.

Lemma forEach_invariant {A S : Type} (P : S -> Prop) (f : A -> S -> result S) :
  (forall x s s', P s -> f x s = Ok s' -> P s') ->
  forall l s s', P s -> forEach f l s = Ok s' -> P s'.
Proof.
  intros Hf. induction l as [|x rest IH]; simpl; intros s s' Hs H.
  - congruence.
  - bind_inv H. eapply IH; [|exact H]. eapply Hf; eassumption.
Qed.

Lemma buildHostRegistry_names (events : list CanonicalEvent)
  (registry : HostRegistry) :
  buildHostRegistry events = Ok registry -> namesAreStrings (hosts registry).
Proof.
  unfold buildHostRegistry. intros H. bind_inv H. injection H as <-. simpl.
  eapply (forEach_invariant namesAreStrings); [|constructor|exact Ha].
  intros x s s' Hs Hx. eapply collectHost_names; eassumption.
Qed.

Lemma lookup_In {A : Type} (k : string) (l : list (string * A)) (v : A) :
  lookup k l = Some v -> exists k', In (k', v) l.
Proof.
  induction l as [|[k' v'] rest IH]; simpl; [discriminate|].
  destruct (k' =? k).
  - intros [= <-]. eauto.
  - intros H. destruct (IH H) as (k'' & Hin). eauto.
Qed.

Lemma resolveIp_string (registry : HostRegistry) (address : value) :
  namesAreStrings (hosts registry) -> isString address ->
  isString (resolveIp registry address).
Proof.
  unfold resolveIp, namesAreStrings. intros Hreg Haddr.
  destruct (mapGet address (ipToHost registry)) as [hostKey|]; [|exact Haddr].
  destruct (negb (hostKey =? "") && hasOwn hostKey (hosts registry));
    [|exact Haddr].
  destruct (lookup hostKey (hosts registry)) as [entry|] eqn:Hl; [|exact Haddr].
  apply lookup_In in Hl. destruct Hl as (k' & Hin).
  rewrite Forall_forall in Hreg. apply (Hreg _ Hin).
Qed.

Lemma edgeOf_described (registry : HostRegistry) (event : CanonicalEvent)
  (connections : list ConnectionEdge) :
  namesAreStrings (hosts registry) ->
  flowAddressesAreStrings event ->
  (edge <- edgeOf registry event ;;
   Ok (match edge with
       | Some e => (connections ++ [e])%list
       | None => connections
       end)) =
  Ok (connections ++ describedEdges registry event)%list.
Proof.
  unfold edgeOf, describedEdges, flowAddressesAreStrings.
  intros Hreg Hflow.
  destruct (ev_connection event) as [conn|]; cbn [bind];
    [|now rewrite app_nil_r].
  destruct Hflow as [Hs Hd].
  pose proof (resolveIp_string _ _ Hreg Hs) as Hrs.
  pose proof (resolveIp_string _ _ Hreg Hd) as Hrd.
  destruct (resolveIp registry (sourceIp conn)); try contradiction.
  destruct (resolveIp registry (destIp conn)); try contradiction.
  cbn [toLowerCase bind].
  destruct (lowerString s =? lowerString s0); cbn [bind];
    [now rewrite app_nil_r | reflexivity].
Qed.

Lemma identifyConnections_from (registry : HostRegistry)
  (events : list CanonicalEvent) :
  namesAreStrings (hosts registry) ->
  Forall flowAddressesAreStrings events ->
  forall connections,
    forEach
      (fun event connections =>
         edge <- edgeOf registry event ;;
         Ok (match edge with
             | Some e => (connections ++ [e])%list
             | None => connections
             end))
      events connections =
    Ok (connections ++ flat_map (describedEdges registry) events)%list.
Proof.
  intros Hreg. induction 1 as [|event rest He _ IH]; intros connections.
  - simpl. now rewrite app_nil_r.
  - cbn [forEach flat_map]. rewrite (edgeOf_described _ _ _ Hreg He).
    cbn [bind]. rewrite IH. now rewrite app_assoc.
Qed.

Lemma describedEdges_inv (registry : HostRegistry) (event : CanonicalEvent)
  (edge : ConnectionEdge) :
  In edge (describedEdges registry event) ->
  exists conn,
    ev_connection event = Some conn
    /\ eventId edge = ev_id event
    /\ sourceHost edge = resolveIp registry (sourceIp conn)
    /\ destHost edge = resolveIp registry (destIp conn)
    /\ ~ sameHost (sourceHost edge) (destHost edge).
Proof.
  unfold describedEdges.
  destruct (ev_connection event) as [conn|]; [|contradiction].
  destruct (resolveIp registry (sourceIp conn)) eqn:Hs; try contradiction.
  destruct (resolveIp registry (destIp conn)) eqn:Hd; try contradiction.
  destruct (String.eqb_spec (lowerString s) (lowerString s0)) as [Heq|Hneq];
    cbn [In]; [contradiction|].
  intros [<- | []]. exists conn. simpl. repeat split; auto.
  intros (a & b & Ha & Hb & Hab). congruence.
Qed.

Lemma describedEdges_intro (registry : HostRegistry) (event : CanonicalEvent)
  (conn : ConnectionInfo) :
  ev_connection event = Some conn ->
  isString (resolveIp registry (sourceIp conn)) ->
  isString (resolveIp registry (destIp conn)) ->
  ~ sameHost (resolveIp registry (sourceIp conn))
             (resolveIp registry (destIp conn)) ->
  exists edge,
    In edge (describedEdges registry event)
    /\ eventId edge = ev_id event
    /\ sourceHost edge = resolveIp registry (sourceIp conn)
    /\ destHost edge = resolveIp registry (destIp conn).
Proof.
  unfold describedEdges. intros -> Hs Hd Hdiff.
  destruct (resolveIp registry (sourceIp conn)); try contradiction.
  destruct (resolveIp registry (destIp conn)); try contradiction.
  destruct (String.eqb_spec (lowerString s) (lowerString s0)) as [Heq|Hneq].
  - exfalso. apply Hdiff. exists s, s0. auto.
  - eexists. split; [left; reflexivity|]. simpl. auto.
Qed.

(** C5.  For an event list whose flow addresses are strings and a registry
    built from it, connection identification returns, in input order, one
    edge for each event that carries a ConnectionInfo whose two addresses
    resolve to hostnames that differ up to case, and nothing for any other
    event; so no edge joins a hostname to itself up to case. *)
Theorem identifyConnections_edges (events : list CanonicalEvent)
  (registry : HostRegistry) :
  buildHostRegistry events = Ok registry ->
  Forall flowAddressesAreStrings events ->
  exists edges,
    identifyConnections events registry = Ok edges
    /\ edges = flat_map (describedEdges registry) events
    /\ (forall edge, In edge edges ->
        ~ sameHost (sourceHost edge) (destHost edge)
        /\ exists event conn,
             In event events
             /\ ev_connection event = Some conn
             /\ eventId edge = ev_id event
             /\ sourceHost edge = resolveIp registry (sourceIp conn)
             /\ destHost edge = resolveIp registry (destIp conn))
    /\ (forall event conn,
        In event events ->
        ev_connection event = Some conn ->
        ~ sameHost (resolveIp registry (sourceIp conn))
                   (resolveIp registry (destIp conn)) ->
        exists edge,
          In edge edges
          /\ eventId edge = ev_id event
          /\ sourceHost edge = resolveIp registry (sourceIp conn)
          /\ destHost edge = resolveIp registry (destIp conn)).
Proof.
  intros Hbuild Hflow.
  pose proof (buildHostRegistry_names _ _ Hbuild) as Hnames.
  exists (flat_map (describedEdges registry) events).
  split; [|split; [reflexivity|split]].
  - unfold identifyConnections.
    rewrite (identifyConnections_from _ _ Hnames Hflow). reflexivity.
  - intros edge Hin. apply in_flat_map in Hin.
    destruct Hin as (event & Hevent & Hedge).
    destruct (describedEdges_inv _ _ _ Hedge)
      as (conn & Hconn & Hid & Hs & Hd & Hdiff).
    split; [exact Hdiff|]. exists event, conn. auto.
  - intros event conn Hevent Hconn Hdiff.
    rewrite Forall_forall in Hflow. specialize (Hflow _ Hevent).
    unfold flowAddressesAreStrings in Hflow. rewrite Hconn in Hflow.
    destruct Hflow as [Hs Hd].
    destruct (describedEdges_intro registry event conn Hconn
                (resolveIp_string _ _ Hnames Hs)
                (resolveIp_string _ _ Hnames Hd) Hdiff)
      as (edge & Hin & Hrest).
    exists edge. split; [|exact Hrest].
    apply in_flat_map. exists event. auto.
Qed.

(** The flow addresses that [extractConnectionInfo] returns are strings. *)
Lemma extractConnectionInfo_strings (event : value) (conn : ConnectionInfo) :
  extractConnectionInfo event = Ok (Some conn) ->
  isString (sourceIp conn) /\ isString (destIp conn).
Proof.
  unfold extractConnectionInfo. cbv zeta.
  generalize (getNestedString event "source.ip") as src.
  generalize (getNestedString event "destination.ip") as dst.
  intros dst src H.
  destruct (negb (truthy src) || negb (truthy dst)); [discriminate H|].
  bind_inv H. destruct a; [discriminate H|]. injection H as <-. simpl.
  destruct src, dst; unfold orb_lazy, strictEq, startsWith, bind in Ha;
    repeat match type of Ha with
           | context [if ?b then _ else _] => destruct b
           end;
    try discriminate Ha; simpl; auto.
Qed.

Lemma parseEvents_flow_strings (parseDate : string -> option Z)
  (JSON_parse : string -> option value) (now : Z) (input : value)
  (out : list CanonicalEvent) :
  parseEvents parseDate JSON_parse now input = Ok out ->
  Forall flowAddressesAreStrings out.
Proof.
  intros H. apply Forall_forall. intros e He.
  destruct (rawEventsOf JSON_parse input) as [records|err] eqn:Hraw.
  - destruct (parseEvents_In _ _ _ _ _ _ _ Hraw H He)
      as (index & rawEvent & _ & Hparse).
    apply parseEvent_some in Hparse.
    destruct Hparse as (_ & _ & Hconn & _).
    unfold flowAddressesAreStrings.
    destruct (ev_connection e) as [conn|]; [|exact I].
    eapply extractConnectionInfo_strings. eassumption.
  - unfold parseEvents in H. rewrite Hraw in H. discriminate H.
Qed.

(** C6.  A client at 192.168.1.100 with a flow to 192.168.1.200 and a server
    at 192.168.1.200 without a flow: the registry built from both resolves
    the two addresses, and connection identification returns exactly one
    edge, from ["client"] to ["server"].  This holds for the two events
    whatever their other fields are, and for the events that [parseEvents]
    returns for the two raw records of the scenario. *)
Theorem cross_host_connection (a b : CanonicalEvent) (flow : ConnectionInfo) :
  (exists registry edge,
     buildHostRegistry [clientEvent a flow; serverEvent b] = Ok registry
     /\ identifyConnections [clientEvent a flow; serverEvent b] registry
        = Ok [edge]
     /\ sourceHost edge = VStr "client"
     /\ destHost edge = VStr "server"
     /\ eventId edge = ev_id a)
  /\ (exists events registry edge,
        parseEvents isoDate noJson 0 (VArr [clientRecord; serverRecord])
        = Ok events
        /\ List.length events = 2%nat
        /\ buildHostRegistry events = Ok registry
        /\ identifyConnections events registry = Ok [edge]
        /\ sourceHost edge = VStr "client"
        /\ destHost edge = VStr "server").
Proof.
  split.
  - eexists. eexists. split; [vm_compute; reflexivity|].
    split; [vm_compute; reflexivity|]. simpl. auto.
  - eexists. eexists. eexists. split; [vm_compute; reflexivity|].
    split; [reflexivity|].
    split; [vm_compute; reflexivity|].
    split; [vm_compute; reflexivity|]. simpl. auto.
Qed.

(** ** The claims on concrete records *)

(** C2, as the design document states it, fails on an enveloped record whose
    payload has an explicit identifier: the event takes the identifier of
    the envelope. *)
Lemma payload_id_overridden_by_envelope :
  explicitId envelopeWithEventId = VStr "evt-1"
  /\ exists e,
       parseEvents isoDate noJson 0 (VArr [envelopeWithEventId]) = Ok [e]
       /\ ev_id e = VStr "abc123"
       /\ ev_id e <> explicitId envelopeWithEventId.
Proof.
  split; [reflexivity|]. eexists.
  split; [vm_compute; reflexivity|].
  split; [reflexivity | discriminate].
Qed.

(** C2 (amended) on a record without envelope or explicit identifier. *)
Lemma event_id_priority_witness :
  exists e,
    parseEvent isoDate 0 clientRecord 0 = Ok (Some e)
    /\ truthy (envelopeId clientRecord) = false
    /\ truthy (explicitId clientRecord) = false
    /\ ev_id e = VStr "1705314600000-client-0".
Proof.
  eexists. split; [vm_compute; reflexivity|].
  split; [reflexivity|]. split; [reflexivity|].
  destruct (event_id_priority isoDate 0 clientRecord 0 _ eq_refl)
    as (_ & _ & H).
  destruct (H eq_refl eq_refl) as (host & Hhost & Hid).
  vm_compute in Hhost. injection Hhost as <-. exact Hid.
Defined.

(** C3, as the design document states it, fails on a record that has only
    [event.end]: none of the four documented candidates is there, and the
    record is in the output. *)
Lemma event_end_is_a_candidate :
  firstNonEmpty onlyEventEnd documentedTimestampPaths = None
  /\ exists e,
       parseEvents isoDate noJson 0 (VArr [onlyEventEnd]) = Ok [e]
       /\ ev_timestamp e = 1705314600000%Z.
Proof.
  split; [reflexivity|]. eexists. split; [vm_compute; reflexivity|reflexivity].
Qed.

(** C3 (amended) on a batch of three: the record whose primary timestamp is
    not a date is dropped although its [event.created] is one. *)
Lemma timestamp_first_candidate_witness :
  exists out,
    rawEventsOf noJson (VArr [clientRecord; laterCandidateValid; onlyEventEnd])
    = Ok [clientRecord; laterCandidateValid; onlyEventEnd]
    /\ parseEvents isoDate noJson 0
         (VArr [clientRecord; laterCandidateValid; onlyEventEnd]) = Ok out
    /\ List.length out = 2%nat
    /\ firstNonEmpty (payloadOf laterCandidateValid) timestampPaths
       = Some (VStr "invalid-date")
    /\ getNestedValue laterCandidateValid "event.created" VNull
       = VStr sampleTime
    /\ parseEvent isoDate 0 laterCandidateValid 1 = Ok None.
Proof.
  destruct (parseEvents isoDate noJson 0
              (VArr [clientRecord; laterCandidateValid; onlyEventEnd]))
    as [out|err] eqn:Hout; [|vm_compute in Hout; discriminate Hout].
  exists out.
  destruct (timestamp_first_candidate isoDate noJson 0
              (VArr [clientRecord; laterCandidateValid; onlyEventEnd])
              [clientRecord; laterCandidateValid; onlyEventEnd] out
              eq_refl Hout)
    as (_ & _ & Hdrop).
  split; [reflexivity|]. split; [reflexivity|].
  split; [vm_compute in Hout; injection Hout as <-; reflexivity|].
  split; [reflexivity|]. split; [reflexivity|].
  apply Hdrop; [reflexivity|].
  right. exists (VStr "invalid-date"). split; reflexivity.
Defined.

(** C4, as the design document states it for every record, fails on
    addresses that are not strings.  With the number 5 as source address
    none of the listed reasons for [null] holds, and the extraction yields
    neither [null] nor a ConnectionInfo: it throws a [TypeError].  With the
    number 0 as source address, which is there and is none of the listed
    addresses, the extraction yields [null]. *)
Lemma non_string_address_breaks_extraction :
  getNestedString numericSourceAddress "source.ip" = VNum 5
  /\ getNestedString numericSourceAddress "destination.ip" = VStr "10.0.0.50"
  /\ ~ absent (getNestedString numericSourceAddress "source.ip")
  /\ ~ absent (getNestedString numericSourceAddress "destination.ip")
  /\ extractConnectionInfo numericSourceAddress = Throw TypeError
  /\ extractConnectionInfo numericSourceAddress <> Ok None
  /\ (forall conn, extractConnectionInfo numericSourceAddress <> Ok (Some conn))
  /\ getNestedString zeroSourceAddress "source.ip" = VNum 0
  /\ getNestedString zeroSourceAddress "destination.ip" = VStr "10.0.0.50"
  /\ ~ absent (getNestedString zeroSourceAddress "source.ip")
  /\ ~ absent (getNestedString zeroSourceAddress "destination.ip")
  /\ extractConnectionInfo zeroSourceAddress = Ok None.
Proof.
  assert (Hnumber : forall n, ~ absent (VNum n))
    by (intros n [H | [H | H]]; discriminate H).
  assert (Htext : ~ absent (VStr "10.0.0.50"))
    by (intros [H | [H | H]]; discriminate H).
  split; [reflexivity|]. split; [reflexivity|].
  split; [exact (Hnumber 5%Z)|]. split; [exact Htext|].
  split; [reflexivity|]. split; [discriminate|].
  split; [intros conn; discriminate|].
  split; [reflexivity|]. split; [reflexivity|].
  split; [exact (Hnumber 0%Z)|]. split; [exact Htext | reflexivity].
Qed.

(** C4 (amended) on the flow of the unit test: 192.168.1.100:54321 to
    10.0.0.50:443 over tcp. *)
Lemma connection_extraction_witness :
  (absent (getNestedString firewallFlow "source.ip")
   \/ isString (getNestedString firewallFlow "source.ip"))
  /\ (absent (getNestedString firewallFlow "destination.ip")
      \/ isString (getNestedString firewallFlow "destination.ip"))
  /\ exists conn,
       extractConnectionInfo firewallFlow = Ok (Some conn)
       /\ sourceIp conn = VStr "192.168.1.100"
       /\ destIp conn = VStr "10.0.0.50"
       /\ destPort conn = VNum 443
       /\ protocol conn = VStr "tcp".
Proof.
  assert (Hs : absent (getNestedString firewallFlow "source.ip")
               \/ isString (getNestedString firewallFlow "source.ip"))
    by (right; exact I).
  assert (Hd : absent (getNestedString firewallFlow "destination.ip")
               \/ isString (getNestedString firewallFlow "destination.ip"))
    by (right; exact I).
  split; [exact Hs|]. split; [exact Hd|].
  destruct (connection_extraction firewallFlow Hs Hd) as [_ Hsome].
  destruct Hsome as (conn & Hconn & Hsrc & Hdst & _ & Hport & Hproto & _).
  - discriminate.
  - exists conn. split; [exact Hconn|]. split; [exact Hsrc|].
    split; [exact Hdst|]. split; [exact Hport|].
    apply Hproto. intros [H | [H | H]]; discriminate H.
Defined.

(** C5 on the events of the cross-host scenario. *)
Lemma identifyConnections_edges_witness :
  exists registry edges,
    buildHostRegistry sampleEvents = Ok registry
    /\ Forall flowAddressesAreStrings sampleEvents
    /\ identifyConnections sampleEvents registry = Ok edges
    /\ edges = flat_map (describedEdges registry) sampleEvents
    /\ (forall edge, In edge edges ->
        ~ sameHost (sourceHost edge) (destHost edge)).
Proof.
  destruct (buildHostRegistry sampleEvents) as [registry|err] eqn:Hbuild;
    [|vm_compute in Hbuild; discriminate Hbuild].
  assert (Hflow : Forall flowAddressesAreStrings sampleEvents)
    by (repeat constructor).
  destruct (identifyConnections_edges sampleEvents registry Hbuild Hflow)
    as (edges & Hedges & Hdescribed & Hsound & _).
  exists registry, edges. repeat split; auto.
  intros edge Hin. apply (Hsound edge Hin).
Defined.

(** C8, as the design document states it, fails on two enveloped records
    with one envelope identifier: both events are returned, with that
    identifier. *)
Lemma duplicate_envelope_ids :
  exists e1 e2,
    parseEvents isoDate noJson 0 (VArr sameEnvelopeTwice) = Ok [e1; e2]
    /\ ev_id e1 = VStr "abc123"
    /\ ev_id e1 = ev_id e2.
Proof.
  eexists. eexists. split; [vm_compute; reflexivity|]. split; reflexivity.
Qed.

(** C8 (amended) on the two records of the cross-host scenario. *)
Lemma synthesized_ids_distinct_witness :
  exists ep eq,
    rawEventsOf noJson (VArr [clientRecord; serverRecord])
    = Ok [clientRecord; serverRecord]
    /\ parseEvents isoDate noJson 0 (VArr [clientRecord; serverRecord])
       = Ok [ep; eq]
    /\ synthesized clientRecord
    /\ synthesized serverRecord
    /\ ev_id ep = VStr "1705314600000-client-0"
    /\ ev_id eq = VStr "1705314660000-server-1"
    /\ exists i j ri rj,
         i <> j
         /\ nth_error [clientRecord; serverRecord] i = Some ri
         /\ nth_error [clientRecord; serverRecord] j = Some rj
         /\ parseEvent isoDate 0 ri i = Ok (Some ep)
         /\ parseEvent isoDate 0 rj j = Ok (Some eq)
         /\ (synthesized ri -> synthesized rj -> ev_id ep <> ev_id eq).
Proof.
  destruct (parseEvents isoDate noJson 0 (VArr [clientRecord; serverRecord]))
    as [out|err] eqn:Hout; [|vm_compute in Hout; discriminate Hout].
  assert (Hshape : exists ep eq, out = [ep; eq]
            /\ ev_id ep = VStr "1705314600000-client-0"
            /\ ev_id eq = VStr "1705314660000-server-1").
  { vm_compute in Hout. injection Hout as <-.
    eexists. eexists. repeat split. }
  destruct Hshape as (ep & eq & -> & Hp & Hq).
  exists ep, eq.
  split; [reflexivity|]. split; [reflexivity|].
  split; [split; reflexivity|]. split; [split; reflexivity|].
  split; [exact Hp|]. split; [exact Hq|].
  apply (synthesized_ids_distinct isoDate noJson 0
           (VArr [clientRecord; serverRecord]) [clientRecord; serverRecord]
           [ep; eq] 0 1 ep eq eq_refl Hout);
    [discriminate | reflexivity | reflexivity].
Defined.

(** C9 on a named host whose [host.ip] is [[]] and whose observer address is
    populated. *)
Lemma empty_array_shadows_witness :
  Forall (fun p => absent (getNestedValue emptyHostIp p VNull)) []
  /\ getNestedValue emptyHostIp "host.ip" VNull = VArr []
  /\ getNestedValue emptyHostIp "observer.ip" VNull = VStr "10.0.0.1"
  /\ getFirstValue emptyHostIp ["host.ip"; "observer.ip"] VNull = VArr []
  /\ getFirstString emptyHostIp ["host.ip"; "observer.ip"] = VNull
  /\ ip (extractHostIdentifier emptyHostIp) = VNull.
Proof.
  split; [constructor|]. split; [reflexivity|]. split; [reflexivity|].
  destruct (empty_array_shadows emptyHostIp [] "host.ip" ["observer.ip"]
              VNull (Forall_nil _) eq_refl) as (Hvalue & Hstring & Hip).
  split; [exact Hvalue|]. split; [exact Hstring|].
  apply Hip; reflexivity.
Defined.

(** C10 on a record whose [@timestamp] is 0 and whose [event.created] is a
    valid date. *)
Lemma epoch_zero_dropped_witness :
  firstNonEmpty (payloadOf epochRecord) timestampPaths = Some (VNum 0)
  /\ getNestedValue epochRecord "event.created" VNull = VStr sampleTime
  /\ isoDate sampleTime = Some 1705314600000%Z
  /\ toDate isoDate (VNum 0) = Ok (Some 0%Z)
  /\ parseTimestamp isoDate (payloadOf epochRecord) = Ok None
  /\ parseEvent isoDate 0 epochRecord 0 = Ok None
  /\ parseEvents isoDate noJson 0 (VArr [epochRecord]) = Ok [].
Proof.
  split; [reflexivity|]. split; [reflexivity|].
  split; [vm_compute; reflexivity|].
  exact (epoch_zero_dropped isoDate noJson 0 epochRecord 0 eq_refl).
Defined.

(** ** The unit tests of the repository, on the model

    [test/parser.test.js], with [isoDate] for [Date.parse]. *)

Example test_simple_event :
  map (fun e => (hostname (ev_host e), ev_category e, ev_timestamp e))
      (parsed [VObj [("@timestamp", VStr sampleTime);
                     ("host", VObj [("hostname", VStr "webserver-01")]);
                     ("event",
                      VObj [("category", VArr [VStr "network"]);
                            ("action", VStr "connection_established")])]])
  = [(VStr "webserver-01", Category "network", 1705314600000%Z)].
Proof. vm_compute. reflexivity. Qed.

Example test_skip_invalid_timestamps :
  map (fun e => hostname (ev_host e))
      (parsed [hostOnly sampleTime "server1";
               VObj [("host", VObj [("hostname", VStr "server2")])];
               hostOnly "invalid-date" "server3"])
  = [VStr "server1"].
Proof. vm_compute. reflexivity. Qed.

Example test_source_wrapper :
  map (fun e => (ev_id e, hostname (ev_host e)))
      (parsed [VObj [("_id", VStr "abc123");
                     ("_source", hostOnly sampleTime "es-host")]])
  = [(VStr "abc123", VStr "es-host")].
Proof. vm_compute. reflexivity. Qed.

Example test_array_valued_fields :
  map (fun e => (hostname (ev_host e), ip (ev_host e)))
      (parsed [VObj [("@timestamp", VStr sampleTime);
                     ("host",
                      VObj [("hostname", VArr [VStr "server-01"]);
                            ("ip", VArr [VStr "192.168.1.100";
                                         VStr "10.0.0.100"])])]])
  = [(VStr "server-01", VStr "192.168.1.100")].
Proof. vm_compute. reflexivity. Qed.

Example test_categories :
  map ev_category
      (parsed [withCategory "firewall" "network";
               withCategory "dc01" "authentication";
               withCategory "workstation" "process";
               withCategory "ids-sensor" "intrusion_detection";
               withCategory "server" "custom_category"])
  = [Category "network"; Category "authentication"; Category "process";
     Category "network"; Category "other"].
Proof. vm_compute. reflexivity. Qed.

Example test_skip_localhost_and_same_ip :
  map ev_connection
      (parsed [flowBetween "127.0.0.1" "127.0.0.1";
               flowBetween "192.168.1.100" "192.168.1.100"])
  = [None; None].
Proof. vm_compute. reflexivity. Qed.

Example test_registry_from_events :
  match buildHostRegistry
          (parsed [hostWithIp sampleTime "server-01" "192.168.1.10";
                   hostWithIp "2024-01-15T10:31:00.000Z" "server-01"
                              "192.168.1.10";
                   hostWithIp "2024-01-15T10:32:00.000Z" "server-02"
                              "192.168.1.20"]) with
  | Ok registry =>
      map (fun entry => (entryHostname entry, ips entry)) (getHostList registry)
      = [(VStr "server-01", [VStr "192.168.1.10"]);
         (VStr "server-02", [VStr "192.168.1.20"])]
  | Throw _ => False
  end.
Proof. vm_compute. reflexivity. Qed.

Example test_resolve_ip :
  match buildHostRegistry
          (parsed [hostWithIp sampleTime "web-server" "10.0.0.100"]) with
  | Ok registry =>
      resolveIp registry (VStr "10.0.0.100") = VStr "web-server"
      /\ resolveIp registry (VStr "10.0.0.200") = VStr "10.0.0.200"
  | Throw _ => False
  end.
Proof. vm_compute. split; reflexivity. Qed.

Example test_getNestedValue :
  getNestedValue
    (VObj [("a", VObj [("b", VObj [("c", VStr "value")])])]) "a.b.c" VNull
  = VStr "value"
  /\ getNestedValue (VObj [("a", VObj [("b", VNum 1)])]) "a.c.d"
       (VStr "default") = VStr "default"
  /\ getNestedValue VNull "a.b" VNull = VNull
  /\ getNestedValue VUndefined "a.b" (VStr "default") = VStr "default".
Proof. repeat split. Qed.

(** No segment of a path that the module reads names a member of
    [Object.prototype]: reading own properties only, [getProp] finds what
    the property access of the language finds. *)
Lemma paths_avoid_object_prototype :
  forallb (fun path =>
             forallb (fun key =>
                        negb (existsb (String.eqb key) objectPrototypeMembers))
                     (split "." path))
          pathsRead = true.
Proof. vm_compute. reflexivity. Qed.

(** Two different raw addresses that resolve to one hostname up to case
    give no edge. *)
Example intra_host_flow_gives_no_edge :
  match buildHostRegistry (parsed [intraHostFlow]) with
  | Ok registry =>
      map (fun e => option_map (fun c => (sourceIp c, destIp c))
                               (ev_connection e))
          (parsed [intraHostFlow])
      = [Some (VStr "10.0.0.1", VStr "10.0.0.2")]
      /\ resolveIp registry (VStr "10.0.0.1") = VStr "Gateway"
      /\ resolveIp registry (VStr "10.0.0.2") = VStr "Gateway"
      /\ identifyConnections (parsed [intraHostFlow]) registry = Ok []
  | Throw _ => False
  end.
Proof. vm_compute. repeat split. Qed.

(** ** More about the parser *)

(** X1.  The host identity of a record always names a lane: its hostname is
    truthy and is its display name, and its address is [null] or truthy;
    when no name field is found, the lane is named by the address. *)
Theorem host_identity_names_a_lane (event : value) :
  truthy (hostname (extractHostIdentifier event)) = true
  /\ displayName (extractHostIdentifier event)
     = hostname (extractHostIdentifier event)
  /\ (ip (extractHostIdentifier event) = VNull
      \/ truthy (ip (extractHostIdentifier event)) = true)
  /\ (truthy (getFirstString event hostnamePaths) = false ->
      ip (extractHostIdentifier event) <> VNull ->
      hostname (extractHostIdentifier event) = ip (extractHostIdentifier event)).
Proof.
  unfold extractHostIdentifier, orv.
  destruct (truthy (getFirstString event hostnamePaths)) eqn:Hname;
  destruct (truthy (getFirstString event ipPaths)) eqn:Hip; cbn [orb];
    try (rewrite ?Hname, ?Hip; cbn; repeat split; auto; congruence).
  destruct (truthy (getNestedString event "source.ip")) eqn:Hs;
    [cbn; repeat split; auto|].
  destruct (truthy (getNestedString event "destination.ip")) eqn:Hd;
    cbn; repeat split; auto; congruence.
Qed.

Lemma append_not_empty (a b : string) : (a ++ String "-" b =? "") = false.
Proof. destruct a; reflexivity. Qed.

(** X2.  The identifier of a returned event is truthy: never [null],
    [undefined] or the empty string. *)
Theorem event_id_is_truthy (parseDate : string -> option Z) (now : Z)
  (rawEvent : value) (index : nat) (e : CanonicalEvent) :
  parseEvent parseDate now rawEvent index = Ok (Some e) ->
  truthy (ev_id e) = true.
Proof.
  intros H. apply parseEvent_some in H.
  destruct H as (_ & _ & _ & _ & _ & Hid).
  destruct (truthy (envelopeId rawEvent)) eqn:Henv; [congruence|].
  unfold generateEventId in Hid.
  destruct (truthy (getNestedValue (payloadOf rawEvent) "event.id" VNull))
    eqn:Hexp; [congruence|].
  bind_inv Hid. injection Hid as <-. cbn [truthy].
  change (numToString (ev_timestamp e) ++ "-" ++ a ++ "-" ++ natToString index)
    with (numToString (ev_timestamp e)
          ++ String "-" (a ++ "-" ++ natToString index)).
  rewrite append_not_empty. reflexivity.
Qed.

Lemma event_id_is_truthy_witness :
  exists e,
    parseEvent isoDate 0 envelopeWithEventId 0 = Ok (Some e)
    /\ truthy (ev_id e) = true.
Proof.
  destruct (parseEvent isoDate 0 envelopeWithEventId 0) as [[e|]|err] eqn:H;
    [|vm_compute in H; discriminate H|vm_compute in H; discriminate H].
  exists e. split; [reflexivity|].
  exact (event_id_is_truthy isoDate 0 envelopeWithEventId 0 e H).
Defined.

Lemma mapIndexed_survivors (parseDate : string -> option Z) (now : Z)
  (records : list value) :
  forall index parsed,
    mapIndexed (parseEvent parseDate now) records index = Ok parsed ->
    subsequence (map ev_raw (filterBoolean parsed)) (map payloadOf records).
Proof.
  induction records as [|r rest IH]; simpl; intros index parsed H.
  - injection H as <-. constructor.
  - bind_inv H. bind_inv H. injection H as <-.
    specialize (IH _ _ Ha0).
    destruct a as [e|]; simpl.
    + destruct (parseEvent_some _ _ _ _ _ Ha) as (_ & _ & _ & _ & Hraw & _).
      rewrite Hraw. apply subsequence_keep. exact IH.
    + apply subsequence_skip. exact IH.
Qed.

Lemma filterBoolean_length {A : Type} (l : list (option A)) :
  (List.length (filterBoolean l) <= List.length l)%nat.
Proof.
  induction l as [|[x|] rest IH]; simpl; lia.
Qed.

(** X3.  The output keeps the input order: the payloads of the returned
    events are the payloads of the batch with some left out, so the output
    is never longer than the batch. *)
Theorem parseEvents_keeps_order (parseDate : string -> option Z)
  (JSON_parse : string -> option value) (now : Z) (input : value)
  (records : list value) (out : list CanonicalEvent) :
  rawEventsOf JSON_parse input = Ok records ->
  parseEvents parseDate JSON_parse now input = Ok out ->
  subsequence (map ev_raw out) (map payloadOf records)
  /\ (List.length out <= List.length records)%nat.
Proof.
  unfold parseEvents. intros Hraw H. rewrite Hraw in H. cbn [bind] in H.
  bind_inv H. injection H as <-. split.
  - eapply mapIndexed_survivors. eassumption.
  - rewrite <- (mapIndexed_length _ _ _ _ Ha). apply filterBoolean_length.
Qed.

Lemma parseEvents_keeps_order_witness :
  exists out,
    rawEventsOf noJson (VArr [clientRecord; laterCandidateValid; serverRecord])
    = Ok [clientRecord; laterCandidateValid; serverRecord]
    /\ parseEvents isoDate noJson 0
         (VArr [clientRecord; laterCandidateValid; serverRecord]) = Ok out
    /\ map ev_raw out = [clientRecord; serverRecord]
    /\ subsequence (map ev_raw out)
         (map payloadOf [clientRecord; laterCandidateValid; serverRecord]).
Proof.
  destruct (parseEvents isoDate noJson 0
              (VArr [clientRecord; laterCandidateValid; serverRecord]))
    as [out|err] eqn:Hout; [|vm_compute in Hout; discriminate Hout].
  exists out.
  pose proof (parseEvents_keeps_order isoDate noJson 0
                (VArr [clientRecord; laterCandidateValid; serverRecord])
                [clientRecord; laterCandidateValid; serverRecord] out
                eq_refl Hout) as [Hsub _].
  split; [reflexivity|]. split; [reflexivity|]. split; [|exact Hsub].
  vm_compute in Hout. injection Hout as <-. reflexivity.
Defined.

(** ** Exceptions of the parser *)

Lemma value_ind_items (P : value -> Prop) :
  P VUndefined -> P VNull ->
  (forall b, P (VBool b)) -> (forall n, P (VNum n)) -> (forall s, P (VStr s)) ->
  (forall items, Forall P items -> P (VArr items)) ->
  (forall fields, P (VObj fields)) ->
  forall v, P v.
Proof.
  intros Hu Hn Hb Hz Hs Ha Ho.
  fix IH 1. intros [ | | b | n | s | items | fields];
    [exact Hu | exact Hn | apply Hb | apply Hz | apply Hs | | apply Ho].
  apply Ha.
  exact ((fix all (l : list value) : Forall P l :=
            match l with
            | [] => Forall_nil P
            | x :: rest => Forall_cons x (IH x) (all rest)
            end) items).
Qed.

Lemma bind_throw {A B : Type} (c : result A) (k : A -> result B) (e : error) :
  bind c k = Throw e -> c = Throw e \/ exists a, c = Ok a /\ k a = Throw e.
Proof.
  destruct c as [a|e']; simpl; intros H; [right; eauto | left; congruence].
Qed.

Lemma toStr_throws (v : value) (e : error) :
  toStr v = Throw e -> e = TypeError.
Proof.
  revert e. induction v using value_ind_items; intros e; simpl;
    try discriminate.
  - destruct b; discriminate.
  - induction H as [|x rest Hx _ IH]; [discriminate|].
    intros Hjoin. apply bind_throw in Hjoin.
    destruct Hjoin as [Hhead | (s & _ & Hrest)].
    + destruct x; try discriminate Hhead; eapply Hx; exact Hhead.
    + destruct rest as [|y rest']; [discriminate Hrest|].
      apply bind_throw in Hrest.
      destruct Hrest as [Hrest | (r & _ & Hrest)]; [|discriminate Hrest].
      apply IH. exact Hrest.
  - destruct (hasOwn "toString" fields); [intros [= <-]; reflexivity|].
    discriminate.
Qed.

Ltac throw_cases :=
  match goal with
  | H : Ok _ = Throw _ |- _ => discriminate H
  | H : Throw _ = Throw _ |- _ => injection H as <-; reflexivity
  | H : toStr _ = Throw _ |- _ => exact (toStr_throws _ _ H)
  | H : bind _ _ = Throw _ |- _ =>
      apply bind_throw in H; destruct H as [H | (? & _ & H)]; throw_cases
  | H : (if ?b then _ else _) = Throw _ |- _ => destruct b; throw_cases
  | H : match ?x with _ => _ end = Throw _ |- _ => destruct x; throw_cases
  end.

Lemma extractCategory_throws (event : value) (e : error) :
  extractCategory event = Throw e -> e = TypeError.
Proof. unfold extractCategory. intros H. throw_cases. Qed.

Lemma extractConnectionInfo_throws (event : value) (e : error) :
  extractConnectionInfo event = Throw e -> e = TypeError.
Proof.
  unfold extractConnectionInfo, orb_lazy, startsWith. intros H. throw_cases.
Qed.

Lemma extractSummary_throws (event : value) (e : error) :
  extractSummary event = Throw e -> e = TypeError.
Proof.
  unfold extractSummary, appendStr, toUpperCase. intros H. throw_cases.
Qed.

Lemma generateEventId_throws (now : Z) (event : value) (t : option Z)
  (index : nat) (e : error) :
  generateEventId now event t index = Throw e -> e = TypeError.
Proof. unfold generateEventId. intros H. throw_cases. Qed.

Lemma parseTimestamp_throws (parseDate : string -> option Z) (event : value)
  (e : error) :
  parseTimestamp parseDate event = Throw e -> e = TypeError.
Proof.
  unfold parseTimestamp, toDate. intros H.
  destruct (truthy _); [|discriminate H].
  destruct (getFirstValue event timestampPaths VNull); try discriminate H;
    throw_cases.
Qed.

(** Whatever [parseEvent] throws is a [TypeError]. *)
Lemma parseEvent_throws (parseDate : string -> option Z) (now : Z)
  (rawEvent : value) (index : nat) (e : error) :
  parseEvent parseDate now rawEvent index = Throw e -> e = TypeError.
Proof.
  intros H.
  destruct rawEvent; try (injection H as <-; reflexivity);
    cbv beta iota zeta delta [parseEvent] in H;
    (apply bind_throw in H; destruct H as [H | (ts & _ & H)];
     [exact (parseTimestamp_throws _ _ _ H)|];
     destruct ts as [ts|]; [|discriminate H];
     apply bind_throw in H; destruct H as [H | (? & _ & H)];
     [exact (extractCategory_throws _ _ H)|];
     apply bind_throw in H; destruct H as [H | (? & _ & H)];
     [exact (extractConnectionInfo_throws _ _ H)|];
     apply bind_throw in H; destruct H as [H | (? & _ & H)];
     [exact (extractSummary_throws _ _ H)|];
     apply bind_throw in H; destruct H as [H | (? & _ & H)];
     [|discriminate H];
     destruct (truthy _); [discriminate H|];
     exact (generateEventId_throws _ _ _ _ _ H)).
Qed.

Lemma mapIndexed_throws {A B : Type} (f : A -> nat -> result B) (l : list A) :
  forall k e, mapIndexed f l k = Throw e ->
  exists i x, nth_error l i = Some x /\ f x (k + i) = Throw e.
Proof.
  induction l as [|x rest IH]; simpl; intros k e H; [discriminate H|].
  apply bind_throw in H. destruct H as [H | (y & _ & H)].
  - exists 0%nat, x. rewrite Nat.add_0_r. auto.
  - apply bind_throw in H. destruct H as [H | (ys & _ & H)]; [|discriminate H].
    destruct (IH _ _ H) as (i & x' & Hi & Hf).
    exists (S i), x'. rewrite <- Nat.add_succ_comm. auto.
Qed.

(** X4.  A batch is parsed as a whole or not at all: when [parseEvent]
    throws on one record of the batch, [parseEvents] throws a [TypeError]
    and returns none of the other records. *)
Theorem one_throwing_record_aborts_the_batch
  (parseDate : string -> option Z) (JSON_parse : string -> option value)
  (now : Z) (input : value) (records : list value) (index : nat)
  (rawEvent : value) (e : error) :
  rawEventsOf JSON_parse input = Ok records ->
  nth_error records index = Some rawEvent ->
  parseEvent parseDate now rawEvent index = Throw e ->
  parseEvents parseDate JSON_parse now input = Throw TypeError.
Proof.
  unfold parseEvents. intros Hraw Hindex Hthrow. rewrite Hraw. cbn [bind].
  destruct (mapIndexed (parseEvent parseDate now) records 0)
    as [parsed|e'] eqn:Hmap; cbn [bind].
  - destruct (mapIndexed_nth _ _ _ _ Hmap _ _ Hindex) as (y & _ & Hy).
    simpl in Hy. congruence.
  - destruct (mapIndexed_throws _ _ _ _ Hmap) as (i & x & _ & Hx).
    apply parseEvent_throws in Hx. congruence.
Qed.

Lemma one_throwing_record_aborts_the_batch_witness :
  rawEventsOf noJson (VArr [clientRecord; numericUserName; serverRecord])
  = Ok [clientRecord; numericUserName; serverRecord]
  /\ nth_error [clientRecord; numericUserName; serverRecord] 1
     = Some numericUserName
  /\ parseEvent isoDate 0 numericUserName 1 = Throw TypeError
  /\ parseEvents isoDate noJson 0
       (VArr [clientRecord; numericUserName; serverRecord]) = Throw TypeError.
Proof.
  assert (H : parseEvent isoDate 0 numericUserName 1 = Throw TypeError)
    by (vm_compute; reflexivity).
  split; [reflexivity|]. split; [reflexivity|]. split; [exact H|].
  exact (one_throwing_record_aborts_the_batch isoDate noJson 0
           (VArr [clientRecord; numericUserName; serverRecord])
           [clientRecord; numericUserName; serverRecord] 1 numericUserName
           TypeError eq_refl eq_refl H).
Defined.

(** X5.  A user name that is truthy and not a string makes
    [extractSummary] throw a [TypeError]: [toUpperCase] is not a method of
    it. *)
Theorem summary_needs_a_string_user_name (event : value) :
  truthy (getNestedString event "user.name") = true ->
  ~ isString (getNestedString event "user.name") ->
  extractSummary event = Throw TypeError.
Proof.
  intros Htruthy Hstring.
  destruct (extractSummary event) as [summary|e] eqn:H.
  - exfalso. unfold extractSummary in H.
    do 5 bind_inv H. bind_inv H.
    rewrite Htruthy in Ha4. bind_inv Ha4.
    destruct (getNestedString event "user.name");
      try discriminate Ha5. apply Hstring. exact I.
  - f_equal. eapply extractSummary_throws. exact H.
Qed.

Lemma summary_needs_a_string_user_name_witness :
  truthy (getNestedString numericUserName "user.name") = true
  /\ ~ isString (getNestedString numericUserName "user.name")
  /\ extractSummary numericUserName = Throw TypeError.
Proof.
  assert (Ht : truthy (getNestedString numericUserName "user.name") = true)
    by reflexivity.
  assert (Hs : ~ isString (getNestedString numericUserName "user.name"))
    by (intros H; exact H).
  split; [exact Ht|]. split; [exact Hs|].
  exact (summary_needs_a_string_user_name numericUserName Ht Hs).
Defined.

(** X6.  Outside the strings, connection extraction throws: when both
    addresses are truthy, one of them is not a string, and none of the
    tests that come before [startsWith] holds, the result is a
    [TypeError]. *)
Theorem connection_needs_string_addresses (event : value) :
  truthy (getNestedString event "source.ip") = true ->
  truthy (getNestedString event "destination.ip") = true ->
  ~ isString (getNestedString event "source.ip")
  \/ ~ isString (getNestedString event "destination.ip") ->
  strictEq (getNestedString event "source.ip")
           (getNestedString event "destination.ip") = false ->
  getNestedString event "source.ip" <> VStr "127.0.0.1" ->
  getNestedString event "destination.ip" <> VStr "127.0.0.1" ->
  (forall rest, getNestedString event "source.ip" <> VStr ("::1" ++ rest)) ->
  extractConnectionInfo event = Throw TypeError.
Proof.
  unfold extractConnectionInfo. cbv zeta.
  generalize (getNestedString event "source.ip") as src.
  generalize (getNestedString event "destination.ip") as dst.
  intros dst src Hs Hd Hnot Heq Hsl Hdl Hprefix.
  rewrite Hs, Hd, Heq. cbn [negb orb orb_lazy].
  assert (Hs' : strictEq src (VStr "127.0.0.1") = false).
  { destruct src; try reflexivity. simpl.
    apply String.eqb_neq. congruence. }
  assert (Hd' : strictEq dst (VStr "127.0.0.1") = false).
  { destruct dst; try reflexivity. simpl.
    apply String.eqb_neq. congruence. }
  rewrite Hs', Hd'. cbn [orb_lazy].
  destruct src; try reflexivity. cbn [startsWith bind].
  destruct (prefix "::1" s) eqn:Hp.
  - apply prefix_append in Hp. destruct Hp as (rest & ->).
    exfalso. eapply Hprefix. reflexivity.
  - cbn [orb_lazy]. destruct dst; try reflexivity.
    exfalso. destruct Hnot as [H|H]; apply H; exact I.
Qed.

Lemma connection_needs_string_addresses_witness :
  truthy (getNestedString numericSourceAddress "source.ip") = true
  /\ ~ isString (getNestedString numericSourceAddress "source.ip")
  /\ extractConnectionInfo numericSourceAddress = Throw TypeError.
Proof.
  split; [reflexivity|]. split; [intros H; exact H|].
  apply connection_needs_string_addresses;
    try reflexivity; try discriminate.
  left. intros H. exact H.
Defined.

(** ** Sets and maps keyed by values *)

Lemma strictEq_eq (a b : value) : strictEq a b = true -> a = b.
Proof.
  destruct a, b; simpl; try discriminate; intros H; try reflexivity.
  - apply Bool.eqb_prop in H. congruence.
  - apply Z.eqb_eq in H. congruence.
  - apply String.eqb_eq in H. congruence.
Qed.

Lemma strictEq_refl (a : value) : isPrimitive a -> strictEq a a = true.
Proof.
  destruct a; simpl; try contradiction; intros _; auto.
  - apply Bool.eqb_reflx.
  - apply Z.eqb_refl.
  - apply String.eqb_refl.
Qed.

Lemma strictEq_sym (a b : value) : strictEq a b = strictEq b a.
Proof.
  destruct a, b; simpl; try reflexivity.
  - destruct b, b0; reflexivity.
  - apply Z.eqb_sym.
  - apply String.eqb_sym.
Qed.

Lemma setHas_setAdd (x y : value) (s : list value) :
  setHas x (setAdd y s) = setHas x s || strictEq x y.
Proof.
  unfold setHas, setAdd.
  destruct (existsb (strictEq y) s) eqn:Hy.
  - destruct (strictEq x y) eqn:Hxy; [|now rewrite orb_false_r].
    apply strictEq_eq in Hxy. subst. rewrite Hy. reflexivity.
  - rewrite existsb_app. simpl. now rewrite orb_false_r.
Qed.

Lemma setHas_fold (x : value) (l s : list value) :
  setHas x (fold_left (fun s y => setAdd y s) l s)
  = setHas x s || existsb (strictEq x) l.
Proof.
  revert s. induction l as [|y rest IH]; intros s; simpl.
  - now rewrite orb_false_r.
  - rewrite IH, setHas_setAdd. now rewrite orb_assoc.
Qed.

(** A set built from an array holds what the array holds. *)
Lemma setHas_setOf (x : value) (l : list value) :
  setHas x (setOf l) = existsb (strictEq x) l.
Proof. unfold setOf. rewrite setHas_fold. reflexivity. Qed.

Lemma mapGet_mapSet {A : Type} (a key : value) (v : A) (m : list (value * A)) :
  mapGet a (mapSet key v m) = if strictEq key a then Some v else mapGet a m.
Proof.
  induction m as [|[k' v'] rest IH]; simpl.
  - reflexivity.
  - destruct (strictEq k' key) eqn:Hk; simpl.
    + apply strictEq_eq in Hk. subst k'.
      destruct (strictEq key a); reflexivity.
    + rewrite IH. destruct (strictEq k' a) eqn:Ha; [|reflexivity].
      apply strictEq_eq in Ha. subst k'.
      rewrite strictEq_sym, Hk. reflexivity.
Qed.

Lemma lookup_not_In {A : Type} (k : string) (l : list (string * A)) :
  lookup k l = None <-> ~ In k (map fst l).
Proof.
  induction l as [|[k' v] rest IH]; simpl.
  - tauto.
  - destruct (String.eqb_spec k' k) as [->|Hneq].
    + split; [discriminate | tauto].
    + rewrite IH. tauto.
Qed.

Lemma lookup_NoDup {A : Type} (k : string) (v : A) (l : list (string * A)) :
  NoDup (map fst l) -> In (k, v) l -> lookup k l = Some v.
Proof.
  induction l as [|[k' v'] rest IH]; simpl; intros Hnd Hin; [contradiction|].
  inversion Hnd as [|? ? Hnotin Hnd']; subst.
  destruct Hin as [[= -> ->] | Hin].
  - now rewrite String.eqb_refl.
  - destruct (String.eqb_spec k' k) as [->|Hneq]; [|auto].
    exfalso. apply Hnotin. apply (in_map fst) in Hin. exact Hin.
Qed.

(** ** The host registry *)

Lemma ensureHost_In (key : string) (name display : value)
  (registry : list (string * HostEntry)) (k : string) (e : HostEntry) :
  In (k, e) (ensureHost key name display registry) ->
  In (k, e) registry \/ (k = key /\ e = mkEntry name [] display).
Proof.
  unfold ensureHost. destruct (hasOwn key registry); [auto|].
  intros H. apply in_app_or in H. destruct H as [H | [[= <- <-] | []]]; auto.
Qed.

Lemma ensureHost_keys (key : string) (name display : value)
  (registry : list (string * HostEntry)) :
  NoDup (map fst registry) ->
  NoDup (map fst (ensureHost key name display registry)).
Proof.
  unfold ensureHost, hasOwn. intros Hnd.
  destruct (lookup key registry) eqn:Hl; [exact Hnd|].
  apply lookup_not_In in Hl.
  rewrite map_app. simpl. apply NoDup_app; [exact Hnd | | ].
  - repeat constructor. simpl. tauto.
  - intros x Hx [<- | []]. contradiction.
Qed.

Lemma addIp_keys (key : string) (address : value)
  (registry : list (string * HostEntry)) :
  map fst (addIp key address registry) = map fst registry.
Proof.
  induction registry as [|[k e] rest IH]; simpl; [reflexivity|].
  destruct (k =? key); simpl; [reflexivity | now rewrite IH].
Qed.

Lemma addIp_In (key : string) (address : value)
  (registry : list (string * HostEntry)) (k : string) (e' : HostEntry) :
  In (k, e') (addIp key address registry) ->
  exists e,
    In (k, e) registry
    /\ entryHostname e' = entryHostname e
    /\ (ips e' = ips e \/ (k = key /\ ips e' = setAdd address (ips e))).
Proof.
  induction registry as [|[k0 e0] rest IH]; simpl; [contradiction|].
  destruct (String.eqb_spec k0 key) as [->|Hneq]; simpl.
  - intros [[= <- <-] | H].
    + exists e0. simpl. auto.
    + exists e'. auto.
  - intros [[= <- <-] | H].
    + exists e0. auto.
    + destruct (IH H) as (e & Hin & Hrest). exists e. auto.
Qed.

(** What a step of the first pass does to the registry: it files hosts
    under their lower-case names and adds addresses of the event. *)
Lemma collectHost_preserves (P : list (string * HostEntry) -> Prop)
  (event : CanonicalEvent) :
  (forall key name display registry,
      toLowerCase name = Ok key -> P registry ->
      P (ensureHost key name display registry)) ->
  (forall key address registry,
      eventAddress event address -> P registry ->
      P (addIp key address registry)) ->
  forall registry registry',
    P registry -> collectHost event registry = Ok registry' -> P registry'.
Proof.
  intros Hensure Hadd registry registry' Hreg H.
  unfold collectHost in H. bind_inv H.
  assert (Ha' : P a).
  { destruct (negb (strictEq (hostname (ev_host event)) (VStr "Unknown")));
      [|congruence].
    bind_inv Ha. injection Ha as <-.
    destruct (truthy (ip (ev_host event))).
    - apply Hadd; [left; reflexivity|]. apply Hensure; assumption.
    - apply Hensure; assumption. }
  destruct (ev_connection event) as [connection|] eqn:Hconn; [|congruence].
  bind_inv H.
  assert (Ha1 : P a0).
  { destruct (truthy (sourceHostname connection)); [|congruence].
    bind_inv Ha0. injection Ha0 as <-.
    apply Hadd; [right; exists connection; auto|].
    apply Hensure; assumption. }
  destruct (truthy (destHostname connection)); [|congruence].
  bind_inv H. injection H as <-.
  apply Hadd; [right; exists connection; auto|].
  apply Hensure; assumption.
Qed.

Lemma forEach_invariant_in {A S : Type} (P : S -> Prop)
  (f : A -> S -> result S) (l : list A) :
  (forall x s s', In x l -> P s -> f x s = Ok s' -> P s') ->
  forall s s', P s -> forEach f l s = Ok s' -> P s'.
Proof.
  induction l as [|x rest IH]; simpl; intros Hf s s' Hs H.
  - congruence.
  - bind_inv H. eapply IH; [|eapply Hf; eauto|exact H].
    intros y t t' Hy. apply Hf. auto.
Qed.

(** In a registry that [buildHostRegistry] returns, every entry is filed
    under its hostname in lower case and no key occurs twice. *)
Lemma buildHostRegistry_keys (events : list CanonicalEvent)
  (registry : HostRegistry) :
  buildHostRegistry events = Ok registry ->
  NoDup (map fst (hosts registry))
  /\ keysMatchNames (hosts registry).
Proof.
  unfold buildHostRegistry. intros H. bind_inv H. injection H as <-. simpl.
  refine (forEach_invariant
            (fun r => NoDup (map fst r) /\ keysMatchNames r)
            collectHost _ events [] a _ Ha);
    [|split; constructor].
  intros event s s' Hs Hstep.
  refine (collectHost_preserves
            (fun r => NoDup (map fst r) /\ keysMatchNames r)
            event _ _ s s' Hs Hstep).
  - intros key name display r Hkey [Hnd Hnames]. split.
    + apply ensureHost_keys. exact Hnd.
    + unfold keysMatchNames, ensureHost.
      destruct (hasOwn key r); [exact Hnames|].
      apply Forall_app. split; [exact Hnames|].
      repeat constructor. exact Hkey.
  - intros key address r _ [Hnd Hnames]. split.
    + rewrite addIp_keys. exact Hnd.
    + unfold keysMatchNames in *. apply Forall_forall. intros [k e'] Hin.
      destruct (addIp_In _ _ _ _ _ Hin) as (e & He & Hname & _).
      rewrite Forall_forall in Hnames. specialize (Hnames _ He).
      simpl in *. rewrite Hname. exact Hnames.
Qed.

(** X7.  A registry has one entry per hostname up to case: two entries of a
    registry that [buildHostRegistry] returns whose hostnames are the same
    name up to case are one entry. *)
Theorem registry_hosts_unique_up_to_case (events : list CanonicalEvent)
  (registry : HostRegistry) (k1 k2 : string) (e1 e2 : HostEntry) :
  buildHostRegistry events = Ok registry ->
  In (k1, e1) (hosts registry) ->
  In (k2, e2) (hosts registry) ->
  sameHost (entryHostname e1) (entryHostname e2) ->
  k1 = k2 /\ e1 = e2.
Proof.
  intros Hbuild H1 H2 (s & d & Hs & Hd & Hsame).
  destruct (buildHostRegistry_keys _ _ Hbuild) as [Hnd Hnames].
  unfold keysMatchNames in Hnames. rewrite Forall_forall in Hnames.
  pose proof (Hnames _ H1) as Hk1. pose proof (Hnames _ H2) as Hk2.
  simpl in Hk1, Hk2. rewrite Hs in Hk1. rewrite Hd in Hk2.
  simpl in Hk1, Hk2.
  assert (Hk : k1 = k2) by congruence.
  split; [exact Hk|]. subst k2.
  pose proof (lookup_NoDup _ _ _ Hnd H1) as Hl1.
  pose proof (lookup_NoDup _ _ _ Hnd H2) as Hl2.
  congruence.
Qed.

Lemma index_one_entry (a : value) (k : string) (addresses : list value)
  (m : list (value * string)) :
  mapGet a (fold_left (fun m address => mapSet address k m) addresses m)
  = if existsb (fun known => strictEq known a) addresses then Some k
    else mapGet a m.
Proof.
  revert m. induction addresses as [|x rest IH]; intros m; simpl.
  - reflexivity.
  - rewrite IH, mapGet_mapSet.
    destruct (existsb (fun known => strictEq known a) rest);
      [now rewrite orb_true_r|].
    rewrite orb_false_r. reflexivity.
Qed.

Lemma index_entries (a : value) (registry : list (string * HostEntry)) :
  forall m,
    mapGet a
      (fold_left
         (fun m entry =>
            fold_left (fun m address => mapSet address (fst entry) m)
                      (ips (snd entry)) m)
         registry m)
    = lastLister a registry (mapGet a m).
Proof.
  unfold lastLister.
  induction registry as [|entry rest IH]; intros m; simpl.
  - reflexivity.
  - rewrite IH, index_one_entry. reflexivity.
Qed.

Lemma mapGet_indexIps (a : value) (registry : list (string * HostEntry)) :
  mapGet a (indexIps registry) = lastLister a registry None.
Proof. unfold indexIps. rewrite index_entries. reflexivity. Qed.

Lemma lastLister_none (a : value) (registry : list (string * HostEntry)) :
  Forall (fun entry => lists (snd entry) a = false) registry ->
  forall found, lastLister a registry found = found.
Proof.
  unfold lastLister. induction 1 as [|entry rest He _ IH]; intros found; simpl.
  - reflexivity.
  - rewrite He. apply IH.
Qed.

Lemma lastLister_last (a : value) (before after : list (string * HostEntry))
  (k : string) (e : HostEntry) :
  lists e a = true ->
  Forall (fun entry => lists (snd entry) a = false) after ->
  lastLister a (before ++ (k, e) :: after) None = Some k.
Proof.
  intros He Hafter. unfold lastLister. rewrite fold_left_app. simpl.
  rewrite He. apply (lastLister_none a after Hafter).
Qed.

(** X8.  The last registrar wins: an address resolves to the hostname of
    the last entry, in insertion order, that lists it. *)
Theorem resolveIp_last_entry_wins (events : list CanonicalEvent)
  (registry : HostRegistry) (before after : list (string * HostEntry))
  (k : string) (e : HostEntry) (address : value) :
  buildHostRegistry events = Ok registry ->
  hosts registry = (before ++ (k, e) :: after)%list ->
  lists e address = true ->
  Forall (fun entry => lists (snd entry) address = false) after ->
  k <> "" ->
  resolveIp registry address = entryHostname e.
Proof.
  intros Hbuild Hhosts He Hafter Hk.
  destruct (buildHostRegistry_keys _ _ Hbuild) as [Hnd _].
  assert (Hindex : ipToHost registry = indexIps (hosts registry)).
  { unfold buildHostRegistry in Hbuild. bind_inv Hbuild.
    injection Hbuild as <-. reflexivity. }
  unfold resolveIp. rewrite Hindex, mapGet_indexIps, Hhosts.
  rewrite (lastLister_last _ _ _ _ _ He Hafter).
  assert (Hl : lookup k (before ++ (k, e) :: after) = Some e).
  { apply lookup_NoDup; [rewrite <- Hhosts; exact Hnd|].
    apply in_or_app. right. left. reflexivity. }
  unfold hasOwn. rewrite Hl.
  destruct (String.eqb_spec k "") as [->|_]; [contradiction|]. reflexivity.
Qed.

Lemma In_setAdd (x y : value) (s : list value) :
  In x (setAdd y s) -> x = y \/ In x s.
Proof.
  unfold setAdd. destruct (existsb (strictEq y) s); [auto|].
  intros H. apply in_app_or in H. destruct H as [H | [H | []]]; auto.
Qed.

Lemma lists_none (e : HostEntry) (a : value) :
  (forall known, In known (ips e) -> strictEq known a = false) ->
  lists e a = false.
Proof.
  unfold lists. intros H.
  destruct (existsb (fun known => strictEq known a) (ips e)) eqn:Hex;
    [|reflexivity].
  apply existsb_exists in Hex. destruct Hex as (known & Hin & Hk).
  rewrite (H _ Hin) in Hk. discriminate Hk.
Qed.

(** Every address of a registry was read from one of the events. *)
Lemma buildHostRegistry_addresses (events : list CanonicalEvent)
  (registry : HostRegistry) :
  buildHostRegistry events = Ok registry ->
  forall k e known,
    In (k, e) (hosts registry) -> In known (ips e) ->
    exists event, In event events /\ eventAddress event known.
Proof.
  unfold buildHostRegistry. intros H. bind_inv H. injection H as <-. simpl.
  refine (forEach_invariant_in
            (fun r => forall k e known,
                 In (k, e) r -> In known (ips e) ->
                 exists event, In event events /\ eventAddress event known)
            collectHost events _ [] a _ Ha); [|intros k e known []].
  intros event s s' Hevent Hs Hstep.
  refine (collectHost_preserves
            (fun r => forall k e known,
                 In (k, e) r -> In known (ips e) ->
                 exists event, In event events /\ eventAddress event known)
            event _ _ s s' Hs Hstep).
  - intros key name display r _ Hr k e known Hin Hknown.
    apply ensureHost_In in Hin. destruct Hin as [Hin | [_ ->]].
    + eapply Hr; eassumption.
    + destruct Hknown.
  - intros key address r Haddr Hr k e' known Hin Hknown.
    destruct (addIp_In _ _ _ _ _ Hin) as (e & He & _ & [Hips | [_ Hips]]).
    + rewrite Hips in Hknown. eapply Hr; eassumption.
    + rewrite Hips in Hknown. apply In_setAdd in Hknown.
      destruct Hknown as [-> | Hknown]; [eauto | eapply Hr; eassumption].
Qed.

(** X9.  An address that no event carries resolves to itself. *)
Theorem resolveIp_unseen_address (events : list CanonicalEvent)
  (registry : HostRegistry) (address : value) :
  buildHostRegistry events = Ok registry ->
  (forall event known,
      In event events -> eventAddress event known ->
      strictEq known address = false) ->
  resolveIp registry address = address.
Proof.
  intros Hbuild Hunseen.
  assert (Hindex : ipToHost registry = indexIps (hosts registry)).
  { unfold buildHostRegistry in Hbuild. bind_inv Hbuild.
    injection Hbuild as <-. reflexivity. }
  unfold resolveIp. rewrite Hindex, mapGet_indexIps.
  rewrite lastLister_none; [reflexivity|].
  apply Forall_forall. intros [k e] Hin. simpl.
  apply lists_none. intros known Hknown.
  destruct (buildHostRegistry_addresses _ _ Hbuild _ _ _ Hin Hknown)
    as (event & Hevent & Haddr).
  eapply Hunseen; eassumption.
Qed.

Lemma forEach_each {A S : Type} (f : A -> S -> result S) (l : list A) :
  forall s s', forEach f l s = Ok s' ->
  forall x, In x l -> exists s1 s2, f x s1 = Ok s2.
Proof.
  induction l as [|y rest IH]; simpl; intros s s' H x Hx; [contradiction|].
  bind_inv H. destruct Hx as [<- | Hx]; [eauto | eapply IH; eauto].
Qed.

Lemma forEach_throws {A S : Type} (f : A -> S -> result S) (l : list A) :
  forall s e, forEach f l s = Throw e ->
  exists x s1, In x l /\ f x s1 = Throw e.
Proof.
  induction l as [|y rest IH]; simpl; intros s e H; [discriminate H|].
  apply bind_throw in H. destruct H as [H | (s' & _ & H)].
  - exists y, s. auto.
  - destruct (IH _ _ H) as (x & s1 & Hx & Hf). exists x, s1. auto.
Qed.

Lemma collectHost_throws (event : CanonicalEvent)
  (registry : list (string * HostEntry)) (e : error) :
  collectHost event registry = Throw e -> e = TypeError.
Proof.
  unfold collectHost, toLowerCase. intros H. throw_cases.
Qed.

Lemma collectHost_ok (event : CanonicalEvent)
  (registry : list (string * HostEntry)) :
  hostNamesAreStrings event ->
  exists registry', collectHost event registry = Ok registry'.
Proof.
  unfold hostNamesAreStrings, collectHost. intros [Hname Hflow].
  destruct (hostname (ev_host event)) as [| |?|?|name|?|?] eqn:Hh;
    try contradiction.
  cbn [toLowerCase].
  destruct (negb (strictEq (VStr name) (VStr "Unknown"))); cbn [bind];
    (destruct (ev_connection event) as [conn|]; [|eauto];
     destruct Hflow as [Hsource Hdest];
     destruct (truthy (sourceHostname conn)) eqn:Hs;
       [specialize (Hsource eq_refl);
        destruct (sourceHostname conn); try contradiction|];
     cbn [toLowerCase bind];
     (destruct (truthy (destHostname conn)) eqn:Hd;
        [specialize (Hdest eq_refl);
         destruct (destHostname conn); try contradiction|];
      cbn [toLowerCase bind]; eauto)).
Qed.

Lemma toLowerCase_string (v : value) (k : string) :
  toLowerCase v = Ok k -> isString v.
Proof. destruct v; try discriminate. intros _. exact I. Qed.

Lemma collectHost_ok_names (event : CanonicalEvent)
  (registry registry' : list (string * HostEntry)) :
  collectHost event registry = Ok registry' -> hostNamesAreStrings event.
Proof.
  unfold hostNamesAreStrings, collectHost. intros H. bind_inv H. split.
  - destruct (hostname (ev_host event)); try exact I;
      cbn in Ha; discriminate Ha.
  - destruct (ev_connection event) as [conn|]; [|exact I].
    bind_inv H. split; intros Htruthy; rewrite Htruthy in *.
    + bind_inv Ha0. eapply toLowerCase_string; eassumption.
    + bind_inv H. eapply toLowerCase_string; eassumption.
Qed.

Lemma forEach_ok {A S : Type} (f : A -> S -> result S) (l : list A) :
  (forall x, In x l -> forall s, exists s', f x s = Ok s') ->
  forall s, exists s', forEach f l s = Ok s'.
Proof.
  induction l as [|y rest IH]; simpl; intros Hall s; [eauto|].
  destruct (Hall y (or_introl eq_refl) s) as (s1 & ->). cbn [bind].
  apply IH. intros x Hx. apply Hall. now right.
Qed.

(** A list that holds an event with a name that is not a string has no
    registry. *)
Lemma buildHostRegistry_bad_name (events : list CanonicalEvent)
  (event : CanonicalEvent) :
  In event events ->
  ~ hostNamesAreStrings event ->
  buildHostRegistry events = Throw TypeError.
Proof.
  intros Hin Hname. unfold buildHostRegistry.
  destruct (forEach collectHost events []) as [registry|e] eqn:H;
    cbn [bind].
  - exfalso.
    destruct (forEach_each _ _ _ _ H _ Hin) as (s1 & s2 & Hstep).
    apply Hname. exact (collectHost_ok_names _ _ _ Hstep).
  - destruct (forEach_throws _ _ _ _ H) as (x & s1 & _ & Hx).
    apply collectHost_throws in Hx. congruence.
Qed.

(** X10.  A registry can be built exactly for events whose host names are
    strings: the hostname of every event, and the source and destination
    domain of every flow that has one.  For any other list
    [buildHostRegistry] throws a [TypeError]. *)
Theorem registry_needs_string_names (events : list CanonicalEvent) :
  (Forall hostNamesAreStrings events ->
   exists registry, buildHostRegistry events = Ok registry)
  /\ (~ Forall hostNamesAreStrings events ->
      buildHostRegistry events = Throw TypeError).
Proof.
  split.
  - intros Hall. rewrite Forall_forall in Hall.
    destruct (forEach_ok collectHost events
                (fun x Hx s => collectHost_ok x s (Hall x Hx)) [])
      as (registry & Hregistry).
    unfold buildHostRegistry. rewrite Hregistry. cbn [bind]. eauto.
  - intros Hsome.
    destruct (buildHostRegistry events) as [registry|e] eqn:Hbuild.
    + exfalso. apply Hsome. apply Forall_forall. intros event Hin.
      unfold buildHostRegistry in Hbuild. bind_inv Hbuild.
      destruct (forEach_each _ _ _ _ Ha _ Hin) as (s1 & s2 & Hstep).
      exact (collectHost_ok_names _ _ _ Hstep).
    + unfold buildHostRegistry in Hbuild.
      apply bind_throw in Hbuild.
      destruct Hbuild as [Hbuild | (s' & _ & Hbuild)];
        [|discriminate Hbuild].
      destruct (forEach_throws _ _ _ _ Hbuild) as (x & s1 & _ & Hx).
      apply collectHost_throws in Hx. congruence.
Qed.

Lemma lookup_app_Some {A : Type} (k : string) (l1 l2 : list (string * A))
  (v : A) :
  lookup k l1 = Some v -> lookup k (l1 ++ l2)%list = Some v.
Proof.
  induction l1 as [|[k' v'] rest IH]; simpl; [discriminate|].
  destruct (k' =? k); auto.
Qed.

Lemma lookup_app_None {A : Type} (k : string) (l1 l2 : list (string * A)) :
  lookup k l1 = None -> lookup k (l1 ++ l2)%list = lookup k l2.
Proof.
  induction l1 as [|[k' v'] rest IH]; simpl; [reflexivity|].
  destruct (k' =? k); [discriminate | auto].
Qed.

Lemma lookup_ensureHost_same (key : string) (name display : value)
  (registry : list (string * HostEntry)) :
  exists e, lookup key (ensureHost key name display registry) = Some e.
Proof.
  unfold ensureHost, hasOwn.
  destruct (lookup key registry) as [e|] eqn:Hl; [eauto|].
  rewrite (lookup_app_None _ _ _ Hl). simpl. rewrite String.eqb_refl. eauto.
Qed.

Lemma lookup_ensureHost_other (k key : string) (name display : value)
  (registry : list (string * HostEntry)) (e : HostEntry) :
  lookup k registry = Some e ->
  lookup k (ensureHost key name display registry) = Some e.
Proof.
  unfold ensureHost. intros H.
  destruct (hasOwn key registry); [exact H|]. now apply lookup_app_Some.
Qed.

Lemma lists_setAdd (address a : value) (e : HostEntry) :
  lists (mkEntry (entryHostname e) (setAdd address (ips e))
                 (entryDisplayName e)) a
  = lists e a || strictEq address a.
Proof.
  unfold lists, setAdd. simpl.
  destruct (existsb (strictEq address) (ips e)) eqn:Hin.
  - destruct (strictEq address a) eqn:Ha; [|now rewrite orb_false_r].
    apply strictEq_eq in Ha. subst a. rewrite orb_true_r.
    apply existsb_exists in Hin. destruct Hin as (x & Hx & Heq).
    apply existsb_exists. exists x. split; [exact Hx|].
    now rewrite strictEq_sym.
  - rewrite existsb_app. simpl. now rewrite orb_false_r.
Qed.

Lemma lookup_addIp (k key : string) (address : value)
  (registry : list (string * HostEntry)) (e : HostEntry) :
  lookup k registry = Some e ->
  exists e',
    lookup k (addIp key address registry) = Some e'
    /\ (forall a, lists e a = true -> lists e' a = true)
    /\ (k = key -> isPrimitive address -> lists e' address = true).
Proof.
  induction registry as [|[k0 e0] rest IH]; simpl; [discriminate|].
  destruct (String.eqb_spec k0 key) as [->|Hneq]; simpl.
  - destruct (String.eqb_spec key k) as [->|Hk].
    + intros [= ->]. eexists. split; [reflexivity|]. split.
      * intros a Ha. rewrite lists_setAdd, Ha. reflexivity.
      * intros _ Hprim. rewrite lists_setAdd, (strictEq_refl _ Hprim).
        apply orb_true_r.
    + intros H. exists e. split; [exact H|]. split; [auto|].
      intros ->. contradiction.
  - destruct (String.eqb_spec k0 k) as [->|Hk].
    + intros [= ->]. exists e. split; [reflexivity|]. split; [auto|].
      intros ->. contradiction.
    + exact IH.
Qed.

(** X11.  Every host that an event names gets its entry, and the address of
    the event is in it: after [buildHostRegistry], the entry under the
    lower-case hostname of an event exists and lists the address of the
    event, when this address is truthy and a primitive. *)
Theorem observed_address_is_recorded (events : list CanonicalEvent)
  (registry : HostRegistry) (event : CanonicalEvent) (h : string) :
  buildHostRegistry events = Ok registry ->
  In event events ->
  hostname (ev_host event) = VStr h ->
  h <> "Unknown" ->
  exists e,
    lookup (lowerString h) (hosts registry) = Some e
    /\ (truthy (ip (ev_host event)) = true ->
        isPrimitive (ip (ev_host event)) ->
        lists e (ip (ev_host event)) = true).
Proof.
  intros Hbuild Hin Hname Hunknown.
  set (recorded := fun r : list (string * HostEntry) =>
         exists e,
           lookup (lowerString h) r = Some e
           /\ (truthy (ip (ev_host event)) = true ->
               isPrimitive (ip (ev_host event)) ->
               lists e (ip (ev_host event)) = true)).
  assert (Hkeep : forall other s s',
             recorded s -> collectHost other s = Ok s' -> recorded s').
  { intros other s s' Hs Hstep.
    refine (collectHost_preserves recorded other _ _ s s' Hs Hstep).
    - intros key name display r _ (e & Hl & He). exists e.
      split; [now apply lookup_ensureHost_other | exact He].
    - intros key address r _ (e & Hl & He).
      destruct (lookup_addIp _ key address _ _ Hl) as (e' & Hl' & Hmono & _).
      exists e'. split; [exact Hl'|]. auto. }
  unfold buildHostRegistry in Hbuild. bind_inv Hbuild.
  injection Hbuild as <-. simpl.
  apply in_split in Hin. destruct Hin as (l1 & l2 & ->).
  rewrite forEach_app in Ha. bind_inv Ha. simpl in Ha. bind_inv Ha.
  refine (forEach_invariant recorded collectHost Hkeep l2 a1 a _ Ha).
  (* the step of the event itself *)
  unfold collectHost in Ha1. rewrite Hname in Ha1. bind_inv Ha1.
  assert (Hfirst : recorded a2).
  { simpl in Ha2.
    destruct (String.eqb_spec h "Unknown") as [->|_]; [contradiction|].
    cbn [negb bind] in Ha2.
    destruct (truthy (ip (ev_host event))) eqn:Hip; injection Ha2 as <-.
    - destruct (lookup_ensureHost_same (lowerString h) (VStr h)
                  (displayName (ev_host event)) a0) as (e0 & Hl0).
      destruct (lookup_addIp _ (lowerString h) (ip (ev_host event)) _ _ Hl0)
        as (e' & Hl' & _ & Hadded).
      exists e'. split; [exact Hl'|]. auto.
    - destruct (lookup_ensureHost_same (lowerString h) (VStr h)
                  (displayName (ev_host event)) a0) as (e0 & Hl0).
      exists e0. split; [exact Hl0|]. discriminate. }
  eapply (Hkeep
            (mkEvent (ev_id event) (ev_timestamp event)
                     (mkHost (VStr "Unknown") VNull VNull)
                     (ev_category event) (ev_connection event)
                     (ev_summary event) (ev_details event) (ev_raw event)));
    [exact Hfirst|].
  unfold collectHost. simpl. exact Ha1.
Qed.

(** X7 on three records of two hosts: "alpha" and "ALPHA" share the entry
    filed under "alpha". *)
Lemma registry_hosts_unique_up_to_case_witness :
  exists registry e,
    buildHostRegistry sharedAddress = Ok registry
    /\ In ("alpha", e) (hosts registry)
    /\ sameHost (entryHostname e) (VStr "ALPHA")
    /\ forall k2 e2,
         In (k2, e2) (hosts registry) ->
         sameHost (entryHostname e) (entryHostname e2) ->
         "alpha" = k2 /\ e = e2.
Proof.
  destruct (buildHostRegistry sharedAddress) as [registry|err] eqn:Hbuild;
    [|vm_compute in Hbuild; discriminate Hbuild].
  assert (Hreg : hosts registry
                 = [("alpha", mkEntry (VStr "alpha")
                                [VStr "10.0.0.5"; VStr "10.0.0.6"]
                                (VStr "alpha"));
                    ("beta", mkEntry (VStr "Beta") [VStr "10.0.0.5"]
                               (VStr "Beta"))])
    by (vm_compute in Hbuild; injection Hbuild as <-; reflexivity).
  exists registry. eexists.
  split; [reflexivity|].
  split; [rewrite Hreg; left; reflexivity|].
  split; [exists "alpha", "ALPHA"; repeat split|].
  intros k2 e2 H2 Hsame.
  refine (registry_hosts_unique_up_to_case sharedAddress registry
            "alpha" k2 _ e2 Hbuild _ H2 Hsame).
  rewrite Hreg. left. reflexivity.
Defined.

(** X8 on the same records: 10.0.0.5 was reported by "alpha" and then by
    "Beta", and resolves to "Beta". *)
Lemma resolveIp_last_entry_wins_witness :
  exists registry alpha beta,
    buildHostRegistry sharedAddress = Ok registry
    /\ hosts registry = ([("alpha", alpha)] ++ ("beta", beta) :: [])%list
    /\ lists alpha (VStr "10.0.0.5") = true
    /\ lists beta (VStr "10.0.0.5") = true
    /\ resolveIp registry (VStr "10.0.0.5") = VStr "Beta".
Proof.
  destruct (buildHostRegistry sharedAddress) as [registry|err] eqn:Hbuild;
    [|vm_compute in Hbuild; discriminate Hbuild].
  assert (Hreg : hosts registry
                 = ([("alpha", mkEntry (VStr "alpha")
                                 [VStr "10.0.0.5"; VStr "10.0.0.6"]
                                 (VStr "alpha"))]
                    ++ ("beta", mkEntry (VStr "Beta") [VStr "10.0.0.5"]
                                  (VStr "Beta")) :: [])%list)
    by (vm_compute in Hbuild; injection Hbuild as <-; reflexivity).
  exists registry. eexists. eexists.
  split; [reflexivity|].
  split; [exact Hreg|].
  split; [reflexivity|].
  split; [reflexivity|].
  refine (resolveIp_last_entry_wins sharedAddress registry _ [] "beta"
            (mkEntry (VStr "Beta") [VStr "10.0.0.5"] (VStr "Beta"))
            (VStr "10.0.0.5") Hbuild Hreg eq_refl (Forall_nil _) _).
  discriminate.
Defined.

(** X9 on the same records: no event carries 10.9.9.9. *)
Lemma resolveIp_unseen_address_witness :
  exists registry,
    buildHostRegistry sharedAddress = Ok registry
    /\ resolveIp registry (VStr "10.9.9.9") = VStr "10.9.9.9".
Proof.
  destruct (buildHostRegistry sharedAddress) as [registry|err] eqn:Hbuild;
    [|vm_compute in Hbuild; discriminate Hbuild].
  exists registry. split; [reflexivity|].
  apply (resolveIp_unseen_address sharedAddress registry (VStr "10.9.9.9")
           Hbuild).
  intros event known Hin Haddr.
  assert (Hevents : Forall (fun event =>
                              forall known, eventAddress event known ->
                                strictEq known (VStr "10.9.9.9") = false)
                           sharedAddress).
  { repeat constructor;
      (intros k [-> | (conn & Hconn & _)];
       [reflexivity | discriminate Hconn]). }
  rewrite Forall_forall in Hevents. exact (Hevents event Hin known Haddr).
Defined.

(** A record whose [host.hostname] is the number 123 parses, and the
    registry of its event cannot be built. *)
Example numeric_hostname_has_no_registry :
  exists event,
    parseEvents isoDate noJson 0 (VArr [numericHostname]) = Ok [event]
    /\ hostname (ev_host event) = VNum 123
    /\ buildHostRegistry [event] = Throw TypeError.
Proof.
  eexists. split; [vm_compute; reflexivity|]. split; reflexivity.
Qed.

(** X11 on the same three records: "ALPHA" reported 10.0.0.6, and the entry
    filed under "alpha" lists it. *)
Lemma observed_address_is_recorded_witness :
  exists registry event e,
    buildHostRegistry sharedAddress = Ok registry
    /\ nth_error sharedAddress 2 = Some event
    /\ hostname (ev_host event) = VStr "ALPHA"
    /\ lookup "alpha" (hosts registry) = Some e
    /\ lists e (VStr "10.0.0.6") = true.
Proof.
  destruct (buildHostRegistry sharedAddress) as [registry|err] eqn:Hbuild;
    [|vm_compute in Hbuild; discriminate Hbuild].
  destruct (nth_error sharedAddress 2) as [event|] eqn:Hnth;
    [|vm_compute in Hnth; discriminate Hnth].
  assert (Hhost : ev_host event
                  = mkHost (VStr "ALPHA") (VStr "10.0.0.6") (VStr "ALPHA"))
    by (vm_compute in Hnth; injection Hnth as <-; reflexivity).
  assert (Hname : hostname (ev_host event) = VStr "ALPHA")
    by (rewrite Hhost; reflexivity).
  assert (Hunknown : "ALPHA" <> "Unknown") by discriminate.
  destruct (observed_address_is_recorded sharedAddress registry event
              "ALPHA" Hbuild (nth_error_In _ _ Hnth) Hname Hunknown)
    as (e & Hl & Hlists).
  exists registry, event, e.
  split; [reflexivity|]. split; [reflexivity|]. split; [exact Hname|].
  split; [exact Hl|].
  rewrite Hhost in Hlists. apply Hlists; [reflexivity | exact I].
Defined.

(** ** What the parser reads of a record *)

Lemma existsb_eqb_In (p : string) (l : list string) :
  existsb (String.eqb p) l = true -> In p l.
Proof.
  intros H. apply existsb_exists in H. destruct H as (x & Hx & Heq).
  apply String.eqb_eq in Heq. now subst x.
Qed.

Ltac listed := apply existsb_eqb_In; vm_compute; reflexivity.

Lemma agreeOn_sym (paths : list string) (a b : value) :
  agreeOn paths a b -> agreeOn paths b a.
Proof. intros H path d Hin. symmetry. now apply H. Qed.

Lemma agreeOn_incl (paths paths' : list string) (a b : value) :
  incl paths' paths -> agreeOn paths a b -> agreeOn paths' a b.
Proof. intros Hincl H path d Hin. apply H. now apply Hincl. Qed.

Lemma getFirstValue_agree (a b : value) (paths : list string) (d : value) :
  agreeOn paths a b -> getFirstValue a paths d = getFirstValue b paths d.
Proof.
  induction paths as [|path rest IH]; intros H; [reflexivity|].
  cbn [getFirstValue]. rewrite (H path VNull) by (left; reflexivity).
  rewrite IH; [reflexivity|].
  intros p d' Hin. apply H. now right.
Qed.

Section Agreement.

Variables a b : value.
Hypothesis Hagree : agreeOn pathsRead a b.

Lemma extractHostIdentifier_agree :
  extractHostIdentifier a = extractHostIdentifier b.
Proof.
  unfold extractHostIdentifier, getFirstString, getNestedString.
  rewrite (getFirstValue_agree a b hostnamePaths),
          (getFirstValue_agree a b ipPaths).
  - rewrite !(Hagree "source.ip"), !(Hagree "destination.ip") by listed.
    reflexivity.
  - eapply agreeOn_incl; [|exact Hagree].
    intros p Hp. unfold pathsRead. apply in_or_app. right.
    apply in_or_app. now left.
  - eapply agreeOn_incl; [|exact Hagree].
    intros p Hp. unfold pathsRead. apply in_or_app. now left.
Qed.

Lemma extractCategory_agree : extractCategory a = extractCategory b.
Proof.
  unfold extractCategory. cbn [getFirstValue].
  rewrite !(Hagree "event.category"), !(Hagree "event.type") by listed.
  reflexivity.
Qed.

Lemma extractConnectionInfo_agree :
  extractConnectionInfo a = extractConnectionInfo b.
Proof.
  unfold extractConnectionInfo, getNestedString. cbn [getFirstValue].
  rewrite !(Hagree "source.ip"), !(Hagree "destination.ip"),
          !(Hagree "source.port"), !(Hagree "source.domain"),
          !(Hagree "source.bytes"), !(Hagree "source.packets"),
          !(Hagree "destination.port"), !(Hagree "destination.domain"),
          !(Hagree "destination.bytes"), !(Hagree "destination.packets"),
          !(Hagree "network.transport"), !(Hagree "network.protocol"),
          !(Hagree "network.direction"), !(Hagree "network.community_id"),
          !(Hagree "network.type"), !(Hagree "network.bytes") by listed.
  reflexivity.
Qed.

Lemma extractSummary_agree : extractSummary a = extractSummary b.
Proof.
  unfold extractSummary, getNestedString. cbn [getFirstValue].
  rewrite !(Hagree "event.action"), !(Hagree "event.type"),
          !(Hagree "process.name"), !(Hagree "file.name"),
          !(Hagree "user.name"), !(Hagree "destination.ip"),
          !(Hagree "destination.port"), !(Hagree "dns.question.name"),
          !(Hagree "url.domain") by listed.
  reflexivity.
Qed.

Lemma section_paths_read (section : string * option (list string)
                                    * list (string * string)) (path : string) :
  In section detailSections ->
  In path (match snd (fst section) with
           | Some paths => paths
           | None => []
           end ++ map snd (snd section))%list ->
  In path pathsRead.
Proof.
  intros Hs Hp. unfold pathsRead.
  apply in_or_app. right. apply in_or_app. right. apply in_or_app. right.
  apply in_or_app. right. apply in_flat_map. exists section. now split.
Qed.

Lemma extractDetails_agree : extractDetails a = extractDetails b.
Proof.
  unfold extractDetails. f_equal.
  rewrite (filter_ext_in
             (fun section => sectionPresent a (snd (fst section)))
             (fun section => sectionPresent b (snd (fst section)))).
  - apply map_ext_in. intros section Hs. apply filter_In in Hs.
    destruct Hs as [Hs _]. f_equal. f_equal.
    apply map_ext_in. intros field Hf. f_equal.
    apply Hagree. apply (section_paths_read section _ Hs).
    apply in_or_app. right. now apply in_map.
  - intros section Hs. unfold sectionPresent.
    destruct (snd (fst section)) as [paths|] eqn:Hpaths; [|reflexivity].
    induction paths as [|p rest IH] in Hpaths, section, Hs |- *;
      [reflexivity|].
    assert (Hall : forall q, In q (p :: rest) ->
                     getNestedValue a q VNull = getNestedValue b q VNull).
    { intros q Hq. apply Hagree. apply (section_paths_read section _ Hs).
      rewrite Hpaths. apply in_or_app. now left. }
    clear -Hall. induction (p :: rest) as [|q l IHl]; [reflexivity|].
    cbn [existsb]. rewrite (Hall q) by (left; reflexivity).
    rewrite IHl; [reflexivity|]. intros q' Hq'. apply Hall. now right.
Qed.

Lemma parseTimestamp_agree (parseDate : string -> option Z) :
  parseTimestamp parseDate a = parseTimestamp parseDate b.
Proof.
  unfold parseTimestamp.
  rewrite (getFirstValue_agree a b timestampPaths); [reflexivity|].
  eapply agreeOn_incl; [|exact Hagree].
  intros p Hp. unfold pathsRead. apply in_or_app. right.
  apply in_or_app. right. apply in_or_app. now left.
Qed.

Lemma generateEventId_agree (now : Z) (timestamp : option Z) (index : nat) :
  generateEventId now a timestamp index
  = generateEventId now b timestamp index.
Proof.
  unfold generateEventId, getFirstString. cbn [getFirstValue].
  rewrite !(Hagree "event.id"), !(Hagree "host.hostname"),
          !(Hagree "host.name"), !(Hagree "host.ip") by listed.
  reflexivity.
Qed.

End Agreement.

(** X12.  The parser reads a record through [_id], [_source] and the listed
    paths only: two records with one envelope identifier whose payloads
    agree on every listed path give, at one position, the same event up to
    the raw payload it keeps, or both none, or both the same exception. *)
Theorem parseEvent_reads_listed_paths (parseDate : string -> option Z)
  (now : Z) (first second : value) (index : nat) :
  first <> VNull -> first <> VUndefined ->
  second <> VNull -> second <> VUndefined ->
  envelopeId first = envelopeId second ->
  agreeOn pathsRead (payloadOf first) (payloadOf second) ->
  parseEvent parseDate now second index
  = (parsed <- parseEvent parseDate now first index ;;
     Ok (option_map
           (fun e => mkEvent (ev_id e) (ev_timestamp e) (ev_host e)
                       (ev_category e) (ev_connection e) (ev_summary e)
                       (ev_details e) (payloadOf second))
           parsed)).
Proof.
  intros Hn1 Hu1 Hn2 Hu2 Hid Hagree.
  rewrite (parseEvent_unfold parseDate now first index Hn1 Hu1),
          (parseEvent_unfold parseDate now second index Hn2 Hu2).
  rewrite <- Hid.
  rewrite <- (parseTimestamp_agree _ _ Hagree),
          <- (extractCategory_agree _ _ Hagree),
          <- (extractConnectionInfo_agree _ _ Hagree),
          <- (extractSummary_agree _ _ Hagree),
          <- (extractDetails_agree _ _ Hagree),
          <- (extractHostIdentifier_agree _ _ Hagree).
  destruct (parseTimestamp parseDate (payloadOf first)) as [[t|]|err];
    cbn [bind option_map]; try reflexivity.
  rewrite <- (generateEventId_agree _ _ Hagree).
  destruct (extractCategory (payloadOf first)); cbn [bind]; [|reflexivity].
  destruct (extractConnectionInfo (payloadOf first)); cbn [bind];
    [|reflexivity].
  destruct (extractSummary (payloadOf first)); cbn [bind]; [|reflexivity].
  destruct (if truthy (envelopeId first) then Ok (envelopeId first)
            else generateEventId now (payloadOf first) (Some t) index);
    reflexivity.
Qed.

Lemma split_not_nil (c : ascii) (s : string) : split c s <> [].
Proof.
  destruct s as [|a rest]; cbn [split]; [discriminate|].
  destruct (Ascii.eqb a c); [discriminate|].
  destruct (split c rest); discriminate.
Qed.

(** A path reads an object through the property under its first segment. *)
Lemma getNestedValue_top (fa fb : list (string * value)) (path : string)
  (d : value) :
  getProp (VObj fa) (firstSegment path) = getProp (VObj fb) (firstSegment path) ->
  getNestedValue (VObj fa) path d = getNestedValue (VObj fb) path d.
Proof.
  unfold getNestedValue, firstSegment. cbn [truthy negb orb].
  destruct (split "." path) as [|key rest] eqn:Hsplit.
  - now apply split_not_nil in Hsplit.
  - intros H. cbn [walk]. rewrite H. reflexivity.
Qed.

Lemma lookup_objectSet (k key : string) (v : value)
  (fields : list (string * value)) :
  lookup k (objectSet key v fields)
  = if key =? k then Some v else lookup k fields.
Proof.
  induction fields as [|[k0 v0] rest IH]; cbn [objectSet lookup];
    [reflexivity|].
  destruct (String.eqb_spec k0 key) as [->|Hneq]; cbn [lookup].
  - destruct (key =? k); reflexivity.
  - rewrite IH. destruct (String.eqb_spec k0 k) as [->|Hk]; [|reflexivity].
    destruct (String.eqb_spec key k) as [->|_]; [contradiction|reflexivity].
Qed.

(** [{...target, ...source}] holds what [source] holds, and under any other
    key what [target] holds. *)
Lemma lookup_assignProperties (k : string) (target fields : list (string * value)) :
  NoDup (map fst fields) ->
  lookup k (assignProperties target (VObj fields))
  = match lookup k fields with
    | Some v => Some v
    | None => lookup k target
    end.
Proof.
  unfold assignProperties. cbn [ownProperties].
  revert target. induction fields as [|[k0 v0] rest IH]; intros target Hnd;
    [reflexivity|].
  cbn [fold_left fst snd lookup]. inversion Hnd as [|? ? Hnot Hrest]; subst.
  rewrite (IH _ Hrest), lookup_objectSet.
  destruct (String.eqb_spec k0 k) as [->|Hk]; [|reflexivity].
  rewrite (proj2 (lookup_not_In _ _) Hnot). reflexivity.
Qed.

Lemma generateEventId_truthy (now : Z) (event : value) (t : Z) (index : nat)
  (id : value) :
  generateEventId now event (Some t) index = Ok id -> truthy id = true.
Proof.
  unfold generateEventId. intros Hid.
  destruct (truthy (getNestedValue event "event.id" VNull)) eqn:Hexp;
    [congruence|].
  bind_inv Hid. injection Hid as <-. cbn [truthy].
  change (numToString t ++ "-" ++ a ++ "-" ++ natToString index)
    with (numToString t ++ String "-" (a ++ "-" ++ natToString index)).
  rewrite append_not_empty. reflexivity.
Qed.

(** Nothing is found in a record that is not an object. *)
Lemma getNestedValue_no_object (event : value) (path : string) (d : value) :
  (forall fields, event <> VObj fields) ->
  getNestedValue event path d = d.
Proof.
  intros Hobj. unfold getNestedValue.
  destruct (negb (truthy event) || (path =? "")); [reflexivity|].
  destruct (split "." path) as [|key rest] eqn:Hsplit;
    [now apply split_not_nil in Hsplit|].
  destruct event as [| |bv|n|s|items|fields]; cbn [walk getProp];
    try reflexivity; try (destruct rest; reflexivity).
  now destruct (Hobj fields).
Qed.

(** A record with a timestamp is an object. *)
Lemma parseTimestamp_object (parseDate : string -> option Z) (event : value)
  (t : Z) :
  parseTimestamp parseDate event = Ok (Some t) ->
  exists fields, event = VObj fields.
Proof.
  destruct event as [| |bv|n|s|items|fields];
    try (intros _; eexists; reflexivity);
    unfold parseTimestamp; cbn [getFirstValue timestampPaths];
    rewrite !getNestedValue_no_object by discriminate;
    discriminate.
Qed.

(** What a client sends to the relay for an event parses, at any position
    of any batch, to the same event, the raw record being the relayed
    one. *)
Lemma parseEvent_wireRecord (parseDate : string -> option Z)
  (now now' : Z) (rawEvent : value) (index index' : nat) (e : CanonicalEvent)
  (fields : list (string * value)) :
  parseEvent parseDate now rawEvent index = Ok (Some e) ->
  ev_raw e = VObj fields ->
  NoDup (map fst fields) ->
  truthy (getProp (ev_raw e) "_source") = false ->
  lookup "_id" fields = None \/ lookup "_id" fields = Some (ev_id e) ->
  parseEvent parseDate now' (wireRecord e) index'
  = Ok (Some (mkEvent (ev_id e) (ev_timestamp e) (ev_host e) (ev_category e)
                (ev_connection e) (ev_summary e) (ev_details e)
                (wireRecord e))).
Proof.
  intros Hparse Hraw Hnd Hsource Hid.
  assert (Htruthy : truthy (ev_id e) = true).
  { pose proof (parseEvent_some _ _ _ _ _ Hparse)
      as (_ & _ & _ & _ & _ & Hgen).
    destruct (truthy (envelopeId rawEvent)) eqn:Henv; [congruence|].
    now apply generateEventId_truthy in Hgen. }
  destruct (parseEvent_ok_not_null _ _ _ _ _ Hparse) as [Hnull Hundef].
  rewrite (parseEvent_unfold _ _ _ _ Hnull Hundef) in Hparse.
  set (raw := payloadOf rawEvent) in *.
  assert (Hprops : forall k, k <> "_id" ->
                     getProp (wireRecord e) k = getProp (ev_raw e) k).
  { intros k Hk. unfold wireRecord. rewrite Hraw. cbn [getProp].
    rewrite (lookup_assignProperties k _ _ Hnd). cbn [lookup].
    destruct (lookup k fields); [reflexivity|].
    destruct (String.eqb_spec "_id" k) as [<-|_]; [contradiction|reflexivity]. }
  assert (Henvelope : envelopeId (wireRecord e) = ev_id e).
  { unfold envelopeId, wireRecord. rewrite Hraw. cbn [getProp].
    rewrite (lookup_assignProperties "_id" _ _ Hnd). cbn [lookup].
    destruct Hid as [-> | ->]; reflexivity. }
  assert (Hpayload : payloadOf (wireRecord e) = wireRecord e).
  { unfold payloadOf, orv. rewrite Hprops by discriminate.
    rewrite Hsource. reflexivity. }
  assert (Hagree : agreeOn pathsRead (ev_raw e) (wireRecord e)).
  { intros path d Hin. unfold wireRecord at 1. rewrite Hraw.
    apply getNestedValue_top. rewrite <- Hraw.
    change (VObj (assignProperties [("_id", ev_id e)] (ev_raw e)))
      with (wireRecord e).
    symmetry. apply Hprops.
    assert (Hall : forallb (fun p => negb (firstSegment p =? "_id")) pathsRead
                   = true) by (vm_compute; reflexivity).
    rewrite forallb_forall in Hall. specialize (Hall _ Hin).
    destruct (String.eqb_spec (firstSegment path) "_id");
      [discriminate Hall | assumption]. }
  rewrite parseEvent_unfold by (unfold wireRecord; discriminate).
  rewrite Hpayload, Henvelope, Htruthy.
  rewrite <- (parseTimestamp_agree _ _ Hagree),
          <- (extractCategory_agree _ _ Hagree),
          <- (extractConnectionInfo_agree _ _ Hagree),
          <- (extractSummary_agree _ _ Hagree),
          <- (extractDetails_agree _ _ Hagree),
          <- (extractHostIdentifier_agree _ _ Hagree).
  bind_inv Hparse. destruct a as [t|]; [|discriminate Hparse].
  bind_inv Hparse. bind_inv Hparse. bind_inv Hparse. bind_inv Hparse.
  injection Hparse as <-. cbn [ev_raw ev_id ev_timestamp ev_host ev_category
                                ev_connection ev_summary ev_details] in *.
  fold raw. rewrite Ha, Ha0, Ha1, Ha2. cbn [bind]. reflexivity.
Qed.

(** X12 on a host record and the same record with a [labels] field. *)
Lemma parseEvent_reads_listed_paths_witness :
  envelopeId plainRecord = envelopeId labelledRecord
  /\ agreeOn pathsRead (payloadOf plainRecord) (payloadOf labelledRecord)
  /\ exists e,
       parseEvent isoDate 0 plainRecord 3 = Ok (Some e)
       /\ parseEvent isoDate 0 labelledRecord 3
          = Ok (Some (mkEvent (ev_id e) (ev_timestamp e) (ev_host e)
                        (ev_category e) (ev_connection e) (ev_summary e)
                        (ev_details e) labelledRecord)).
Proof.
  assert (Hagree : agreeOn pathsRead (payloadOf plainRecord)
                     (payloadOf labelledRecord)).
  { intros path d Hin. apply getNestedValue_top.
    vm_compute in Hin.
    repeat (destruct Hin as [<- | Hin]; [reflexivity|]). destruct Hin. }
  split; [reflexivity|]. split; [exact Hagree|].
  destruct (parseEvent isoDate 0 plainRecord 3) as [[e|]|err] eqn:H;
    [|vm_compute in H; discriminate H|vm_compute in H; discriminate H].
  exists e. split; [reflexivity|].
  pose proof (parseEvent_reads_listed_paths isoDate 0 plainRecord
                labelledRecord 3) as Hsame.
  rewrite H in Hsame. apply Hsame; try discriminate; [reflexivity|].
  exact Hagree.
Defined.


(** X13.  An exported record, read again at any position, gives the event
    it was exported from up to the identifier: the export keeps the payload
    and not the envelope, so the identifier is read from the payload or
    made again for the new position.  The payload holds no truthy
    [_source]. *)
Theorem exported_record_reparses (parseDate : string -> option Z)
  (now now' : Z) (rawEvent : value) (index index' : nat) (e : CanonicalEvent) :
  parseEvent parseDate now rawEvent index = Ok (Some e) ->
  truthy (getProp (ev_raw e) "_source") = false ->
  parseEvent parseDate now' (ev_raw e) index'
  = (eventId <-
       (if truthy (envelopeId (ev_raw e)) then Ok (envelopeId (ev_raw e))
        else generateEventId now' (ev_raw e) (Some (ev_timestamp e)) index') ;;
     Ok (Some (mkEvent eventId (ev_timestamp e) (ev_host e) (ev_category e)
                 (ev_connection e) (ev_summary e) (ev_details e)
                 (ev_raw e)))).
Proof.
  intros Hparse Hsource.
  destruct (parseEvent_ok_not_null _ _ _ _ _ Hparse) as [Hnull Hundef].
  rewrite (parseEvent_unfold _ _ _ _ Hnull Hundef) in Hparse.
  bind_inv Hparse. destruct a as [t|]; [|discriminate Hparse].
  bind_inv Hparse. bind_inv Hparse. bind_inv Hparse. bind_inv Hparse.
  injection Hparse as <-.
  cbn [ev_raw ev_id ev_timestamp ev_host ev_category ev_connection
       ev_summary ev_details] in *.
  destruct (parseTimestamp_object _ _ _ Ha) as (fields & Hfields).
  assert (Hpayload : payloadOf (payloadOf rawEvent) = payloadOf rawEvent).
  { unfold payloadOf at 1. unfold orv. rewrite Hsource. reflexivity. }
  rewrite parseEvent_unfold by (rewrite Hfields; discriminate).
  rewrite Hpayload, Ha. cbn [bind]. rewrite Ha0, Ha1, Ha2. cbn [bind].
  reflexivity.
Qed.

(** X13 on an enveloped record: read again, the exported payload gets a
    synthesized identifier in place of the envelope identifier. *)
Lemma exported_record_reparses_witness :
  exists e,
    parseEvent isoDate 0 envelopedLogin 0 = Ok (Some e)
    /\ ev_id e = VStr "es-7"
    /\ parseEvent isoDate 0 (ev_raw e) 0
       = Ok (Some (mkEvent (VStr "1705314600000-dc01-0") (ev_timestamp e)
                     (ev_host e) (ev_category e) (ev_connection e)
                     (ev_summary e) (ev_details e) (ev_raw e))).
Proof.
  destruct (parseEvent isoDate 0 envelopedLogin 0) as [[e|]|err] eqn:H;
    [|vm_compute in H; discriminate H|vm_compute in H; discriminate H].
  assert (Hraw : ev_raw e = getProp envelopedLogin "_source")
    by (vm_compute in H; injection H as <-; reflexivity).
  assert (Htime : ev_timestamp e = 1705314600000%Z)
    by (vm_compute in H; injection H as <-; reflexivity).
  assert (Hid : ev_id e = VStr "es-7")
    by (vm_compute in H; injection H as <-; reflexivity).
  exists e. split; [reflexivity|]. split; [exact Hid|].
  assert (Hsource : truthy (getProp (ev_raw e) "_source") = false)
    by (rewrite Hraw; reflexivity).
  assert (Hgen : (if truthy (envelopeId (ev_raw e))
                  then Ok (envelopeId (ev_raw e))
                  else generateEventId 0 (ev_raw e) (Some (ev_timestamp e)) 0)
                 = Ok (VStr "1705314600000-dc01-0"))
    by (rewrite Hraw, Htime; reflexivity).
  rewrite (exported_record_reparses isoDate 0 0 envelopedLogin 0 0 e H
             Hsource).
  rewrite Hgen. reflexivity.
Defined.

(** ** The application: merging a batch into the timeline *)

Lemma subsequence_filter {A : Type} (f : A -> bool) (l : list A) :
  subsequence (filter f l) l.
Proof.
  induction l as [|x rest IH]; cbn [filter]; [apply subsequence_nil|].
  destruct (f x); [apply subsequence_keep | apply subsequence_skip]; exact IH.
Qed.

Lemma uniqueAgainst_fresh (current newParsed : list CanonicalEvent)
  (e : CanonicalEvent) :
  In e (uniqueAgainst current newParsed) ->
  In e newParsed
  /\ Forall (fun old => strictEq (ev_id e) (ev_id old) = false) current.
Proof.
  unfold uniqueAgainst. intros H. apply filter_In in H.
  destruct H as [Hin Hfresh]. split; [exact Hin|].
  rewrite setHas_setOf in Hfresh. apply negb_true_iff in Hfresh.
  apply Forall_forall. intros old Hold.
  destruct (strictEq (ev_id e) (ev_id old)) eqn:Heq; [|reflexivity].
  rewrite <- Hfresh. symmetry. apply existsb_exists.
  exists (ev_id old). split; [now apply in_map | exact Heq].
Qed.

(** What [handleEventsAdded] adds to the timeline. *)
Lemma handleEventsAdded_events (parseDate : string -> option Z)
  (JSON_parse : string -> option value) (now : Z) (state : AppState)
  (rawEvents : list value) :
  currentEvents (fst (handleEventsAdded parseDate JSON_parse now state rawEvents))
  = (currentEvents state
     ++ match parseEvents parseDate JSON_parse now (VArr rawEvents) with
        | Ok newParsed => uniqueAgainst (currentEvents state) newParsed
        | Throw _ => []
        end)%list.
Proof.
  unfold handleEventsAdded.
  destruct rawEvents as [|rawEvent rest].
  - cbn. now rewrite app_nil_r.
  - destruct (parseEvents parseDate JSON_parse now (VArr (rawEvent :: rest)))
      as [newParsed|err]; [|cbn; now rewrite app_nil_r].
    destruct (uniqueAgainst (currentEvents state) newParsed)
      as [|e uniqueNew]; [cbn; now rewrite app_nil_r|].
    destruct (buildHostRegistry (currentEvents state ++ e :: uniqueNew))
      as [registry|err]; [|reflexivity].
    destruct (identifyConnections (currentEvents state ++ e :: uniqueNew)
                registry); reflexivity.
Qed.

(** X14.  The timeline only grows, and never by an event whose identifier
    is there: whatever [handleEventsAdded] is given and however it ends,
    the events after it are the events before it followed by some of the
    events parsed from the batch, in their order, each with an identifier
    that no event before it had. *)
Theorem handleEventsAdded_appends_new_events
  (parseDate : string -> option Z) (JSON_parse : string -> option value)
  (now : Z) (state : AppState) (rawEvents : list value) :
  exists added,
    currentEvents
      (fst (handleEventsAdded parseDate JSON_parse now state rawEvents))
    = (currentEvents state ++ added)%list
    /\ Forall (fun e =>
                 Forall (fun old => strictEq (ev_id e) (ev_id old) = false)
                        (currentEvents state))
              added
    /\ (added = []
        \/ exists newParsed,
             parseEvents parseDate JSON_parse now (VArr rawEvents)
             = Ok newParsed
             /\ subsequence added newParsed).
Proof.
  rewrite handleEventsAdded_events.
  destruct (parseEvents parseDate JSON_parse now (VArr rawEvents))
    as [newParsed|err].
  - exists (uniqueAgainst (currentEvents state) newParsed).
    split; [reflexivity|]. split.
    + apply Forall_forall. intros e He.
      now destruct (uniqueAgainst_fresh _ _ _ He).
    + right. exists newParsed. split; [reflexivity|].
      apply subsequence_filter.
  - exists []. split; [reflexivity|]. split; [constructor | now left].
Qed.

Lemma parseEvents_ignores_clock (parseDate : string -> option Z)
  (JSON_parse : string -> option value) (now now' : Z) (input : value) :
  parseEvents parseDate JSON_parse now input
  = parseEvents parseDate JSON_parse now' input.
Proof.
  unfold parseEvents. destruct (rawEventsOf JSON_parse input); [|reflexivity].
  cbn [bind].
  rewrite (mapIndexed_ext (parseEvent parseDate now)
             (parseEvent parseDate now')); [reflexivity|].
  intros x i. apply parseEvent_ignores_clock.
Qed.

Lemma filter_none {A : Type} (f : A -> bool) (l : list A) :
  (forall x, In x l -> f x = false) -> filter f l = [].
Proof.
  induction l as [|x rest IH]; intros H; [reflexivity|].
  cbn [filter]. rewrite (H x (or_introl eq_refl)).
  apply IH. intros y Hy. apply H. now right.
Qed.

(** Filtering a batch against a list extended by what the filter let
    through lets nothing through. *)
Lemma fresh_again {A : Type} (key : A -> value) (current batch : list A) :
  Forall (fun e => isPrimitive (key e)) batch ->
  filter (fun e =>
            negb (setHas (key e)
                    (setOf (map key
                       (current
                        ++ filter (fun e =>
                                     negb (setHas (key e)
                                             (setOf (map key current))))
                                  batch)))))
         batch
  = [].
Proof.
  intros Hprim. apply filter_none. intros e He. apply negb_false_iff.
  rewrite setHas_setOf, map_app, existsb_app.
  destruct (existsb (strictEq (key e)) (map key current)) eqn:Hold;
    [reflexivity|].
  cbn [orb]. apply existsb_exists. exists (key e). split.
  - apply (in_map key). apply filter_In.
    split; [exact He|]. rewrite setHas_setOf, Hold. reflexivity.
  - apply strictEq_refl. rewrite Forall_forall in Hprim. now apply Hprim.
Qed.

Lemma uniqueAgainst_again (current newParsed : list CanonicalEvent) :
  Forall (fun e => isPrimitive (ev_id e)) newParsed ->
  uniqueAgainst (current ++ uniqueAgainst current newParsed) newParsed = [].
Proof.
  intros Hprim. exact (fresh_again ev_id current newParsed Hprim).
Qed.

(** X15.  A batch that arrives a second time adds nothing: after
    [handleEventsAdded] has handled a batch whose events have primitive
    identifiers, handling the same batch again, at any later time, leaves
    the timeline, the registry and the connections as they are, and ends
    without an exception. *)
Theorem handleEventsAdded_replay (parseDate : string -> option Z)
  (JSON_parse : string -> option value) (now now' : Z) (state : AppState)
  (rawEvents : list value) (newParsed : list CanonicalEvent) :
  parseEvents parseDate JSON_parse now (VArr rawEvents) = Ok newParsed ->
  Forall (fun e => isPrimitive (ev_id e)) newParsed ->
  handleEventsAdded parseDate JSON_parse now'
    (fst (handleEventsAdded parseDate JSON_parse now state rawEvents))
    rawEvents
  = (fst (handleEventsAdded parseDate JSON_parse now state rawEvents), Ok tt).
Proof.
  intros Hparse Hprim.
  pose proof (handleEventsAdded_events parseDate JSON_parse now state
                rawEvents) as Hevents.
  rewrite Hparse in Hevents.
  set (state1 := fst (handleEventsAdded parseDate JSON_parse now state
                        rawEvents)) in *.
  unfold handleEventsAdded at 1.
  destruct rawEvents as [|rawEvent rest]; [reflexivity|].
  rewrite (parseEvents_ignores_clock parseDate JSON_parse now' now), Hparse.
  rewrite Hevents, (uniqueAgainst_again _ _ Hprim). reflexivity.
Qed.

(** X15 on the two records of the cross-host scenario, delivered twice to
    an empty timeline. *)
Lemma handleEventsAdded_replay_witness :
  List.length
    (currentEvents
       (fst (handleEventsAdded isoDate noJson 0 emptyApp
               [clientRecord; serverRecord]))) = 2%nat
  /\ handleEventsAdded isoDate noJson 5
       (fst (handleEventsAdded isoDate noJson 0 emptyApp
               [clientRecord; serverRecord]))
       [clientRecord; serverRecord]
     = (fst (handleEventsAdded isoDate noJson 0 emptyApp
               [clientRecord; serverRecord]), Ok tt).
Proof.
  split; [vm_compute; reflexivity|].
  destruct (parseEvents isoDate noJson 0 (VArr [clientRecord; serverRecord]))
    as [newParsed|err] eqn:Hparse; [|vm_compute in Hparse; discriminate Hparse].
  apply (handleEventsAdded_replay isoDate noJson 0 5 emptyApp
           [clientRecord; serverRecord] newParsed Hparse).
  vm_compute in Hparse. injection Hparse as <-.
  repeat constructor.
Defined.

(** X16.  An event with a host name that is not a string blocks the
    timeline it is in: from then on [handleEventsAdded] either changes
    nothing, or adds events and throws a [TypeError] with the registry and
    the connections left as they were. *)
Theorem bad_name_blocks_the_timeline (parseDate : string -> option Z)
  (JSON_parse : string -> option value) (now : Z) (state : AppState)
  (rawEvents : list value) (bad : CanonicalEvent) :
  In bad (currentEvents state) ->
  ~ hostNamesAreStrings bad ->
  fst (handleEventsAdded parseDate JSON_parse now state rawEvents) = state
  \/ (snd (handleEventsAdded parseDate JSON_parse now state rawEvents)
      = Throw TypeError
      /\ currentHostRegistry
           (fst (handleEventsAdded parseDate JSON_parse now state rawEvents))
         = currentHostRegistry state
      /\ currentConnections
           (fst (handleEventsAdded parseDate JSON_parse now state rawEvents))
         = currentConnections state).
Proof.
  intros Hin Hbad. unfold handleEventsAdded.
  destruct rawEvents as [|rawEvent rest]; [now left|].
  destruct (parseEvents parseDate JSON_parse now (VArr (rawEvent :: rest)))
    as [newParsed|err]; [|now left].
  destruct (uniqueAgainst (currentEvents state) newParsed)
    as [|e uniqueNew]; [now left|].
  rewrite (buildHostRegistry_bad_name
             (currentEvents state ++ e :: uniqueNew) bad);
    [right; repeat split | apply in_or_app; now left | exact Hbad].
Qed.

(** X16 on a timeline that took a record whose hostname is the number 123:
    the next batch is added, and the registry stays unbuilt. *)
Lemma bad_name_blocks_the_timeline_witness :
  exists bad,
    In bad (currentEvents
              (fst (handleEventsAdded isoDate noJson 0 emptyApp
                      [numericHostname])))
    /\ hostname (ev_host bad) = VNum 123
    /\ snd (handleEventsAdded isoDate noJson 0
              (fst (handleEventsAdded isoDate noJson 0 emptyApp
                      [numericHostname]))
              [clientRecord])
       = Throw TypeError
    /\ currentHostRegistry
         (fst (handleEventsAdded isoDate noJson 0
                 (fst (handleEventsAdded isoDate noJson 0 emptyApp
                         [numericHostname]))
                 [clientRecord]))
       = None.
Proof.
  set (state1 := fst (handleEventsAdded isoDate noJson 0 emptyApp
                        [numericHostname])).
  destruct (currentEvents state1) as [|bad others] eqn:Hevents;
    [vm_compute in Hevents; discriminate Hevents|].
  assert (Hname : hostname (ev_host bad) = VNum 123)
    by (vm_compute in Hevents; injection Hevents as <- _; reflexivity).
  assert (Hin : In bad (currentEvents state1))
    by (rewrite Hevents; left; reflexivity).
  assert (Hbad : ~ hostNamesAreStrings bad)
    by (intros [Hstring _]; rewrite Hname in Hstring; exact Hstring).
  exists bad. rewrite <- Hevents. split; [exact Hin|]. split; [exact Hname|].
  destruct (bad_name_blocks_the_timeline isoDate noJson 0 state1
              [clientRecord] bad Hin Hbad)
    as [Hsame | (Hthrow & Hregistry & _)].
  - exfalso.
    assert (Hlen : List.length
                     (currentEvents
                        (fst (handleEventsAdded isoDate noJson 0 state1
                                [clientRecord]))) = 2%nat)
      by (vm_compute; reflexivity).
    rewrite Hsame in Hlen. vm_compute in Hlen. discriminate Hlen.
  - split; [exact Hthrow|]. rewrite Hregistry. reflexivity.
Defined.

(** ** The relay *)

Lemma mapM_In {A B : Type} (f : A -> result B) (l : list A) (out : list B) :
  mapM f l = Ok out ->
  forall x, In x l -> exists y, f x = Ok y /\ In y out.
Proof.
  revert out. induction l as [|x0 rest IH]; cbn [mapM]; intros out H x Hx;
    [contradiction|].
  bind_inv H. bind_inv H. injection H as <-.
  destruct Hx as [<- | Hx].
  - exists a. split; [exact Ha | now left].
  - destruct (IH _ Ha0 x Hx) as (y & Hy & Hin). exists y.
    split; [exact Hy | now right].
Qed.

Lemma filterM_In {A : Type} (f : A -> result bool) (l out : list A) :
  filterM f l = Ok out ->
  subsequence out l /\ forall x, In x out -> In x l /\ f x = Ok true.
Proof.
  revert out. induction l as [|x0 rest IH]; cbn [filterM]; intros out H.
  - injection H as <-. split; [apply subsequence_nil | contradiction].
  - bind_inv H. bind_inv H. injection H as <-.
    destruct (IH _ Ha0) as [Hsub Hall].
    destruct a.
    + split; [now apply subsequence_keep|].
      intros x [<- | Hx]; [split; [now left | exact Ha]|].
      destruct (Hall x Hx). split; [now right | assumption].
    + split; [now apply subsequence_skip|].
      intros x Hx. destruct (Hall x Hx). split; [now right | assumption].
Qed.

Lemma filterM_length {A : Type} (f : A -> result bool) (l out : list A) :
  filterM f l = Ok out -> (List.length out <= List.length l)%nat.
Proof.
  revert out. induction l as [|x0 rest IH]; cbn [filterM]; intros out H.
  - injection H as <-. reflexivity.
  - bind_inv H. bind_inv H. injection H as <-.
    specialize (IH _ Ha0). destruct a; cbn [List.length]; lia.
Qed.

Lemma setHas_false (x : value) (l : list value) :
  setHas x (setOf l) = false -> forall y, In y l -> strictEq x y = false.
Proof.
  rewrite setHas_setOf. intros H y Hy.
  destruct (strictEq x y) eqn:Heq; [|reflexivity].
  rewrite <- H. symmetry. apply existsb_exists. eauto.
Qed.

(** X17.  The relay keeps what it stores until it is told to clear: a
    message of any other type leaves the stored records in place and in
    order, followed by the records it adds; every added record is one of
    the batch, and its key [_id || id] is the key of no stored record. *)
Theorem relay_keeps_stored_records (state : ServerState) (message : value)
  (stored : list value) :
  timelineEvents state = VArr stored ->
  strictEq (getProp message "type") (VStr "CLEAR") = false ->
  exists added,
    timelineEvents (fst (handleMessage state message))
    = VArr (stored ++ added)%list
    /\ (added = []
        \/ exists events,
             getProp message "events" = VArr events
             /\ subsequence added events)
    /\ forall e, In e added ->
         exists key,
           eventKey e = Ok key
           /\ forall old oldKey,
                In old stored -> eventKey old = Ok oldKey ->
                strictEq key oldKey = false.
Proof.
  intros Hstored Hclear.
  assert (Hnone : exists added,
             timelineEvents state = VArr (stored ++ added)%list
             /\ (added = []
                 \/ exists events,
                      getProp message "events" = VArr events
                      /\ subsequence added events)
             /\ forall e, In e added ->
                  exists key,
                    eventKey e = Ok key
                    /\ forall old oldKey,
                         In old stored -> eventKey old = Ok oldKey ->
                         strictEq key oldKey = false).
  { exists []. rewrite app_nil_r. split; [exact Hstored|].
    split; [now left | contradiction]. }
  unfold handleMessage.
  destruct message as [| |?|?|?|?|fields]; try exact Hnone;
    rewrite Hclear;
    (destruct (strictEq _ (VStr "ADD_EVENTS")) eqn:Hadd;
       [|destruct (strictEq _ (VStr "REQUEST_SYNC")); exact Hnone]);
    unfold addEvents; rewrite Hstored;
    (destruct (mapM eventKey stored) as [keys|err] eqn:Hkeys;
       cbn [bind]; [|exact Hnone]);
    (destruct (getProp _ "events") as [| |?|?|?|events|?] eqn:Hevents;
       try exact Hnone);
    (destruct (filterM _ events) as [[|e newEvents]|err] eqn:Hfilter;
       cbn [bind]; try exact Hnone).
  all: exists (e :: newEvents); cbn [fst timelineEvents];
    destruct (filterM_In _ _ _ Hfilter) as [Hsub Hall];
    (split; [reflexivity|]);
    (split; [right; exists events; split; [reflexivity | exact Hsub]|]);
    intros x Hx; destruct (Hall x Hx) as [_ Hfresh];
    bind_inv Hfresh; exists a; (split; [exact Ha|]);
    intros old oldKey Hold HoldKey;
    destruct (mapM_In _ _ _ Hkeys old Hold) as (k & Hk & Hin);
    assert (k = oldKey) by congruence; subst k;
    injection Hfresh as Hfresh; apply negb_true_iff in Hfresh;
    exact (setHas_false _ _ Hfresh _ Hin).
Qed.

Lemma eventKey_defined (e : value) :
  definedRecord e -> eventKey e = Ok (keyOf e).
Proof. intros [Hnull Hundef]. destruct e; congruence || reflexivity. Qed.

Lemma mapM_ok {A B : Type} (f : A -> result B) (g : A -> B) (l : list A) :
  (forall x, In x l -> f x = Ok (g x)) -> mapM f l = Ok (map g l).
Proof.
  induction l as [|x rest IH]; intros H; [reflexivity|].
  cbn [mapM map]. rewrite (H x (or_introl eq_refl)). cbn [bind].
  rewrite IH; [reflexivity|]. intros y Hy. apply H. now right.
Qed.

Lemma filterM_ok {A : Type} (f : A -> result bool) (g : A -> bool)
  (l : list A) :
  (forall x, In x l -> f x = Ok (g x)) -> filterM f l = Ok (filter g l).
Proof.
  induction l as [|x rest IH]; intros H; [reflexivity|].
  cbn [filterM filter]. rewrite (H x (or_introl eq_refl)). cbn [bind].
  rewrite IH; [reflexivity|]. intros y Hy. apply H. now right.
Qed.

Lemma filter_length_le {A : Type} (f : A -> bool) (l : list A) :
  (List.length (filter f l) <= List.length l)%nat.
Proof.
  induction l as [|x rest IH]; cbn [filter List.length]; [lia|].
  destruct (f x); cbn [List.length]; lia.
Qed.

(** [ADD_EVENTS] on records that are all defined. *)
Lemma addEvents_defined (state : ServerState) (message : value)
  (stored events : list value) :
  timelineEvents state = VArr stored ->
  getProp message "events" = VArr events ->
  Forall definedRecord stored ->
  Forall definedRecord events ->
  addEvents state message
  = Ok (match freshRecords stored events with
        | [] => state
        | added => mkServer (VArr (stored ++ added)) true
        end,
        (announcement (freshRecords stored events)
         ++ [(ToSender,
              confirmation (List.length (freshRecords stored events))
                (List.length events
                 - List.length (freshRecords stored events)))])%list).
Proof.
  intros Hstored Hevents Hs He. unfold addEvents.
  rewrite Hstored, Hevents.
  rewrite (mapM_ok eventKey keyOf stored).
  2:{ intros x Hx. apply eventKey_defined.
      rewrite Forall_forall in Hs. now apply Hs. }
  cbn [bind].
  rewrite (filterM_ok _
             (fun e => negb (setHas (keyOf e) (setOf (map keyOf stored))))).
  2:{ intros x Hx. rewrite eventKey_defined; [reflexivity|].
      rewrite Forall_forall in He. now apply He. }
  cbn [bind]. fold (freshRecords stored events).
  destruct (freshRecords stored events) as [|e rest]; [|reflexivity].
  cbn [announcement app List.length]. rewrite Nat.sub_0_r. reflexivity.
Qed.

(** X18.  The sender of a batch is told what became of it: for a batch of
    defined records on a store of defined records, the relay appends some
    records [added] of the batch, tells the other clients of exactly these
    when there are any, and confirms to the sender their number as [count]
    and the number of the others as [duplicates]; the two add up to the
    size of the batch. *)
Theorem relay_confirms_every_batch (state : ServerState) (message : value)
  (stored events : list value) :
  getProp message "type" = VStr "ADD_EVENTS" ->
  getProp message "events" = VArr events ->
  timelineEvents state = VArr stored ->
  Forall definedRecord stored ->
  Forall definedRecord events ->
  exists added duplicates,
    timelineEvents (fst (handleMessage state message))
    = VArr (stored ++ added)%list
    /\ snd (handleMessage state message)
       = (announcement added
          ++ [(ToSender, confirmation (List.length added) duplicates)])%list
    /\ (List.length added + duplicates = List.length events)%nat.
Proof.
  intros Htype Hevents Hstored Hs He.
  exists (freshRecords stored events),
         (List.length events - List.length (freshRecords stored events))%nat.
  unfold handleMessage.
  destruct message; try discriminate Htype.
  rewrite Htype. cbn [strictEq String.eqb Ascii.eqb Bool.eqb].
  rewrite (addEvents_defined _ _ _ _ Hstored Hevents Hs He).
  cbn [fst snd]. split; [|split; [reflexivity|]].
  - destruct (freshRecords stored events); [|reflexivity].
    rewrite app_nil_r. exact Hstored.
  - pose proof (filter_length_le
                  (fun e => negb (setHas (keyOf e) (setOf (map keyOf stored))))
                  events).
    unfold freshRecords. lia.
Qed.

(** X19.  A batch that arrives a second time is confirmed as all
    duplicates: after [ADD_EVENTS] with a batch of defined records whose
    keys are primitive, the same message changes nothing in the store, is
    told to no other client, and is confirmed with [count] 0. *)
Theorem relay_replay (state : ServerState) (message : value)
  (stored events : list value) :
  getProp message "type" = VStr "ADD_EVENTS" ->
  getProp message "events" = VArr events ->
  timelineEvents state = VArr stored ->
  Forall definedRecord stored ->
  Forall definedRecord events ->
  Forall (fun e => isPrimitive (keyOf e)) events ->
  handleMessage (fst (handleMessage state message)) message
  = (fst (handleMessage state message),
     [(ToSender, confirmation 0 (List.length events))]).
Proof.
  intros Htype Hevents Hstored Hs He Hprim.
  assert (Hfirst : fst (handleMessage state message)
                   = match freshRecords stored events with
                     | [] => state
                     | added => mkServer (VArr (stored ++ added)) true
                     end).
  { unfold handleMessage. destruct message; try discriminate Htype.
    rewrite Htype. cbn [strictEq String.eqb Ascii.eqb Bool.eqb].
    rewrite (addEvents_defined _ _ _ _ Hstored Hevents Hs He). reflexivity. }
  assert (Hsub : Forall definedRecord (freshRecords stored events)).
  { apply Forall_forall. intros e Hin. apply filter_In in Hin.
    rewrite Forall_forall in He. now apply He. }
  assert (Hstored' : timelineEvents (fst (handleMessage state message))
                     = VArr (stored ++ freshRecords stored events)).
  { rewrite Hfirst. destruct (freshRecords stored events); [|reflexivity].
    rewrite app_nil_r. exact Hstored. }
  unfold handleMessage at 1. destruct message; try discriminate Htype.
  rewrite Htype. cbn [strictEq String.eqb Ascii.eqb Bool.eqb].
  rewrite (addEvents_defined _ _ _ _ Hstored' Hevents).
  - assert (Hnone : freshRecords (stored ++ freshRecords stored events) events
                    = [])
      by exact (fresh_again keyOf stored events Hprim).
    rewrite Hnone. cbn [announcement app List.length].
    rewrite Nat.sub_0_r. reflexivity.
  - apply Forall_app. split; assumption.
  - exact He.
Qed.

(** X17 on a store with the record "a" and a batch of "a" and "b". *)
Lemma relay_keeps_stored_records_witness :
  exists added,
    timelineEvents
      (fst (handleMessage (relayWith [relayedRecord "a"])
              (addBatch [relayedRecord "a"; relayedRecord "b"])))
    = VArr ([relayedRecord "a"] ++ added)%list
    /\ added = [relayedRecord "b"].
Proof.
  destruct (relay_keeps_stored_records (relayWith [relayedRecord "a"])
              (addBatch [relayedRecord "a"; relayedRecord "b"])
              [relayedRecord "a"] eq_refl eq_refl)
    as (added & Hadded & _).
  exists added. split; [exact Hadded|].
  vm_compute in Hadded. injection Hadded as <-. reflexivity.
Defined.

(** X18 on the same store and batch: one record added, one duplicate. *)
Lemma relay_confirms_every_batch_witness :
  exists added duplicates,
    snd (handleMessage (relayWith [relayedRecord "a"])
           (addBatch [relayedRecord "a"; relayedRecord "b"]))
    = (announcement added
       ++ [(ToSender, confirmation (List.length added) duplicates)])%list
    /\ added = [relayedRecord "b"]
    /\ duplicates = 1%nat.
Proof.
  assert (Hs : Forall definedRecord [relayedRecord "a"])
    by (repeat constructor; discriminate).
  assert (He : Forall definedRecord [relayedRecord "a"; relayedRecord "b"])
    by (repeat constructor; discriminate).
  destruct (relay_confirms_every_batch (relayWith [relayedRecord "a"])
              (addBatch [relayedRecord "a"; relayedRecord "b"])
              [relayedRecord "a"] [relayedRecord "a"; relayedRecord "b"]
              eq_refl eq_refl eq_refl Hs He)
    as (added & duplicates & Hstore & Hsent & Hsum).
  exists added, duplicates. split; [exact Hsent|].
  vm_compute in Hstore. injection Hstore as <-.
  split; [reflexivity|]. cbn in Hsum. lia.
Defined.

(** X19 on the same store and batch. *)
Lemma relay_replay_witness :
  timelineEvents
    (fst (handleMessage (relayWith [relayedRecord "a"])
            (addBatch [relayedRecord "a"; relayedRecord "b"])))
  = VArr [relayedRecord "a"; relayedRecord "b"]
  /\ handleMessage
       (fst (handleMessage (relayWith [relayedRecord "a"])
               (addBatch [relayedRecord "a"; relayedRecord "b"])))
       (addBatch [relayedRecord "a"; relayedRecord "b"])
     = (fst (handleMessage (relayWith [relayedRecord "a"])
               (addBatch [relayedRecord "a"; relayedRecord "b"])),
        [(ToSender, confirmation 0 2)]).
Proof.
  split; [reflexivity|].
  apply (relay_replay (relayWith [relayedRecord "a"])
           (addBatch [relayedRecord "a"; relayedRecord "b"])
           [relayedRecord "a"] [relayedRecord "a"; relayedRecord "b"]
           eq_refl eq_refl eq_refl);
    repeat constructor; discriminate.
Defined.

Lemma filterM_throws {A : Type} (f : A -> result bool) (l : list A) (x : A)
  (e : error) :
  In x l -> f x = Throw e -> exists e', filterM f l = Throw e'.
Proof.
  induction l as [|y rest IH]; intros Hin Hx; [contradiction|].
  cbn [filterM]. destruct Hin as [-> | Hin].
  - rewrite Hx. cbn [bind]. eauto.
  - destruct (f y); cbn [bind]; [|eauto].
    destruct (IH Hin Hx) as (e' & ->). cbn [bind]. eauto.
Qed.

(** X20.  One [null] in a batch and the relay drops the batch without a
    word: nothing is stored, no client is told, and the sender gets no
    confirmation. *)
Theorem relay_drops_batch_with_null (state : ServerState) (message : value)
  (events : list value) :
  getProp message "type" = VStr "ADD_EVENTS" ->
  getProp message "events" = VArr events ->
  In VNull events ->
  handleMessage state message = (state, []).
Proof.
  intros Htype Hevents Hnull. unfold handleMessage.
  destruct message; try discriminate Htype.
  rewrite Htype. cbn [strictEq String.eqb Ascii.eqb Bool.eqb].
  unfold addEvents. rewrite Hevents.
  destruct (timelineEvents state) as [| |?|?|?|stored|?]; try reflexivity.
  destruct (mapM eventKey stored) as [keys|err]; cbn [bind]; [|reflexivity].
  destruct (filterM_throws
              (fun e => id <- eventKey e ;;
                        Ok (negb (setHas id (setOf keys))))
              events VNull TypeError Hnull eq_refl) as (e' & ->).
  reflexivity.
Qed.

Lemma relay_drops_batch_with_null_witness :
  handleMessage (relayWith [relayedRecord "a"])
    (addBatch [relayedRecord "b"; VNull])
  = (relayWith [relayedRecord "a"], []).
Proof.
  apply (relay_drops_batch_with_null (relayWith [relayedRecord "a"])
           (addBatch [relayedRecord "b"; VNull]) [relayedRecord "b"; VNull]
           eq_refl eq_refl).
  right. left. reflexivity.
Defined.

(** X21.  The relay files a relayed record under the identifier of its
    event: the key [_id || id] of what a client sends for an event is the
    identifier of the event, when the payload holds no [_id] of its own or
    that identifier. *)
Theorem relay_key_is_event_id (parseDate : string -> option Z) (now : Z)
  (rawEvent : value) (index : nat) (e : CanonicalEvent)
  (fields : list (string * value)) :
  parseEvent parseDate now rawEvent index = Ok (Some e) ->
  ev_raw e = VObj fields ->
  NoDup (map fst fields) ->
  lookup "_id" fields = None \/ lookup "_id" fields = Some (ev_id e) ->
  eventKey (wireRecord e) = Ok (ev_id e).
Proof.
  intros Hparse Hraw Hnd Hid.
  assert (Htruthy : truthy (ev_id e) = true).
  { pose proof (parseEvent_some _ _ _ _ _ Hparse)
      as (_ & _ & _ & _ & _ & Hgen).
    destruct (truthy (envelopeId rawEvent)) eqn:Henv; [congruence|].
    now apply generateEventId_truthy in Hgen. }
  unfold eventKey, wireRecord, orv. rewrite Hraw. cbn [getProp].
  rewrite (lookup_assignProperties "_id" _ _ Hnd). cbn [lookup].
  destruct Hid as [-> | ->]; cbn [String.eqb Ascii.eqb Bool.eqb];
    rewrite Htruthy; reflexivity.
Qed.

Lemma relay_key_is_event_id_witness :
  exists e,
    parseEvent isoDate 0 envelopedLogin 0 = Ok (Some e)
    /\ eventKey (wireRecord e) = Ok (VStr "es-7").
Proof.
  destruct (parseEvent isoDate 0 envelopedLogin 0) as [[e|]|err] eqn:H;
    [|vm_compute in H; discriminate H|vm_compute in H; discriminate H].
  assert (Hraw : ev_raw e = getProp envelopedLogin "_source")
    by (vm_compute in H; injection H as <-; reflexivity).
  assert (Hid : ev_id e = VStr "es-7")
    by (vm_compute in H; injection H as <-; reflexivity).
  exists e. split; [reflexivity|]. rewrite <- Hid.
  refine (relay_key_is_event_id isoDate 0 envelopedLogin 0 e _ H Hraw _ _).
  - repeat constructor; cbn; intuition discriminate.
  - left. reflexivity.
Defined.

Lemma mapIndexed_map_ok {A B C : Type} (f : B -> nat -> result C)
  (h : A -> B) (g : A -> C) (l : list A) :
  (forall x i, In x l -> f (h x) i = Ok (g x)) ->
  forall k, mapIndexed f (map h l) k = Ok (map g l).
Proof.
  induction l as [|x rest IH]; intros H k; [reflexivity|].
  cbn [mapIndexed map]. rewrite (H x k (or_introl eq_refl)). cbn [bind].
  rewrite IH; [reflexivity|]. intros y i Hy. apply H. now right.
Qed.

Lemma filterBoolean_map_Some {A B : Type} (g : A -> B) (l : list A) :
  filterBoolean (map (fun x => Some (g x)) l) = map g l.
Proof.
  induction l as [|x rest IH]; [reflexivity|].
  cbn [map filterBoolean]. now rewrite IH.
Qed.

(** X22.  What the relay hands out parses back to the timeline it was sent
    from: the records that clients send for a list of relayable events
    parse, on any client and at any time, to the same events in the same
    order, with the same identifier, time, host, category, connection,
    summary and details; only the raw record is the relayed one. *)
Theorem relayed_timeline_is_the_same (parseDate : string -> option Z)
  (JSON_parse : string -> option value) (now : Z)
  (events : list CanonicalEvent) :
  Forall (relayable parseDate) events ->
  parseEvents parseDate JSON_parse now (VArr (map wireRecord events))
  = Ok (map received events).
Proof.
  intros Hall. unfold parseEvents. cbn [rawEventsOf bind].
  rewrite (mapIndexed_map_ok (parseEvent parseDate now) wireRecord
             (fun e => Some (received e)) events).
  - cbn [bind]. now rewrite filterBoolean_map_Some.
  - intros e i Hin. rewrite Forall_forall in Hall.
    destruct (Hall e Hin)
      as ((now0 & rawEvent & index & Hparse)
          & fields & Hraw & Hnd & Hsource & Hid).
    exact (parseEvent_wireRecord parseDate now0 now rawEvent index i e fields
             Hparse Hraw Hnd Hsource Hid).
Qed.

(** X22 on the events of an enveloped record and of the two records of the
    cross-host scenario. *)
Lemma relayed_timeline_is_the_same_witness :
  exists events,
    parseEvents isoDate noJson 0
      (VArr [envelopedLogin; clientRecord; serverRecord]) = Ok events
    /\ List.length events = 3%nat
    /\ parseEvents isoDate noJson 99 (VArr (map wireRecord events))
       = Ok (map received events).
Proof.
  destruct (parseEvents isoDate noJson 0
              (VArr [envelopedLogin; clientRecord; serverRecord]))
    as [events|err] eqn:Hparse; [|vm_compute in Hparse; discriminate Hparse].
  exists events. split; [reflexivity|].
  assert (Hall : Forall (relayable isoDate) events).
  { apply Forall_forall. intros e Hin.
    destruct (parseEvents_In isoDate noJson 0
                (VArr [envelopedLogin; clientRecord; serverRecord])
                [envelopedLogin; clientRecord; serverRecord] events e
                eq_refl Hparse Hin)
      as (index & rawEvent & _ & Hevent).
    split; [exists 0%Z, rawEvent, index; exact Hevent|].
    clear Hevent. vm_compute in Hparse. injection Hparse as <-.
    destruct Hin as [<- | [<- | [<- | []]]];
      (eexists; split; [reflexivity|];
       split; [repeat constructor; cbn; intuition discriminate|];
       split; [reflexivity | left; reflexivity]). }
  split.
  - vm_compute in Hparse. injection Hparse as <-. reflexivity.
  - exact (relayed_timeline_is_the_same isoDate noJson 99 events Hall).
Defined.

(** ** The details of an event and the panel that shows them *)

Lemma lookup_map_filter {A : Type} (name : A -> string) (body : A -> value)
  (keep : A -> bool) (l : list A) (x : A) :
  NoDup (map name l) ->
  In x l ->
  lookup (name x) (map (fun s => (name s, body s)) (filter keep l))
  = if keep x then Some (body x) else None.
Proof.
  induction l as [|y rest IH]; intros Hnd Hin; [contradiction|].
  cbn [map] in Hnd. inversion Hnd as [|? ? Hnot Hrest]; subst.
  cbn [filter]. destruct Hin as [-> | Hin].
  - destruct (keep x); cbn [map lookup].
    + now rewrite String.eqb_refl.
    + apply lookup_not_In. rewrite map_map. cbn [fst].
      intros Hx. apply Hnot. apply in_map_iff in Hx.
      destruct Hx as (z & Hz & Hzin). apply filter_In in Hzin.
      rewrite <- Hz. apply in_map. tauto.
  - assert (Hneq : name y <> name x).
    { intros Heq. apply Hnot. rewrite Heq. now apply in_map. }
    destruct (keep y); cbn [map lookup]; [|now apply IH].
    destruct (String.eqb_spec (name y) (name x)); [contradiction|].
    now apply IH.
Qed.

(** X23.  The panel shows a conditional section exactly when the parser
    extracted it: for every section of [extractDetails] with a presence
    test, the test of [render], [details[key] && hasValues(details[key])],
    is true when the section is there and false, without an exception,
    when it is not. *)
Theorem conditional_section_is_shown (event : value) (key : string)
  (presence : list string) (fields : list (string * string)) :
  In (key, Some presence, fields) detailSections ->
  sectionShown (extractDetails event) key
  = Ok (sectionPresent event (Some presence)).
Proof.
  intros Hin.
  assert (Hnd : NoDup (map (fun section : string * option (list string)
                                          * list (string * string) =>
                              fst (fst section)) detailSections)).
  { apply (NoDup_map_inv (fun k : string => k)). rewrite map_id.
    vm_compute. repeat constructor; cbn; intuition discriminate. }
  unfold sectionShown, extractDetails. cbn [getProp].
  pose proof (lookup_map_filter
             (fun section : string * option (list string)
                            * list (string * string) => fst (fst section))
             (fun section =>
                VObj (map (fun field =>
                             (fst field,
                              getNestedValue event (snd field) VNull))
                          (snd section)))
             (fun section => sectionPresent event (snd (fst section)))
             detailSections (key, Some presence, fields) Hnd Hin) as Hl.
  cbn [fst snd] in Hl. rewrite Hl. clear Hl.
  destruct (sectionPresent event (Some presence)) eqn:Hpresent;
    [|reflexivity].
  cbn [truthy hasValues ownProperties]. f_equal.
  cbn [sectionPresent] in Hpresent. apply existsb_exists in Hpresent.
  destruct Hpresent as (path & Hpath & Htruthy).
  apply existsb_exists. exists (getNestedValue event path VNull).
  split; [|now apply truthy_present].
  assert (Hlisted : forallb
            (fun section : string * option (list string)
                           * list (string * string) =>
               match snd (fst section) with
               | Some paths =>
                   forallb (fun p => existsb (String.eqb p)
                                       (map snd (snd section))) paths
               | None => true
               end) detailSections = true) by (vm_compute; reflexivity).
  rewrite forallb_forall in Hlisted. specialize (Hlisted _ Hin).
  cbn [fst snd] in Hlisted. rewrite forallb_forall in Hlisted.
  specialize (Hlisted _ Hpath). apply existsb_eqb_In in Hlisted.
  apply in_map_iff in Hlisted. destruct Hlisted as (field & Hfield & Hf).
  apply in_map_iff.
  exists (fst field, getNestedValue event (snd field) VNull).
  split; [rewrite Hfield; reflexivity|].
  apply in_map_iff. exists field. split; [reflexivity | exact Hf].
Qed.

(** X23 on a record with a user name: the section [user] is shown, the
    section [dns] is not. *)
Lemma conditional_section_is_shown_witness :
  sectionShown (extractDetails numericUserName) "user" = Ok true
  /\ getProp (extractDetails numericUserName) "dns" = VUndefined.
Proof.
  split; [|reflexivity].
  refine (conditional_section_is_shown numericUserName "user"
            ["user.name"; "user.id"] _ _).
  cbv [detailSections]. do 5 right. left. reflexivity.
Defined.

(** ** Records that are not objects, and text input *)

(** X24.  A record whose payload is not an object -- a number, a string, a
    boolean, an array -- is skipped without an exception: [parseEvent]
    returns [null] for it. *)
Theorem non_object_record_is_skipped (parseDate : string -> option Z)
  (now : Z) (rawEvent : value) (index : nat) :
  rawEvent <> VNull ->
  rawEvent <> VUndefined ->
  (forall fields, payloadOf rawEvent <> VObj fields) ->
  parseEvent parseDate now rawEvent index = Ok None.
Proof.
  intros Hnull Hundef Hobject.
  rewrite (parseEvent_unfold _ _ _ _ Hnull Hundef).
  unfold parseTimestamp. cbn [getFirstValue timestampPaths].
  rewrite !(getNestedValue_no_object _ _ _ Hobject). reflexivity.
Qed.

(** X24 on an envelope whose [_source] is a text. *)
Lemma non_object_record_is_skipped_witness :
  parseEvent isoDate 0 (VObj [("_id", VStr "x"); ("_source", VStr "lost")]) 0
  = Ok None.
Proof.
  apply (non_object_record_is_skipped isoDate 0
           (VObj [("_id", VStr "x"); ("_source", VStr "lost")]) 0);
    discriminate.
Defined.

Lemma trimStart_spaces (pad s : string) :
  trimStart pad = "" -> trimStart (pad ++ s) = trimStart s.
Proof.
  induction pad as [|a rest IH]; cbn [append trimStart]; [reflexivity|].
  destruct (is_space a); [exact IH | discriminate].
Qed.

Lemma trimEnd_spaces_only (pad : string) :
  trimStart pad = "" -> trimEnd pad = "".
Proof.
  induction pad as [|a rest IH]; cbn [trimStart trimEnd]; [reflexivity|].
  destruct (is_space a) eqn:Ha; [|discriminate].
  intros H. rewrite (IH H). reflexivity.
Qed.

Lemma trimEnd_spaces (s pad : string) :
  trimStart pad = "" -> trimEnd (s ++ pad) = trimEnd s.
Proof.
  intros Hpad. induction s as [|a rest IH]; cbn [append trimEnd].
  - now apply trimEnd_spaces_only.
  - rewrite IH. reflexivity.
Qed.

Lemma trimStart_append (s pad : string) :
  trimStart pad = "" ->
  trimEnd (trimStart (s ++ pad)) = trimEnd (trimStart s).
Proof.
  intros Hpad. induction s as [|a rest IH]; cbn [append trimStart].
  - rewrite Hpad. reflexivity.
  - destruct (is_space a); [exact IH|].
    exact (trimEnd_spaces (String a rest) pad Hpad).
Qed.

(** X25.  White space around a text does not matter: [parseEvents] gives
    the same result, events or exception, for a text and for the text
    between two runs of white space. *)
Theorem parseEvents_ignores_padding (parseDate : string -> option Z)
  (JSON_parse : string -> option value) (now : Z)
  (before text after : string) :
  trimStart before = "" ->
  trimStart after = "" ->
  parseEvents parseDate JSON_parse now (VStr (before ++ text ++ after))
  = parseEvents parseDate JSON_parse now (VStr text).
Proof.
  intros Hbefore Hafter.
  assert (Htrim : trim (before ++ text ++ after) = trim text).
  { unfold trim. rewrite (trimStart_spaces before _ Hbefore).
    apply trimStart_append. exact Hafter. }
  unfold parseEvents, rawEventsOf. rewrite Htrim. reflexivity.
Qed.

(** X26.  The first test of the check for several objects is covered by
    the second: a text in which a closing brace is followed by an opening
    brace across a line break also has the two braces with only white
    space between them. *)
Theorem braces_across_lines_are_back_to_back (s : string) :
  bracesAcrossLines s = true -> bracesBackToBack s = true.
Proof.
  induction s as [|a rest IH]; cbn [bracesAcrossLines bracesBackToBack];
    [discriminate|].
  intros H. apply orb_true_iff in H. apply orb_true_iff.
  destruct H as [H | H]; [left | right; now apply IH].
  apply andb_true_iff in H. destruct H as [H Hbrace].
  apply andb_true_iff in H. destruct H as [Hclose _].
  now rewrite Hclose, Hbrace.
Qed.

(** X25 on the text of the empty array between blanks and line breaks. *)
Lemma parseEvents_ignores_padding_witness :
  parseEvents isoDate emptyArrayJson 0
    (VStr (String " " (String "010" "") ++ "[]" ++ String "010" " "))
  = parseEvents isoDate emptyArrayJson 0 (VStr "[]")
  /\ parseEvents isoDate emptyArrayJson 0 (VStr "[]") = Ok [].
Proof.
  split; [|reflexivity].
  apply (parseEvents_ignores_padding isoDate emptyArrayJson 0
           (String " " (String "010" "")) "[]" (String "010" " "));
    reflexivity.
Defined.

(** X26 on two objects on two lines. *)
Lemma braces_across_lines_are_back_to_back_witness :
  bracesAcrossLines ("{}" ++ String "010" "{}") = true
  /\ bracesBackToBack ("{}" ++ String "010" "{}") = true.
Proof.
  assert (H : bracesAcrossLines ("{}" ++ String "010" "{}") = true)
    by reflexivity.
  split; [exact H|].
  exact (braces_across_lines_are_back_to_back _ H).
Defined.
